(** * Camera frame ingestion callback: ring store, latest-frame publication,
      metadata record, JPEG streaming gate and channel statistics.

    Shallow embedding of [camera_example1_callback.c].  Machine integers are
    [Z] with their wrap-around written out, the callback's globals are a
    record threaded through each block of [processCameraData], POSIX shared
    memory is a name table over a store of byte objects, and every system
    call the callback issues is recorded in a trace of events. *)

From Stdlib Require Import ZArith QArith PrimFloat Uint63 Lia.
From stdpp Require Import base numbers list gmap strings pretty.

Local Open Scope Z_scope.

(** ** Machine arithmetic *)

(** [uint32_t] and [uint] arithmetic wraps modulo 2^32. *)
Definition u32 (x : Z) : Z := x mod 2 ^ 32.

(** [size_t] and [unsigned long] are 64 bits wide (the length prefix sent
    on the socket is [sizeof(unsigned long)] = 8 bytes). *)
Definition u64 (x : Z) : Z := x mod 2 ^ 64.

(** [for (k = 0; k < n; k++) acc = body k acc]. *)
Definition for_loop {A : Type} (n : Z) (body : Z → A → A) (a : A) : A :=
  foldl (λ acc k, body (Z.of_nat k) acc) a (seq 0 (Z.to_nat n)).

(** ** Frames as the driver delivers them *)

(** Modelled from the spec: [camera_frametype_t] is declared in
    [camera/camera_api.h], which is not part of the sources.  The four
    layouts the callback handles and the unspecified tag are the tags the
    source names; every other tag of the enumeration is [CAMERA_FRAMETYPE_OTHER]. *)
Inductive camera_frametype_t : Type :=
  | CAMERA_FRAMETYPE_UNSPECIFIED
  | CAMERA_FRAMETYPE_YCBYCR
  | CAMERA_FRAMETYPE_CBYCRY
  | CAMERA_FRAMETYPE_RGB8888
  | CAMERA_FRAMETYPE_BGR8888
  | CAMERA_FRAMETYPE_OTHER (tag : Z).

#[global] Instance camera_frametype_eq_dec : EqDecision camera_frametype_t.
Proof. solve_decision. Defined.

(** Modelled from the spec: [camera_framedesc_t] is a union with one member
    per layout ([rgb8888], [bgr8888], [ycbycr], [cbycry]); the callback reads
    the [uint32_t] fields [width], [height] and [stride] of the member that
    matches the tag, so one record of the three stands for all members. *)
Record camera_framedesc_t : Type := {
  width : Z;
  height : Z;
  stride : Z;
}.

(** [camera_buffer_t]: the tag, the descriptor and the raw bytes at
    [framebuf]. *)
Record camera_buffer_t : Type := {
  frametype : camera_frametype_t;
  framedesc : camera_framedesc_t;
  framebuf : list Z;
}.

(** [buffer->framebuf[i]].  A read past the bytes the driver supplied is
    undefined in C; here it yields 0. *)
Definition rd (fb : list Z) (i : Z) : Z := nth (Z.to_nat i) fb 0.

(** The list of layouts [processCameraData] can operate on. *)
Definition cSupportedFrametypes : list camera_frametype_t :=
  [CAMERA_FRAMETYPE_YCBYCR; CAMERA_FRAMETYPE_CBYCRY;
   CAMERA_FRAMETYPE_RGB8888; CAMERA_FRAMETYPE_BGR8888].

Definition NUM_CHANNELS : Z := 3.
Definition MAX_FRAMES : Z := 5.

(** ** Shared memory *)

(** The value of a mapping pointer: [NULL], [MAP_FAILED], or the mapping of
    a shared-memory object. *)
Inductive ptr : Type :=
  | NULL
  | MAP_FAILED
  | Map (o : nat).

#[global] Instance ptr_eq_dec : EqDecision ptr.
Proof. solve_decision. Defined.

(** The shared-memory name space: the names that resolve ([shm_names]) and
    the bytes of every object created so far ([shm_objs]).  An object stays
    in [shm_objs] after its name is unlinked, as it does for a process that
    still maps it. *)
Record Shm : Type := {
  shm_names : gmap string nat;
  shm_objs : list (list Z);
}.

(** [shm_open(name, O_CREAT | O_RDWR, 0666)]: the descriptor is the object
    the name resolves to; a name that does not resolve gets a new empty
    object.  [ok] is whether the call succeeds. *)
Definition shm_open (name : string) (ok : bool) (s : Shm) : option nat * Shm :=
  if ok then
    match shm_names s !! name with
    | Some o => (Some o, s)
    | None =>
        let o := length (shm_objs s) in
        (Some o, {| shm_names := <[name := o]> (shm_names s);
                    shm_objs := shm_objs s ++ [[]] |})
    end
  else (None, s).

(** [ftruncate(fd, len)]: on success the object is cut or zero-extended to
    [len] bytes. *)
Definition ftruncate (fd : nat) (len : Z) (ok : bool) (s : Shm) : Shm :=
  if ok then
    {| shm_names := shm_names s;
       shm_objs := alter (resize (Z.to_nat len) 0) fd (shm_objs s) |}
  else s.

(** [mmap(NULL, len, PROT_READ | PROT_WRITE, MAP_SHARED, fd, 0)]. *)
Definition mmap (fd : nat) (ok : bool) : ptr :=
  if ok then Map fd else MAP_FAILED.

(** [memcpy(dst, src, n)] into a shared mapping: the first [n] bytes of the
    object become the first [n] bytes at [src]. *)
Definition memcpy (dst : ptr) (src : list Z) (n : Z) (s : Shm) : Shm :=
  match dst with
  | Map o =>
      {| shm_names := shm_names s;
         shm_objs := alter (λ old, resize (Z.to_nat n) 0 src ++ drop (Z.to_nat n) old)
                           o (shm_objs s) |}
  | _ => s
  end.

(** [shm_unlink(name)]: the name no longer resolves. *)
Definition shm_unlink (name : option string) (s : Shm) : Shm :=
  match name with
  | Some n => {| shm_names := delete n (shm_names s); shm_objs := shm_objs s |}
  | None => s
  end.

(** The bytes seen through a mapping pointer. *)
Definition mapped_bytes (p : ptr) (s : Shm) : option (list Z) :=
  match p with
  | Map o => shm_objs s !! o
  | _ => None
  end.

(** ** The callback's globals *)

Record Frame : Type := {
  f_frametype : camera_frametype_t;
  f_framedesc : camera_framedesc_t;
  f_shm_name : option string;
  f_mapped_data : ptr;
  f_data_size : Z;
}.

Record Metadata : Type := {
  md_frametype : camera_frametype_t;
  md_width : Z;
  md_height : Z;
  md_size : Z;
}.

Record State : Type := {
  frame_buffer : list Frame;
  buffer_head : Z;
  buffer_count : Z;
  metadata_mapped : Metadata;
  latest_shm_name : option string;
  latest_mapped : ptr;
  latest_size : Z;
  shm : Shm;
}.

(** A zero-initialised [Frame], as the static array starts. *)
Definition zero_frame : Frame :=
  {| f_frametype := CAMERA_FRAMETYPE_UNSPECIFIED;
     f_framedesc := {| width := 0; height := 0; stride := 0 |};
     f_shm_name := None;
     f_mapped_data := NULL;
     f_data_size := 0 |}.

(** The globals when the first callback arrives: [main] has created and
    mapped [/camera_metadata] (zero-filled by [ftruncate]); nothing else
    exists yet. *)
Definition initial_state : State :=
  {| frame_buffer := replicate (Z.to_nat MAX_FRAMES) zero_frame;
     buffer_head := 0;
     buffer_count := 0;
     metadata_mapped := {| md_frametype := CAMERA_FRAMETYPE_UNSPECIFIED;
                           md_width := 0; md_height := 0; md_size := 0 |};
     latest_shm_name := None;
     latest_mapped := NULL;
     latest_size := 0;
     shm := {| shm_names := ∅; shm_objs := [] |} |}.

(** ** [get_frame_size] and [get_latest_frame] *)

Definition get_frame_size (buffer : camera_buffer_t) : Z :=
  match frametype buffer with
  | CAMERA_FRAMETYPE_RGB8888 =>
      u64 (u64 (width (framedesc buffer) * height (framedesc buffer)) * 4)
  | CAMERA_FRAMETYPE_BGR8888 =>
      u64 (u64 (width (framedesc buffer) * height (framedesc buffer)) * 4)
  | CAMERA_FRAMETYPE_YCBYCR =>
      u64 (u64 (width (framedesc buffer) * height (framedesc buffer)) * 2)
  | CAMERA_FRAMETYPE_CBYCRY =>
      u64 (u64 (width (framedesc buffer) * height (framedesc buffer)) * 2)
  | _ => 0
  end.

(** The result is the index of the slot the returned pointer designates;
    [None] is [NULL].  [%] on [int] truncates towards zero ([Z.rem]). *)
Definition get_latest_frame (st : State) : option Z :=
  if buffer_count st =? 0 then None
  else Some (Z.rem (buffer_head st + buffer_count st - 1) MAX_FRAMES).

(** ** What the platform and the outside world contribute to one callback *)

(** Whether each system call of the callback succeeds, the byte order of
    the machine, and the JPEG library: [jpeg_codec rgb w h] is the buffer
    [jpeg_mem_dest] leaves in [*jpeg_data] after [jpeg_finish_compress]
    ([None] when it stays [NULL]). *)
Record Env : Type := {
  ring_open_ok : bool;
  ring_trunc_ok : bool;
  ring_map_ok : bool;
  latest_open_ok : bool;
  latest_trunc_ok : bool;
  latest_map_ok : bool;
  name_open_ok : bool;
  name_trunc_ok : bool;
  name_map_ok : bool;
  malloc_ok : bool;
  big_endian : bool;
  jpeg_codec : list Z → Z → Z → option (list Z);
}.

(** The calls that leave the process, in program order.  [close], [free],
    [strdup] and [clock] change nothing that is modelled and are not
    traced. *)
Inductive event : Type :=
  | EvMunmap (p : ptr) (len : Z)
  | EvShmUnlink (name : option string)
  | EvShmOpen (name : string) (fd : option nat)
  | EvFtruncate (fd : nat) (len : Z) (ok : bool)
  | EvMmap (fd : nat) (len : Z) (p : ptr)
  | EvMalloc (n : Z) (ok : bool)
  | EvCompress (rgb_data : list Z) (w h : Z)
  | EvSend (bytes : list Z)
  | EvPrintAverages (a0 a1 a2 : float)
  | EvPrintUnsupported (ft : camera_frametype_t).

#[global] Instance Frame_inhabited : Inhabited Frame := populate zero_frame.

Definition set_shm (s : Shm) (st : State) : State :=
  {| frame_buffer := frame_buffer st; buffer_head := buffer_head st;
     buffer_count := buffer_count st; metadata_mapped := metadata_mapped st;
     latest_shm_name := latest_shm_name st; latest_mapped := latest_mapped st;
     latest_size := latest_size st; shm := s |}.

Definition set_ring (fb : list Frame) (head count : Z) (st : State) : State :=
  {| frame_buffer := fb; buffer_head := head; buffer_count := count;
     metadata_mapped := metadata_mapped st;
     latest_shm_name := latest_shm_name st; latest_mapped := latest_mapped st;
     latest_size := latest_size st; shm := shm st |}.

Definition set_latest (name : option string) (p : ptr) (size : Z) (st : State) : State :=
  {| frame_buffer := frame_buffer st; buffer_head := buffer_head st;
     buffer_count := buffer_count st; metadata_mapped := metadata_mapped st;
     latest_shm_name := name; latest_mapped := p; latest_size := size;
     shm := shm st |}.

Definition set_metadata (md : Metadata) (st : State) : State :=
  {| frame_buffer := frame_buffer st; buffer_head := buffer_head st;
     buffer_count := buffer_count st; metadata_mapped := md;
     latest_shm_name := latest_shm_name st; latest_mapped := latest_mapped st;
     latest_size := latest_size st; shm := shm st |}.

(** ** [processCameraData], block by block *)

(** [snprintf(shm_name, sizeof(shm_name), "/camera_frame_%d", index)]. *)
Definition frame_shm_name (index : Z) : string :=
  "/camera_frame_" +:+ pretty index.

(** Lines 360-367: when the ring is full, free the oldest frame. *)
Definition evict_oldest (st : State) : State * list event :=
  if buffer_count st =? MAX_FRAMES then
    let old := frame_buffer st !!! Z.to_nat (buffer_head st) in
    (set_shm (shm_unlink (f_shm_name old) (shm st))
       (set_ring (frame_buffer st)
                 (Z.rem (buffer_head st + 1) MAX_FRAMES)
                 (buffer_count st - 1) st),
     [EvMunmap (f_mapped_data old) (f_data_size old);
      EvShmUnlink (f_shm_name old)])
  else (st, []).

(** Lines 358-389: store the frame in the ring. *)
Definition store_frame (env : Env) (buffer : camera_buffer_t) (size : Z)
    (st0 : State) : State * list event :=
  let '(st, ev) := evict_oldest st0 in
  let index := Z.rem (buffer_head st + buffer_count st) MAX_FRAMES in
  let shm_name := frame_shm_name index in
  match shm_open shm_name (ring_open_ok env) (shm st) with
  | (Some fd, s1) =>
      let s2 := ftruncate fd size (ring_trunc_ok env) s1 in
      if ring_trunc_ok env then
        let mapped_data := mmap fd (ring_map_ok env) in
        if decide (mapped_data = MAP_FAILED) then
          (set_shm s2 st,
           ev ++ [EvShmOpen shm_name (Some fd); EvFtruncate fd size true;
                  EvMmap fd size mapped_data])
        else
          let s3 := memcpy mapped_data (framebuf buffer) size s2 in
          let fr := {| f_frametype := frametype buffer;
                       f_framedesc := framedesc buffer;
                       f_shm_name := Some shm_name;
                       f_mapped_data := mapped_data;
                       f_data_size := size |} in
          (set_shm s3
             (set_ring (<[Z.to_nat index := fr]> (frame_buffer st))
                       (buffer_head st) (buffer_count st + 1) st),
           ev ++ [EvShmOpen shm_name (Some fd); EvFtruncate fd size true;
                  EvMmap fd size mapped_data])
      else
        (set_shm s2 st,
         ev ++ [EvShmOpen shm_name (Some fd); EvFtruncate fd size false])
  | (None, s1) => (set_shm s1 st, ev ++ [EvShmOpen shm_name None])
  end.

(** Lines 391-411: update the latest-frame shared memory.  The result of
    [mmap] is assigned to the global [latest_mapped] before it is compared
    with [MAP_FAILED]. *)
Definition update_latest (env : Env) (buffer : camera_buffer_t)
    (st0 : State) : State * list event :=
  let '(s0, ev) :=
    if decide (latest_mapped st0 = NULL) then (shm st0, [])
    else (shm_unlink (latest_shm_name st0) (shm st0),
          [EvMunmap (latest_mapped st0) (latest_size st0);
           EvShmUnlink (latest_shm_name st0)]) in
  let name := "/camera_latest"%string in
  let st := set_latest (Some name) (latest_mapped st0) (latest_size st0) st0 in
  match shm_open name (latest_open_ok env) s0 with
  | (Some latest_fd, s1) =>
      let size := get_frame_size buffer in
      let s2 := ftruncate latest_fd size (latest_trunc_ok env) s1 in
      if latest_trunc_ok env then
        let p := mmap latest_fd (latest_map_ok env) in
        if decide (p = MAP_FAILED) then
          (set_shm s2 (set_latest (Some name) p (latest_size st0) st),
           ev ++ [EvShmOpen name (Some latest_fd);
                  EvFtruncate latest_fd size true; EvMmap latest_fd size p])
        else
          (set_shm (memcpy p (framebuf buffer) size s2)
             (set_latest (Some name) p size st),
           ev ++ [EvShmOpen name (Some latest_fd);
                  EvFtruncate latest_fd size true; EvMmap latest_fd size p])
      else
        (set_shm s2 st,
         ev ++ [EvShmOpen name (Some latest_fd);
                EvFtruncate latest_fd size false])
  | (None, s1) => (set_shm s1 st, ev ++ [EvShmOpen name None])
  end.

(** Lines 413-440: overwrite the four fields of the metadata record.
    [size] is the variable of line 359. *)
Definition update_metadata (buffer : camera_buffer_t) (size : Z)
    (st : State) : State :=
  let '(w, h) :=
    match frametype buffer with
    | CAMERA_FRAMETYPE_RGB8888 => (width (framedesc buffer), height (framedesc buffer))
    | CAMERA_FRAMETYPE_BGR8888 => (width (framedesc buffer), height (framedesc buffer))
    | CAMERA_FRAMETYPE_YCBYCR => (width (framedesc buffer), height (framedesc buffer))
    | CAMERA_FRAMETYPE_CBYCRY => (width (framedesc buffer), height (framedesc buffer))
    | _ => (0, 0)
    end in
  set_metadata {| md_frametype := frametype buffer; md_width := w;
                  md_height := h; md_size := size |} st.

(** The bytes of a C string. *)
Definition string_bytes (s : string) : list Z :=
  (λ c, Z.of_N (Ascii.N_of_ascii c)) <$> String.list_ascii_of_string s.

(** Lines 442-453: write the name of the latest segment into the 256-byte
    name record ([strncpy] pads with zero bytes). *)
Definition update_latest_name (env : Env) (st : State) : State * list event :=
  let name := "/camera_latest_name"%string in
  match shm_open name (name_open_ok env) (shm st) with
  | (Some name_fd, s1) =>
      let s2 := ftruncate name_fd 256 (name_trunc_ok env) s1 in
      if name_trunc_ok env then
        let name_mapped := mmap name_fd (name_map_ok env) in
        if decide (name_mapped = MAP_FAILED) then
          (set_shm s2 st,
           [EvShmOpen name (Some name_fd); EvFtruncate name_fd 256 true;
            EvMmap name_fd 256 name_mapped])
        else
          (set_shm (memcpy name_mapped (string_bytes "/camera_latest") 256 s2) st,
           [EvShmOpen name (Some name_fd); EvFtruncate name_fd 256 true;
            EvMmap name_fd 256 name_mapped; EvMunmap name_mapped 256])
      else
        (set_shm s2 st,
         [EvShmOpen name (Some name_fd); EvFtruncate name_fd 256 false])
  | (None, s1) => (set_shm s1 st, [EvShmOpen name None])
  end.

(** Lines 459-487: the dimensions used by the encoder and the statistics. *)
Definition dimensions (buffer : camera_buffer_t) : Z * Z * Z :=
  match frametype buffer with
  | CAMERA_FRAMETYPE_RGB8888 =>
      (width (framedesc buffer), height (framedesc buffer), stride (framedesc buffer))
  | CAMERA_FRAMETYPE_BGR8888 =>
      (width (framedesc buffer), height (framedesc buffer), stride (framedesc buffer))
  | CAMERA_FRAMETYPE_YCBYCR =>
      (width (framedesc buffer), height (framedesc buffer), stride (framedesc buffer))
  | CAMERA_FRAMETYPE_CBYCRY =>
      (width (framedesc buffer), height (framedesc buffer), stride (framedesc buffer))
  | _ => (0, 0, 0)
  end.

(** Lines 493-499: drop the fourth byte of every pixel, row by row.  All
    index arithmetic is [uint32_t]. *)
Definition pack_rgb (fb : list Z) (width height stride : Z)
    (rgb_data : list Z) : list Z :=
  for_loop height (λ y rgb_data,
    for_loop width (λ x rgb_data,
      let dst := u32 (u32 (u32 (y * width) + x) * 3) in
      let src := u32 (u32 (y * stride) + u32 (x * 4)) in
      let rgb_data := <[Z.to_nat dst := rd fb src]> rgb_data in
      let rgb_data := <[Z.to_nat (u32 (dst + 1)) := rd fb (u32 (src + 1))]> rgb_data in
      <[Z.to_nat (u32 (dst + 2)) := rd fb (u32 (src + 2))]> rgb_data)
    rgb_data) rgb_data.

(** [compress_to_jpeg]: the pair ([*jpeg_data], [*jpeg_size]) it leaves. *)
Definition compress_to_jpeg (env : Env) (rgb_data : list Z) (width height : Z)
    : option (list Z) * Z :=
  match jpeg_codec env rgb_data width height with
  | Some data => (Some data, u64 (Z.of_nat (length data)))
  | None => (None, 0)
  end.

(** The eight bytes of an [unsigned long] as they lie in memory. *)
Definition ulong_bytes (be : bool) (v : Z) : list Z :=
  let le := (λ k, Z.land (Z.shiftr v (8 * Z.of_nat k)) 255) <$> seq 0 8 in
  if be then reverse le else le.

(** Lines 489-510: compress to JPEG and send if RGB8888. *)
Definition encode_and_send (env : Env) (buffer : camera_buffer_t) : list event :=
  let '(width, height, stride) := dimensions buffer in
  if bool_decide (frametype buffer = CAMERA_FRAMETYPE_RGB8888)
     && (0 <? width) && (0 <? height) then
    let n := u32 (u32 (width * height) * 3) in
    if malloc_ok env then
      let rgb_data :=
        pack_rgb (framebuf buffer) width height stride (replicate (Z.to_nat n) 0) in
      match compress_to_jpeg env rgb_data width height with
      | (Some jpeg_data, jpeg_size) =>
          [EvMalloc n true; EvCompress rgb_data width height;
           EvSend (ulong_bytes (big_endian env) jpeg_size);
           EvSend (take (Z.to_nat jpeg_size) jpeg_data)]
      | (None, _) => [EvMalloc n true; EvCompress rgb_data width height]
      end
    else [EvMalloc n false]
  else [].

(** ** Channel statistics *)

(** The arithmetic of [double] that the statistics use.  The callback runs
    on [binary64]; [exact] is the same program over the rationals, where no
    operation rounds. *)
Class DoubleOps (D : Type) : Type := {
  d_zero : D;
  d_of_Z : Z → D;
  d_add : D → D → D;
  d_div : D → D → D;
}.

#[global] Instance binary64 : DoubleOps float := {|
  d_zero := 0%float;
  d_of_Z := λ z, PrimFloat.of_uint63 (Uint63.of_Z z);
  d_add := PrimFloat.add;
  d_div := PrimFloat.div;
|}.

#[global] Instance exact : DoubleOps Q := {|
  d_zero := inject_Z 0;
  d_of_Z := inject_Z;
  d_add := Qplus;
  d_div := Qdiv;
|}.

Section statistics.
Context {D : Type} `{DoubleOps D}.

(** [channelAverage[chan] += (double)v]. *)
Definition accumulate (chan v : Z) (channelAverage : list D) : list D :=
  alter (λ a, d_add a (d_of_Z v)) (Z.to_nat chan) channelAverage.

(** [channelAverage[chan] /= (double)d]. *)
Definition divide (chan d : Z) (channelAverage : list D) : list D :=
  alter (λ a, d_div a (d_of_Z d)) (Z.to_nat chan) channelAverage.

(** Lines 512-593: the [switch] over the layout; [None] is the [default]
    branch, which reports the layout as unsupported and returns. *)
Definition channel_averages (buffer : camera_buffer_t) : option (list D) :=
  let '(width, height, stride) := dimensions buffer in
  let fb := framebuf buffer in
  let channelAverage := replicate (Z.to_nat NUM_CHANNELS) d_zero in
  match frametype buffer with
  | CAMERA_FRAMETYPE_RGB8888 =>
      let channelAverage :=
        for_loop height (λ y channelAverage,
          let linePointer := u32 (y * stride) in
          for_loop (u32 (4 * width)) (λ i channelAverage,
            let chan := i mod 4 in
            if chan =? 3 then channelAverage
            else accumulate chan (rd fb (linePointer + i)) channelAverage)
          channelAverage) channelAverage in
      Some (for_loop NUM_CHANNELS (λ chan channelAverage,
              divide chan (u32 (width * height)) channelAverage) channelAverage)
  | CAMERA_FRAMETYPE_BGR8888 =>
      let channelAverage :=
        for_loop height (λ y channelAverage,
          let linePointer := u32 (y * stride) in
          for_loop (u32 (4 * width)) (λ i channelAverage,
            if i mod 4 =? 3 then channelAverage
            else
              let chan := u32 (u32 (u32 (u32 (4 * width) - i) + 3) mod 4 - 1) in
              accumulate chan (rd fb (linePointer + i)) channelAverage)
          channelAverage) channelAverage in
      Some (for_loop NUM_CHANNELS (λ chan channelAverage,
              divide chan (u32 (width * height)) channelAverage) channelAverage)
  | CAMERA_FRAMETYPE_YCBYCR =>
      let channelAverage :=
        for_loop height (λ y channelAverage,
          let linePointer := u32 (y * stride) in
          for_loop (u32 (2 * width)) (λ i channelAverage,
            let chan := i mod 2 in
            let chan := if chan =? 1 then u32 (u32 (i - 1) mod 4 / 2 + 1) else chan in
            accumulate chan (rd fb (linePointer + i)) channelAverage)
          channelAverage) channelAverage in
      let channelAverage := divide 0 (u32 (width * height)) channelAverage in
      let channelAverage := divide 1 (u32 (width / 2 * height)) channelAverage in
      Some (divide 2 (u32 (width / 2 * height)) channelAverage)
  | CAMERA_FRAMETYPE_CBYCRY =>
      let channelAverage :=
        for_loop height (λ y channelAverage,
          let linePointer := u32 (y * stride) in
          for_loop (u32 (2 * width)) (λ i channelAverage,
            let chan := u32 (i + 1) mod 2 in
            let chan := if chan =? 1 then u32 (u32 (i + 1) mod 4 + 1) / 2 else chan in
            accumulate chan (rd fb (linePointer + i)) channelAverage)
          channelAverage) channelAverage in
      let channelAverage := divide 0 (u32 (width * height)) channelAverage in
      let channelAverage := divide 1 (u32 (width / 2 * height)) channelAverage in
      Some (divide 2 (u32 (width / 2 * height)) channelAverage)
  | _ => None
  end.
End statistics.

(** Lines 512-603: compute the averages and print them, or report the
    layout as unsupported. *)
Definition statistics (buffer : camera_buffer_t) : list event :=
  match channel_averages (D := float) buffer with
  | Some channelAverage =>
      [EvPrintAverages (nth 0 channelAverage d_zero) (nth 1 channelAverage d_zero)
                       (nth 2 channelAverage d_zero)]
  | None => [EvPrintUnsupported (frametype buffer)]
  end.

(** ** The callback *)

Definition processCameraData (env : Env) (buffer : camera_buffer_t)
    (st : State) : State * list event :=
  let size := get_frame_size buffer in
  let '(st1, ev1) := store_frame env buffer size st in
  let '(st2, ev2) := update_latest env buffer st1 in
  let st3 := update_metadata buffer size st2 in
  let '(st4, ev4) := update_latest_name env st3 in
  (st4, ev1 ++ ev2 ++ ev4 ++ encode_and_send env buffer ++ statistics buffer).

(** The driver delivers frames one after the other; each delivery meets its
    own environment. *)
Fixpoint run (deliveries : list (Env * camera_buffer_t)) (st : State)
    : State * list event :=
  match deliveries with
  | [] => (st, [])
  | (env, buffer) :: rest =>
      let '(st1, ev1) := processCameraData env buffer st in
      let '(st2, ev2) := run rest st1 in
      (st2, ev1 ++ ev2)
  end.

(** * Specification-side definitions *)

(** The descriptor fields are [uint32_t]. *)
Definition wf_buffer (b : camera_buffer_t) : Prop :=
  0 ≤ width (framedesc b) < 2 ^ 32
  ∧ 0 ≤ height (framedesc b) < 2 ^ 32
  ∧ 0 ≤ stride (framedesc b) < 2 ^ 32.

Definition packed4 (ft : camera_frametype_t) : Prop :=
  ft = CAMERA_FRAMETYPE_RGB8888 ∨ ft = CAMERA_FRAMETYPE_BGR8888.

Definition chroma2 (ft : camera_frametype_t) : Prop :=
  ft = CAMERA_FRAMETYPE_YCBYCR ∨ ft = CAMERA_FRAMETYPE_CBYCRY.

(** The byte size as the specification words it, over unbounded integers. *)
Definition spec_byte_size (b : camera_buffer_t) : Z :=
  match frametype b with
  | CAMERA_FRAMETYPE_RGB8888 | CAMERA_FRAMETYPE_BGR8888 =>
      width (framedesc b) * height (framedesc b) * 4
  | CAMERA_FRAMETYPE_YCBYCR | CAMERA_FRAMETYPE_CBYCRY =>
      width (framedesc b) * height (framedesc b) * 2
  | _ => 0
  end.

(** ** The frame store *)

(** The environment lets every step of the ring store succeed. *)
Definition stores (env : Env) : bool :=
  ring_open_ok env && ring_trunc_ok env && ring_map_ok env.

(** The frames of the deliveries whose ring store succeeded, oldest first. *)
Fixpoint pushed (deliveries : list (Env * camera_buffer_t)) : list camera_buffer_t :=
  match deliveries with
  | [] => []
  | (env, buffer) :: rest =>
      if stores env then buffer :: pushed rest else pushed rest
  end.

(** The slot index of the [k]-th live frame, counted from the oldest. *)
Definition ring_index (st : State) (k : Z) : Z :=
  (buffer_head st + k) mod MAX_FRAMES.

Definition slot (st : State) (k : Z) : Frame :=
  frame_buffer st !!! Z.to_nat (ring_index st k).

(** The bytes [memcpy] takes from a delivered frame. *)
Definition frame_bytes (b : camera_buffer_t) : list Z :=
  resize (Z.to_nat (get_frame_size b)) 0 (framebuf b).

(** A ring slot holds a delivered frame: tag, descriptor and size are the
    frame's, and its mapping shows the frame's bytes. *)
Definition frame_holds (s : Shm) (fr : Frame) (b : camera_buffer_t) : Prop :=
  f_frametype fr = frametype b
  ∧ f_framedesc fr = framedesc b
  ∧ f_data_size fr = get_frame_size b
  ∧ mapped_bytes (f_mapped_data fr) s = Some (frame_bytes b).

(** The live frames of the ring, oldest first, hold exactly [bs]. *)
Definition ring_holds (st : State) (bs : list camera_buffer_t) : Prop :=
  buffer_count st = Z.of_nat (length bs)
  ∧ ∀ (k : nat) (b : camera_buffer_t),
      bs !! k = Some b → frame_holds (shm st) (slot st (Z.of_nat k)) b.

(** The invariant of the frame store along a run; [hist] is the frames
    pushed so far.  Every live slot maps an object that holds its frame and
    that resolves, if at all, only under the slot's own name. *)
Record store_inv (st : State) (hist : list camera_buffer_t) : Prop := {
  inv_len : length (frame_buffer st) = 5%nat;
  inv_head : 0 ≤ buffer_head st < MAX_FRAMES;
  inv_count : 0 ≤ buffer_count st ≤ MAX_FRAMES;
  inv_hist : buffer_count st ≤ Z.of_nat (length hist);
  inv_bound : ∀ n o, shm_names (shm st) !! n = Some o →
                (o < length (shm_objs (shm st)))%nat;
  inv_inj : ∀ n1 n2 o, shm_names (shm st) !! n1 = Some o →
              shm_names (shm st) !! n2 = Some o → n1 = n2;
  inv_latest : latest_shm_name st = None
               ∨ latest_shm_name st = Some "/camera_latest"%string;
  inv_slot : ∀ k, 0 ≤ k < buffer_count st →
    ∃ o b,
      hist !! Z.to_nat (Z.of_nat (length hist) - buffer_count st + k) = Some b
      ∧ frame_holds (shm st) (slot st k) b
      ∧ f_mapped_data (slot st k) = Map o
      ∧ f_shm_name (slot st k) = Some (frame_shm_name (ring_index st k))
      ∧ ∀ n, shm_names (shm st) !! n = Some o →
             n = frame_shm_name (ring_index st k);
}.

(** [s'] differs from [s] only under [name]: other names resolve as
    before, [name] resolves as before, to nothing, or to an object created
    since, and the bytes of every older object that [name] did not resolve
    to are untouched. *)
Record shm_ext (name : string) (s s' : Shm) : Prop := {
  ext_len : (length (shm_objs s) ≤ length (shm_objs s'))%nat;
  ext_names : ∀ n, n ≠ name → shm_names s' !! n = shm_names s !! n;
  ext_objs : ∀ o, (o < length (shm_objs s))%nat →
               shm_names s !! name ≠ Some o →
               shm_objs s' !! o = shm_objs s !! o;
  ext_name : shm_names s' !! name = None
             ∨ shm_names s' !! name = shm_names s !! name
             ∨ ∃ o, shm_names s' !! name = Some o
                    ∧ (length (shm_objs s) ≤ o < length (shm_objs s'))%nat;
}.

(** ** Sample deliveries *)

(** An environment in which every call succeeds; its codec returns the
    packed pixels unchanged. *)
Definition env_ok : Env :=
  {| ring_open_ok := true; ring_trunc_ok := true; ring_map_ok := true;
     latest_open_ok := true; latest_trunc_ok := true; latest_map_ok := true;
     name_open_ok := true; name_trunc_ok := true; name_map_ok := true;
     malloc_ok := true; big_endian := false;
     jpeg_codec := λ rgb _ _, Some rgb |}.

(** As [env_ok], but [shm_open] of the ring segment fails. *)
Definition env_ring_open_fails : Env :=
  {| ring_open_ok := false; ring_trunc_ok := true; ring_map_ok := true;
     latest_open_ok := true; latest_trunc_ok := true; latest_map_ok := true;
     name_open_ok := true; name_trunc_ok := true; name_map_ok := true;
     malloc_ok := true; big_endian := false;
     jpeg_codec := λ rgb _ _, Some rgb |}.

(** As [env_ok], but [mmap] of the latest-frame segment fails. *)
Definition env_latest_map_fails : Env :=
  {| ring_open_ok := true; ring_trunc_ok := true; ring_map_ok := true;
     latest_open_ok := true; latest_trunc_ok := true; latest_map_ok := false;
     name_open_ok := true; name_trunc_ok := true; name_map_ok := true;
     malloc_ok := true; big_endian := false;
     jpeg_codec := λ rgb _ _, Some rgb |}.

(** As [env_ok], but no [mmap] succeeds, as POSIX has it for length 0. *)
Definition env_no_map : Env :=
  {| ring_open_ok := true; ring_trunc_ok := true; ring_map_ok := false;
     latest_open_ok := true; latest_trunc_ok := true; latest_map_ok := false;
     name_open_ok := true; name_trunc_ok := true; name_map_ok := true;
     malloc_ok := true; big_endian := false;
     jpeg_codec := λ rgb _ _, Some rgb |}.

(** A 2x1 RGB8888 frame with stride 8 whose first byte is [v]. *)
Definition sample_frame (v : Z) : camera_buffer_t :=
  {| frametype := CAMERA_FRAMETYPE_RGB8888;
     framedesc := {| width := 2; height := 1; stride := 8 |};
     framebuf := [v; 20; 30; 99; 40; 50; 60; 99] |}.

(** The frame of the decoder example: pixels (10,20,30) and (40,50,60). *)
Definition example_rgb : camera_buffer_t := sample_frame 10.

Definition example_bgr : camera_buffer_t :=
  {| frametype := CAMERA_FRAMETYPE_BGR8888;
     framedesc := {| width := 2; height := 1; stride := 8 |};
     framebuf := [10; 20; 30; 99; 40; 50; 60; 99] |}.

(** A frame whose tag is none of the supported layouts. *)
Definition unsupported_frame : camera_buffer_t :=
  {| frametype := CAMERA_FRAMETYPE_OTHER 1;
     framedesc := {| width := 2; height := 1; stride := 8 |};
     framebuf := [10; 20; 30; 99; 40; 50; 60; 99] |}.

(** The descriptor of a 640x480 RGB8888 frame. *)
Definition vga_rgb : camera_buffer_t :=
  {| frametype := CAMERA_FRAMETYPE_RGB8888;
     framedesc := {| width := 640; height := 480; stride := 2560 |};
     framebuf := [] |}.

(** Seven deliveries that all succeed, with frames 1 to 7. *)
Definition seven_deliveries : list (Env * camera_buffer_t) :=
  (λ v, (env_ok, sample_frame v)) <$> [1; 2; 3; 4; 5; 6; 7].

(** Five deliveries that all succeed: the ring is full afterwards. *)
Definition five_deliveries : list (Env * camera_buffer_t) :=
  (λ v, (env_ok, sample_frame v)) <$> [1; 2; 3; 4; 5].

(** ** Reading a trace *)

(** Calls on shared memory: what the ring store and the two publishers
    issue. *)
Definition is_shm_event (e : event) : bool :=
  match e with
  | EvMunmap _ _ | EvShmUnlink _ | EvShmOpen _ _ | EvFtruncate _ _ _
  | EvMmap _ _ _ => true
  | _ => false
  end.

(** Steps of the encode-and-stream path. *)
Definition is_stream_event (e : event) : bool :=
  match e with
  | EvMalloc _ _ | EvCompress _ _ _ | EvSend _ => true
  | _ => false
  end.

(** The report of computed channel averages. *)
Definition is_stats_event (e : event) : bool :=
  match e with
  | EvPrintAverages _ _ _ => true
  | _ => false
  end.

(** The transport writes of a trace, in order: the bytes of each [send]. *)
Definition sends (ev : list event) : list (list Z) :=
  omap (λ e, match e with EvSend bytes => Some bytes | _ => None end) ev.

(** The buffers handed to the encoder, in order. *)
Definition encoded (ev : list event) : list (list Z * Z * Z) :=
  omap (λ e, match e with
             | EvCompress rgb_data w h => Some (rgb_data, w, h)
             | _ => None
             end) ev.

(** ** The latest-frame slot *)

(** As [env_ok], but [shm_open] of the latest-frame segment fails. *)
Definition env_latest_open_fails : Env :=
  {| ring_open_ok := true; ring_trunc_ok := true; ring_map_ok := true;
     latest_open_ok := false; latest_trunc_ok := true; latest_map_ok := true;
     name_open_ok := true; name_trunc_ok := true; name_map_ok := true;
     malloc_ok := true; big_endian := false;
     jpeg_codec := λ rgb _ _, Some rgb |}.

(** The latest-frame slot holds a publication: the global points at a
    mapping of the object that [/camera_latest] resolves to. *)
Definition latest_published (st : State) (o : nat) : Prop :=
  latest_mapped st = Map o
  ∧ shm_names (shm st) !! "/camera_latest"%string = Some o.

(** The latest-frame slot is absent: the global is [NULL] and the name does
    not resolve. *)
Definition latest_absent (st : State) : Prop :=
  latest_mapped st = NULL
  ∧ shm_names (shm st) !! "/camera_latest"%string = None.

(** ** The encode-and-stream path, as the specification words it *)

(** The gate: the tag is exactly RGB8888 and width and height are nonzero. *)
Definition stream_gate (b : camera_buffer_t) : Prop :=
  frametype b = CAMERA_FRAMETYPE_RGB8888
  ∧ width (framedesc b) ≠ 0
  ∧ height (framedesc b) ≠ 0.

(** The compressed image the sink obtains for a delivery: none when the
    gate is closed, when [malloc] fails, or when the codec leaves no
    buffer. *)
Definition jpeg_of (env : Env) (b : camera_buffer_t) : option (list Z) :=
  let w := width (framedesc b) in
  let h := height (framedesc b) in
  if bool_decide (frametype b = CAMERA_FRAMETYPE_RGB8888)
     && negb (w =? 0) && negb (h =? 0) && malloc_ok env
  then jpeg_codec env
         (pack_rgb (framebuf b) w h (stride (framedesc b))
            (replicate (Z.to_nat (u32 (u32 (w * h) * 3))) 0)) w h
  else None.

(** The number an 8-byte length prefix stands for. *)
Definition ulong_value (be : bool) (bytes : list Z) : Z :=
  foldr (λ byte acc, byte + 256 * acc) 0 (if be then reverse bytes else bytes).

(** What one delivery puts on the wire: nothing, or the length prefix
    followed by the compressed bytes. *)
Definition wire_of (d : Env * camera_buffer_t) : list Z :=
  match jpeg_of d.1 d.2 with
  | Some data => ulong_bytes (big_endian d.1) (Z.of_nat (length data)) ++ data
  | None => []
  end.

(** The pixels packed so far by the loops of [pack_rgb]: all rows before
    [y] and, in row [y], the columns before [x]. *)
Definition packed_upto (fb : list Z) (w s y x : Z) (n : nat) (rgb : list Z) : Prop :=
  length rgb = n
  ∧ ∀ y' x' c, 0 ≤ y' → 0 ≤ x' < w → 0 ≤ c < 3 →
      y' < y ∨ (y' = y ∧ x' < x) →
      rgb !! Z.to_nat ((y' * w + x') * 3 + c) = Some (rd fb (y' * s + x' * 4 + c)).

(** ** Sums for the statistics *)

(** [big_sum n f] is f 0 + f 1 + ... + f (n - 1). *)
Definition big_sum (n : Z) (f : Z → Z) : Z :=
  foldr (λ k acc, f (Z.of_nat k) + acc) 0 (seq 0 (Z.to_nat n)).

(** The sum over a frame of the bytes at offset [off + step * x] of every
    row, for the columns [x] below [n]; rows start at multiples of the
    stride. *)
Definition frame_sum (b : camera_buffer_t) (n step off : Z) : Z :=
  big_sum (height (framedesc b)) (λ y,
    big_sum n (λ x, rd (framebuf b) (y * stride (framedesc b) + step * x + off))).

(** The sum of the values that a loop of [n] iterations adds to channel
    [c], when iteration [i] adds [val i] to channel [chan i]. *)
Definition picked_sum (n : Z) (chan : Z → Z) (c : Z) (val : Z → Z) : Z :=
  big_sum n (λ i, if chan i =? c then val i else 0).

(** Three exact accumulators holding integers. *)
Definition qacc (s0 s1 s2 : Z) : list Q := [inject_Z s0; inject_Z s1; inject_Z s2].

(** The frames of the chroma example, 2x1: luma 10 and 30, Cb 200, Cr 100,
    in the byte order of each layout. *)
Definition example_ycbycr : camera_buffer_t :=
  {| frametype := CAMERA_FRAMETYPE_YCBYCR;
     framedesc := {| width := 2; height := 1; stride := 4 |};
     framebuf := [10; 200; 30; 100] |}.

Definition example_cbycry : camera_buffer_t :=
  {| frametype := CAMERA_FRAMETYPE_CBYCRY;
     framedesc := {| width := 2; height := 1; stride := 4 |};
     framebuf := [200; 10; 100; 30] |}.

(** A channel average as the specification words it: the sum of the
    channel's samples over the frame, divided by [divisor], as an exact
    quotient. *)
Definition channel_mean (b : camera_buffer_t) (n step off divisor : Z) : Q :=
  Qdiv (inject_Z (frame_sum b n step off)) (inject_Z divisor).


(** * The rest of the program *)

(** ** [main]: the start-up check of the camera's default layout *)

(** Lines 240-246: the search loop with its [break]; [supported] is the
    part of the array not yet compared.  The result is the final value of
    [unsupportedFrametype]. *)
Fixpoint unsupported_scan (frametype : camera_frametype_t)
    (supported : list camera_frametype_t) : bool :=
  match supported with
  | [] => true
  | candidate :: rest =>
      if decide (frametype = candidate) then false
      else unsupported_scan frametype rest
  end.

Definition unsupportedFrametype (frametype : camera_frametype_t) : bool :=
  unsupported_scan frametype cSupportedFrametypes.

(** ** [main]: releasing shared memory at exit *)

(** Lines 280-286: free the frame buffer, oldest frame first. *)
Definition free_frame_buffer (st : State) : Shm * list event :=
  for_loop (buffer_count st) (λ i acc,
    let idx := Z.rem (buffer_head st + i) MAX_FRAMES in
    let fr := frame_buffer st !!! Z.to_nat idx in
    (shm_unlink (f_shm_name fr) acc.1,
     acc.2 ++ [EvMunmap (f_mapped_data fr) (f_data_size fr);
               EvShmUnlink (f_shm_name fr)]))
    (shm st, []).

(** Lines 280-298: everything [main] releases in shared memory before it
    exits.  The metadata record is mapped for the whole run, so its branch
    is always taken; its [munmap] has no pointer in this model and is not
    traced, its [shm_unlink] is. *)
Definition release_shared_memory (st : State) : Shm * list event :=
  let '(s, ev) := free_frame_buffer st in
  let s := shm_unlink (Some "/camera_metadata"%string) s in
  let ev := ev ++ [EvShmUnlink (Some "/camera_metadata"%string)] in
  let '(s, ev) :=
    if decide (latest_mapped st = NULL) then (s, ev)
    else (shm_unlink (latest_shm_name st) s,
          ev ++ [EvMunmap (latest_mapped st) (latest_size st);
                 EvShmUnlink (latest_shm_name st)]) in
  (shm_unlink (Some "/camera_latest_name"%string) s,
   ev ++ [EvShmUnlink (Some "/camera_latest_name"%string)]).

(** ** [compress_to_jpeg]: the scanlines handed to the library *)

(** Lines 46-49.  Each call of [jpeg_write_scanlines] takes one row of
    [image_width * input_components] bytes at [row_pointer[0]] and advances
    [next_scanline] by one; the result lists the rows in the order they are
    handed over.  The index arithmetic is [unsigned int]. *)
Definition jpeg_scanlines (rgb_data : list Z) (width height : Z) : list (list Z) :=
  for_loop height (λ next_scanline rows,
    rows ++ [take (Z.to_nat (width * 3))
               (drop (Z.to_nat (u32 (u32 (next_scanline * width) * 3))) rgb_data)])
    [].

(** ** Names and objects along a run *)

(** The names under which the callback creates segments. *)
Definition known_name (n : string) : Prop :=
  n = "/camera_latest"%string
  ∨ n = "/camera_latest_name"%string
  ∨ ∃ i, 0 ≤ i < MAX_FRAMES ∧ n = frame_shm_name i.

(** What a reader outside the process can rely on: every live slot's
    segment resolves under the slot's name, nothing resolves under any
    other than the seven names, a published latest frame has its name
    recorded, and the slot after the newest frame is the number of frames
    pushed so far, modulo the capacity. *)
Record site_inv (st : State) (hist : list camera_buffer_t) : Prop := {
  site_live : ∀ k, 0 ≤ k < buffer_count st →
    ∃ o, f_mapped_data (slot st k) = Map o
         ∧ shm_names (shm st) !! frame_shm_name (ring_index st k) = Some o;
  site_known : ∀ n o, shm_names (shm st) !! n = Some o → known_name n;
  site_latest : latest_mapped st ≠ NULL →
                latest_shm_name st = Some "/camera_latest"%string;
  site_next : (buffer_head st + buffer_count st) mod MAX_FRAMES
              = Z.of_nat (length hist) mod MAX_FRAMES;
}.

(** No name resolves to object [o]. *)
Definition unresolvable (s : Shm) (o : nat) : Prop :=
  ∀ n, shm_names s !! n ≠ Some o.

(** Every system call of the callback on shared memory succeeds. *)
Definition all_ok (env : Env) : bool :=
  ring_open_ok env && ring_trunc_ok env && ring_map_ok env
  && latest_open_ok env && latest_trunc_ok env && latest_map_ok env
  && name_open_ok env && name_trunc_ok env && name_map_ok env.

(** Only segments in use resolve: a ring name resolves only for a live
    slot, and [/camera_latest] only while the global points at it. *)
Record tight (st : State) : Prop := {
  tight_ring : ∀ i, 0 ≤ i < MAX_FRAMES →
    is_Some (shm_names (shm st) !! frame_shm_name i) →
    ∃ k, 0 ≤ k < buffer_count st ∧ i = ring_index st k;
  tight_latest : is_Some (shm_names (shm st) !! "/camera_latest"%string) →
                 latest_mapped st ≠ NULL;
}.

(** The C string at the start of a byte buffer: the bytes before the first
    zero byte. *)
Fixpoint c_string (bytes : list Z) : list Z :=
  match bytes with
  | [] => []
  | byte :: rest => if byte =? 0 then [] else byte :: c_string rest
  end.

(** The events of a trace that are not calls on shared memory. *)
Definition later_stages (ev : list event) : list event :=
  filter (λ e, is_shm_event e = false) ev.

(** The last byte offset of the image plus one, for a layout of [bpp]
    bytes per pixel: the end of the last row. *)
Definition frame_extent (b : camera_buffer_t) (bpp : Z) : Z :=
  (height (framedesc b) - 1) * stride (framedesc b) + bpp * width (framedesc b).

(** ** [main]: from the command line to [exit] *)

(** What the platform contributes to one execution of [main]: whether the
    unit parsed from the command line is a camera unit (neither
    [CAMERA_UNIT_NONE] nor beyond [CAMERA_UNIT_NUM_UNITS]), whether each
    call succeeds, and the camera's default layout. *)
Record Startup : Type := {
  unit_valid : bool;
  camera_open_ok : bool;
  metadata_open_ok : bool;
  metadata_trunc_ok : bool;
  metadata_map_ok : bool;
  socket_ok : bool;
  connect_ok : bool;
  get_frametype_ok : bool;
  default_frametype : camera_frametype_t;
  start_viewfinder_ok : bool;
  stop_viewfinder_ok : bool;
  camera_close_ok : bool;
}.

Inductive exit_status : Type :=
  | EXIT_SUCCESS
  | EXIT_FAILURE.

(** The calls of [main] that leave the process, in program order.
    [Callbacks] stands for the deliveries the driver makes between
    [camera_start_viewfinder] and [camera_stop_viewfinder], [Release] for
    lines 280-298; [printf] is not traced. *)
Inductive main_call : Type :=
  | CallListAvailableCameras
  | CallCameraOpen (ok : bool)
  | CallCameraClose
  | CallShmOpenMetadata (ok : bool)
  | CallFtruncateMetadata (ok : bool)
  | CallMmapMetadata (ok : bool)
  | CallCloseMetadataFd
  | CallSocket (ok : bool)
  | CallConnect (ok : bool)
  | CallCloseSock
  | CallGetFrametype (ok : bool)
  | CallStartViewfinder (ok : bool)
  | Callbacks (ev : list event)
  | CallStopViewfinder (ok : bool)
  | Release (ev : list event).

(** How an execution of [main] ends: the status passed to [exit], whether
    [/camera_metadata] has been created and not unlinked, the segments of
    the callback, and the calls made. *)
Record Outcome : Type := {
  status : exit_status;
  metadata_linked : bool;
  segments : Shm;
  calls : list main_call;
}.

(** Lines 156-304.  The deliveries are those the driver makes while
    [blockOnKeyPress] waits. *)
Definition main (su : Startup) (deliveries : list (Env * camera_buffer_t)) : Outcome :=
  let none := shm initial_state in
  if negb (unit_valid su) then
    {| status := EXIT_SUCCESS; metadata_linked := false; segments := none;
       calls := [CallListAvailableCameras] |}
  else
  let c := [CallCameraOpen (camera_open_ok su)] in
  if negb (camera_open_ok su) then
    {| status := EXIT_FAILURE; metadata_linked := false; segments := none;
       calls := c |}
  else
  let c := c ++ [CallShmOpenMetadata (metadata_open_ok su)] in
  if negb (metadata_open_ok su) then
    {| status := EXIT_FAILURE; metadata_linked := false; segments := none;
       calls := c ++ [CallCameraClose] |}
  else
  let c := c ++ [CallFtruncateMetadata (metadata_trunc_ok su)] in
  if negb (metadata_trunc_ok su) then
    {| status := EXIT_FAILURE; metadata_linked := true; segments := none;
       calls := c ++ [CallCloseMetadataFd; CallCameraClose] |}
  else
  let c := c ++ [CallMmapMetadata (metadata_map_ok su)] in
  if negb (metadata_map_ok su) then
    {| status := EXIT_FAILURE; metadata_linked := true; segments := none;
       calls := c ++ [CallCloseMetadataFd; CallCameraClose] |}
  else
  let c := c ++ [CallCloseMetadataFd; CallSocket (socket_ok su)] in
  if negb (socket_ok su) then
    {| status := EXIT_FAILURE; metadata_linked := true; segments := none;
       calls := c ++ [CallCameraClose] |}
  else
  let c := c ++ [CallConnect (connect_ok su)] in
  if negb (connect_ok su) then
    {| status := EXIT_FAILURE; metadata_linked := true; segments := none;
       calls := c ++ [CallCloseSock; CallCameraClose] |}
  else
  let c := c ++ [CallGetFrametype (get_frametype_ok su)] in
  if negb (get_frametype_ok su) then
    {| status := EXIT_FAILURE; metadata_linked := true; segments := none;
       calls := c ++ [CallCameraClose] |}
  else
  if unsupportedFrametype (default_frametype su) then
    {| status := EXIT_FAILURE; metadata_linked := true; segments := none;
       calls := c ++ [CallCameraClose] |}
  else
  let c := c ++ [CallStartViewfinder (start_viewfinder_ok su)] in
  if negb (start_viewfinder_ok su) then
    {| status := EXIT_FAILURE; metadata_linked := true; segments := none;
       calls := c ++ [CallCameraClose] |}
  else
  let '(st, ev) := run deliveries initial_state in
  let c := c ++ [Callbacks ev; CallStopViewfinder (stop_viewfinder_ok su)] in
  if negb (stop_viewfinder_ok su) then
    {| status := EXIT_FAILURE; metadata_linked := true; segments := shm st;
       calls := c ++ [CallCameraClose] |}
  else
  let c := c ++ [CallCameraClose] in
  if negb (camera_close_ok su) then
    {| status := EXIT_FAILURE; metadata_linked := true; segments := shm st;
       calls := c |}
  else
  let '(s, rel) := release_shared_memory st in
  {| status := EXIT_SUCCESS; metadata_linked := false; segments := s;
     calls := c ++ [Release rel; CallCloseSock] |}.

(** Every step of [main] up to the release succeeds and the default layout
    is supported. *)
Definition runs_to_completion (su : Startup) : bool :=
  camera_open_ok su && metadata_open_ok su && metadata_trunc_ok su
  && metadata_map_ok su && socket_ok su && connect_ok su && get_frametype_ok su
  && negb (unsupportedFrametype (default_frametype su))
  && start_viewfinder_ok su && stop_viewfinder_ok su && camera_close_ok su.

Definition is_camera_close (c : main_call) : bool :=
  match c with CallCameraClose => true | _ => false end.

Definition is_callbacks (c : main_call) : bool :=
  match c with Callbacks _ => true | _ => false end.

Definition is_release (c : main_call) : bool :=
  match c with Release _ => true | _ => false end.

(** A startup in which everything succeeds, for an RGB8888 camera. *)
Definition startup_ok : Startup :=
  {| unit_valid := true; camera_open_ok := true; metadata_open_ok := true;
     metadata_trunc_ok := true; metadata_map_ok := true; socket_ok := true;
     connect_ok := true; get_frametype_ok := true;
     default_frametype := CAMERA_FRAMETYPE_RGB8888;
     start_viewfinder_ok := true; stop_viewfinder_ok := true;
     camera_close_ok := true |}.

(** As [startup_ok], but [camera_stop_viewfinder] fails. *)
Definition startup_stop_fails : Startup :=
  {| unit_valid := true; camera_open_ok := true; metadata_open_ok := true;
     metadata_trunc_ok := true; metadata_map_ok := true; socket_ok := true;
     connect_ok := true; get_frametype_ok := true;
     default_frametype := CAMERA_FRAMETYPE_RGB8888;
     start_viewfinder_ok := true; stop_viewfinder_ok := false;
     camera_close_ok := true |}.

(** * Pixel layout decoder *)

Lemma u64_small (x : Z) : 0 ≤ x < 2 ^ 64 → u64 x = x.
Proof. intros Hx. unfold u64. by apply Z.mod_small. Qed.

Lemma u32_small (x : Z) : 0 ≤ x < 2 ^ 32 → u32 x = x.
Proof. intros Hx. unfold u32. by apply Z.mod_small. Qed.

Lemma supported_cases (ft : camera_frametype_t) :
  ft ∈ cSupportedFrametypes
  ↔ ft = CAMERA_FRAMETYPE_YCBYCR ∨ ft = CAMERA_FRAMETYPE_CBYCRY
    ∨ ft = CAMERA_FRAMETYPE_RGB8888 ∨ ft = CAMERA_FRAMETYPE_BGR8888.
Proof.
  unfold cSupportedFrametypes.
  rewrite !elem_of_cons, elem_of_nil. tauto.
Qed.

Lemma spec_byte_size_cases (b : camera_buffer_t) :
  (packed4 (frametype b) →
     spec_byte_size b = width (framedesc b) * height (framedesc b) * 4)
  ∧ (chroma2 (frametype b) →
     spec_byte_size b = width (framedesc b) * height (framedesc b) * 2)
  ∧ (frametype b ∉ cSupportedFrametypes → spec_byte_size b = 0).
Proof.
  unfold spec_byte_size, packed4, chroma2.
  repeat split.
  - intros [-> | ->]; reflexivity.
  - intros [-> | ->]; reflexivity.
  - intros Hn. destruct (frametype b); try reflexivity; exfalso;
      apply Hn, supported_cases; auto.
Qed.

Lemma unsupported_frame_size (b : camera_buffer_t) :
  frametype b ∉ cSupportedFrametypes → get_frame_size b = 0.
Proof.
  unfold get_frame_size. intros Hn.
  destruct (frametype b); try reflexivity; exfalso;
    apply Hn, supported_cases; auto.
Qed.

(** C8. For every frame descriptor whose byte count fits [size_t],
    [get_frame_size] returns width*height*4 for the two packed 4-byte
    layouts, width*height*2 for the two chroma-subsampled layouts, and 0
    for every other tag. *)
Theorem get_frame_size_formula (b : camera_buffer_t) :
  wf_buffer b → spec_byte_size b < 2 ^ 64 →
  (packed4 (frametype b) →
     get_frame_size b = width (framedesc b) * height (framedesc b) * 4)
  ∧ (chroma2 (frametype b) →
     get_frame_size b = width (framedesc b) * height (framedesc b) * 2)
  ∧ (frametype b ∉ cSupportedFrametypes → get_frame_size b = 0).
Proof.
  intros (Hw & Hh & _) Hfit.
  assert (Hwh : 0 ≤ width (framedesc b) * height (framedesc b)) by nia.
  split; [|split].
  - intros Hp. destruct (spec_byte_size_cases b) as (Hs & _ & _).
    rewrite (Hs Hp) in Hfit.
    unfold get_frame_size. destruct Hp as [-> | ->];
      rewrite (u64_small (width _ * height _)) by lia; apply u64_small; lia.
  - intros Hc. destruct (spec_byte_size_cases b) as (_ & Hs & _).
    rewrite (Hs Hc) in Hfit.
    unfold get_frame_size. destruct Hc as [-> | ->];
      rewrite (u64_small (width _ * height _)) by lia; apply u64_small; lia.
  - apply unsupported_frame_size.
Qed.

Lemma get_frame_size_formula_witness :
  get_frame_size vga_rgb = 640 * 480 * 4.
Proof.
  refine (proj1 (get_frame_size_formula vga_rgb _ _) _).
  - unfold wf_buffer; simpl; lia.
  - reflexivity.
  - left; reflexivity.
Defined.

(** * Shared-memory steps *)

Lemma shm_ext_refl (name : string) (s : Shm) : shm_ext name s s.
Proof. split; auto. Qed.

Lemma shm_ext_trans (name : string) (s1 s2 s3 : Shm) :
  shm_ext name s1 s2 → shm_ext name s2 s3 → shm_ext name s1 s3.
Proof.
  intros [L1 N1 O1 B1] [L2 N2 O2 B2]. split.
  - lia.
  - intros n Hn. rewrite N2, N1; auto.
  - intros o Ho Hne. rewrite O2, O1; auto; try lia.
    destruct B1 as [B1 | [B1 | (o' & B1 & Hr)]]; rewrite B1; try done.
    intros [= ->]. lia.
  - destruct B2 as [B2 | [B2 | (o' & B2 & Hr)]].
    + by left.
    + rewrite B2. destruct B1 as [B1 | [B1 | (o' & B1 & Hr)]]; auto.
      right; right. exists o'. split; [done | lia].
    + right; right. exists o'. split; [done | lia].
Qed.

Lemma shm_unlink_ext (name : string) (s : Shm) :
  shm_ext name s (shm_unlink (Some name) s).
Proof.
  split; simpl; auto.
  - intros n Hn. by rewrite lookup_delete_ne.
  - left. apply lookup_delete_eq.
Qed.

Lemma shm_open_ext (name : string) (ok : bool) (s : Shm) :
  shm_ext name s (shm_open name ok s).2.
Proof.
  unfold shm_open. destruct ok; [|apply shm_ext_refl].
  destruct (shm_names s !! name) as [o|] eqn:Hn; [apply shm_ext_refl|].
  split; simpl.
  - rewrite length_app. lia.
  - intros n Hne. by rewrite lookup_insert_ne.
  - intros o Ho _. by rewrite lookup_app_l.
  - right; right. exists (length (shm_objs s)).
    rewrite lookup_insert_eq, length_app. simpl. split; [done | lia].
Qed.

Lemma shm_open_fail (name : string) (s : Shm) :
  shm_open name false s = (None, s).
Proof. reflexivity. Qed.

Lemma shm_open_ok (name : string) (s : Shm) :
  ∃ fd, shm_open name true s = (Some fd, (shm_open name true s).2)
        ∧ shm_names (shm_open name true s).2 !! name = Some fd.
Proof.
  unfold shm_open. destruct (shm_names s !! name) as [o|] eqn:Hn; simpl.
  - by exists o.
  - exists (length (shm_objs s)). by rewrite lookup_insert_eq.
Qed.

Lemma ftruncate_ext (name : string) (fd : nat) (len : Z) (ok : bool) (s : Shm) :
  shm_names s !! name = Some fd → shm_ext name s (ftruncate fd len ok s).
Proof.
  intros Hfd. unfold ftruncate. destruct ok; [|apply shm_ext_refl].
  split; simpl; auto.
  - by rewrite length_alter.
  - intros o _ Hne. apply list_lookup_alter_ne. congruence.
Qed.

Lemma memcpy_ext (name : string) (fd : nat) (src : list Z) (n : Z) (s : Shm) :
  shm_names s !! name = Some fd → shm_ext name s (memcpy (Map fd) src n s).
Proof.
  intros Hfd. split; simpl; auto.
  - by rewrite length_alter.
  - intros o _ Hne. apply list_lookup_alter_ne. congruence.
Qed.

(** After a successful [ftruncate] and [memcpy] of [n] bytes, the object
    holds exactly the [n] bytes copied. *)
Lemma truncate_copy_bytes (fd : nat) (src : list Z) (n : Z) (s : Shm) :
  (fd < length (shm_objs s))%nat →
  shm_objs (memcpy (Map fd) src n (ftruncate fd n true s)) !! fd
  = Some (resize (Z.to_nat n) 0 src).
Proof.
  intros Hfd. simpl.
  destruct (lookup_lt_is_Some_2 (shm_objs s) fd Hfd) as [old Hold].
  rewrite !list_lookup_alter_eq, Hold. simpl.
  rewrite drop_ge, app_nil_r; [done|]. by rewrite length_resize.
Qed.

(** * The frame store *)

Lemma rem_MAX_FRAMES (x : Z) : 0 ≤ x → Z.rem x MAX_FRAMES = x mod MAX_FRAMES.
Proof. intros Hx. apply Z.rem_mod_nonneg; [done | reflexivity]. Qed.

Lemma ring_index_range (st : State) (k : Z) : 0 ≤ ring_index st k < 5.
Proof. unfold ring_index, MAX_FRAMES. apply Z.mod_pos_bound. lia. Qed.

Lemma ring_index_inj (st : State) (k1 k2 : Z) :
  0 ≤ k1 < 5 → 0 ≤ k2 < 5 → ring_index st k1 = ring_index st k2 → k1 = k2.
Proof.
  unfold ring_index, MAX_FRAMES. intros H1 H2 He.
  pose proof (Z.div_mod (buffer_head st + k1) 5 ltac:(lia)).
  pose proof (Z.div_mod (buffer_head st + k2) 5 ltac:(lia)).
  pose proof (Z.mod_pos_bound (buffer_head st + k1) 5 ltac:(lia)).
  lia.
Qed.

Lemma ring_index_0 (st : State) :
  0 ≤ buffer_head st < MAX_FRAMES → ring_index st 0 = buffer_head st.
Proof.
  intros Hh. unfold ring_index. rewrite Z.add_0_r. by apply Z.mod_small.
Qed.

Lemma small_index_cases (i : Z) :
  0 ≤ i < 5 → i = 0 ∨ i = 1 ∨ i = 2 ∨ i = 3 ∨ i = 4.
Proof. lia. Qed.

Lemma frame_shm_name_inj (i j : Z) :
  0 ≤ i < 5 → 0 ≤ j < 5 → frame_shm_name i = frame_shm_name j → i = j.
Proof.
  intros Hi Hj.
  destruct (small_index_cases i Hi) as [-> | [-> | [-> | [-> | ->]]]];
    destruct (small_index_cases j Hj) as [-> | [-> | [-> | [-> | ->]]]];
    vm_compute; congruence.
Qed.

Lemma frame_shm_name_not_latest (i : Z) :
  0 ≤ i < 5 →
  frame_shm_name i ≠ "/camera_latest"%string
  ∧ frame_shm_name i ≠ "/camera_latest_name"%string.
Proof.
  intros Hi.
  destruct (small_index_cases i Hi) as [-> | [-> | [-> | [-> | ->]]]];
    vm_compute; split; congruence.
Qed.

(** A step that touches shared memory only under a name no live slot
    carries keeps the invariant. *)
Lemma store_inv_shm_ext (st : State) (hist : list camera_buffer_t)
    (name : string) (s' : Shm) :
  store_inv st hist → shm_ext name (shm st) s' →
  (∀ k, 0 ≤ k < buffer_count st → frame_shm_name (ring_index st k) ≠ name) →
  store_inv (set_shm s' st) hist.
Proof.
  intros [Hlen Hhead Hcount Hhist Hbound Hinj Hlat Hslot] [EL EN EO EB] Hfree.
  split; simpl; auto.
  - intros n o Hn. destruct (decide (n = name)) as [-> | Hne].
    + destruct EB as [EB | [EB | (o' & EB & Hr)]]; rewrite EB in Hn.
      * done.
      * apply Hbound in Hn. lia.
      * injection Hn as <-. lia.
    + rewrite EN in Hn by done. apply Hbound in Hn. lia.
  - assert (Hone : ∀ n o, n ≠ name → shm_names s' !! n = Some o →
                           shm_names s' !! name = Some o → n = name).
    { intros n o Hne Hn Hname. rewrite EN in Hn by done.
      destruct EB as [EB | [EB | (o' & EB & Hr)]]; rewrite EB in Hname.
      - done.
      - symmetry. eapply Hinj; eauto.
      - injection Hname as ->. apply Hbound in Hn. lia. }
    intros n1 n2 o H1 H2.
    destruct (decide (n1 = name)) as [-> | Hne1];
      destruct (decide (n2 = name)) as [-> | Hne2]; auto.
    + symmetry. eauto.
    + eauto.
    + rewrite EN in H1, H2 by done. eauto.
  - intros k Hk. destruct (Hslot k Hk) as (o & b & Hb & Hholds & Hmap & Hname & Hown).
    assert (Hlt : (o < length (shm_objs (shm st)))%nat).
    { destruct Hholds as (_ & _ & _ & Hbytes). rewrite Hmap in Hbytes.
      simpl in Hbytes. by apply lookup_lt_Some in Hbytes. }
    assert (Hnot : shm_names (shm st) !! name ≠ Some o).
    { intros Hres. apply (Hfree k Hk). symmetry. by apply Hown. }
    change (slot (set_shm s' st) k) with (slot st k).
    change (ring_index (set_shm s' st) k) with (ring_index st k).
    exists o, b. repeat split; auto; try apply Hholds.
    + destruct Hholds as (_ & _ & _ & Hbytes).
      rewrite Hmap in *. simpl in *. rewrite EO; auto.
    + intros n Hn. destruct (decide (n = name)) as [-> | Hne].
      * destruct EB as [EB | [EB | (o' & EB & Hr)]]; rewrite EB in Hn.
        -- done.
        -- done.
        -- injection Hn as ->. lia.
      * rewrite EN in Hn by done. by apply Hown.
Qed.

Lemma evict_oldest_not_full (st : State) :
  buffer_count st ≠ MAX_FRAMES → evict_oldest st = (st, []).
Proof.
  intros Hne. unfold evict_oldest.
  destruct (Z.eqb_spec (buffer_count st) MAX_FRAMES); [done | reflexivity].
Qed.

Lemma evict_oldest_full (st : State) :
  0 ≤ buffer_head st < MAX_FRAMES → buffer_count st = MAX_FRAMES →
  evict_oldest st =
    (set_shm (shm_unlink (f_shm_name (slot st 0)) (shm st))
       (set_ring (frame_buffer st) (Z.rem (buffer_head st + 1) MAX_FRAMES)
                 (buffer_count st - 1) st),
     [EvMunmap (f_mapped_data (slot st 0)) (f_data_size (slot st 0));
      EvShmUnlink (f_shm_name (slot st 0))]).
Proof.
  intros Hh Hfull. unfold evict_oldest, slot. rewrite (ring_index_0 st Hh).
  destruct (Z.eqb_spec (buffer_count st) MAX_FRAMES); [reflexivity | done].
Qed.

Lemma ring_advance (head k : Z) :
  0 ≤ head →
  (Z.rem (head + 1) MAX_FRAMES + k) mod MAX_FRAMES = (head + (k + 1)) mod MAX_FRAMES.
Proof.
  intros Hh. rewrite rem_MAX_FRAMES by lia.
  rewrite Z.add_mod_idemp_l by done. f_equal. lia.
Qed.

(** Advancing the head of a full ring drops the oldest frame and keeps
    the others in order. *)
Lemma store_inv_advance (st : State) (hist : list camera_buffer_t) :
  store_inv st hist → buffer_count st = MAX_FRAMES →
  store_inv (set_ring (frame_buffer st) (Z.rem (buffer_head st + 1) MAX_FRAMES)
                      (buffer_count st - 1) st) hist.
Proof.
  intros [Hlen Hhead Hcount Hhist Hbound Hinj Hlat Hslot] Hfull.
  split; simpl; auto.
  - rewrite rem_MAX_FRAMES by lia. apply Z.mod_pos_bound. done.
  - lia.
  - lia.
  - intros k Hk. destruct (Hslot (k + 1) ltac:(lia)) as (o & b & Hb & Hrest).
    exists o, b.
    unfold slot, ring_index in *. simpl. rewrite ring_advance by lia.
    split; [|exact Hrest].
    rewrite <- Hb. f_equal. lia.
Qed.

Lemma store_inv_evict (st : State) (hist : list camera_buffer_t) :
  store_inv st hist →
  store_inv (evict_oldest st).1 hist ∧ buffer_count (evict_oldest st).1 < MAX_FRAMES.
Proof.
  intros Hinv.
  destruct (decide (buffer_count st = MAX_FRAMES)) as [Hfull | Hnot].
  - rewrite (evict_oldest_full st (inv_head _ _ Hinv) Hfull).
    simpl. split; [|lia].
    pose proof (store_inv_advance st hist Hinv Hfull) as Hadv.
    destruct (inv_slot _ _ Hinv 0 ltac:(destruct Hinv; lia))
      as (o & b & _ & _ & _ & Hname & _).
    rewrite Hname.
    apply (store_inv_shm_ext _ hist (frame_shm_name (ring_index st 0))); auto.
    + apply shm_unlink_ext.
    + simpl. intros k Hk Heq.
      apply frame_shm_name_inj in Heq; try apply ring_index_range.
      unfold ring_index in Heq. simpl in Heq.
      rewrite ring_advance in Heq by (destruct Hinv; lia).
      apply (ring_index_inj st (k + 1) 0) in Heq; unfold MAX_FRAMES in *; lia.
  - rewrite evict_oldest_not_full by done. simpl. split; [done|].
    destruct Hinv. lia.
Qed.

(** Filling the free slot behind the newest frame appends to the ring. *)
Lemma store_inv_push (st : State) (hist : list camera_buffer_t)
    (b : camera_buffer_t) (fd : nat) (nm : option string) :
  store_inv st hist → buffer_count st < MAX_FRAMES →
  shm_names (shm st) !! frame_shm_name (ring_index st (buffer_count st)) = Some fd →
  shm_objs (shm st) !! fd = Some (frame_bytes b) →
  nm = Some (frame_shm_name (ring_index st (buffer_count st))) →
  store_inv
    (set_ring (<[Z.to_nat (ring_index st (buffer_count st)) :=
                  {| f_frametype := frametype b; f_framedesc := framedesc b;
                     f_shm_name := nm; f_mapped_data := Map fd;
                     f_data_size := get_frame_size b |}]> (frame_buffer st))
              (buffer_head st) (buffer_count st + 1) st)
    (hist ++ [b]).
Proof.
  intros [Hlen Hhead Hcount Hhist Hbound Hinj Hlat Hslot] Hroom Hfd Hbytes ->.
  pose proof (ring_index_range st (buffer_count st)) as Hidx.
  split; simpl; auto.
  - by rewrite length_insert.
  - unfold MAX_FRAMES in *. lia.
  - rewrite length_app. simpl. lia.
  - intros k Hk. unfold slot, ring_index. simpl.
    fold (ring_index st k). fold (ring_index st (buffer_count st)).
    rewrite length_app. simpl.
    destruct (decide (k = buffer_count st)) as [-> | Hne].
    + exists fd, b.
      rewrite list_lookup_total_insert_eq by (rewrite Hlen; lia). simpl.
      repeat split; auto.
      * replace (Z.to_nat _) with (length hist + 0)%nat by lia.
        by rewrite lookup_app_r, Nat.add_comm, Nat.add_sub by lia.
      * intros n Hn. eauto.
    + destruct (Hslot k ltac:(lia)) as (o & b' & Hb' & Hholds & Hmap & Hname & Hown).
      exists o, b'.
      rewrite list_lookup_total_insert_ne.
      2:{ intros Heq. apply Z2Nat.inj in Heq; try lia;
            [|pose proof (ring_index_range st k); lia].
          apply ring_index_inj in Heq; unfold MAX_FRAMES in *; lia. }
      fold (slot st k). repeat split; auto; try apply Hholds.
      rewrite lookup_app_l.
      * rewrite <- Hb'. f_equal. lia.
      * apply lookup_lt_Some in Hb'. lia.
Qed.

Local Opaque shm_open ftruncate memcpy.

(** The ring store keeps the invariant; the history grows by the frame
    exactly when every step of the store succeeds. *)
Lemma store_frame_inv (env : Env) (b : camera_buffer_t) (st : State)
    (hist : list camera_buffer_t) :
  store_inv st hist →
  store_inv (store_frame env b (get_frame_size b) st).1
            (if stores env then hist ++ [b] else hist).
Proof.
  intros Hinv0. unfold store_frame, stores.
  destruct (store_inv_evict st hist Hinv0) as [Hinv Hroom].
  destruct (evict_oldest st) as [st1 ev]. simpl in Hinv, Hroom.
  assert (Hidx : Z.rem (buffer_head st1 + buffer_count st1) MAX_FRAMES
                 = ring_index st1 (buffer_count st1)).
  { apply rem_MAX_FRAMES. destruct Hinv. lia. }
  rewrite Hidx.
  set (name := frame_shm_name (ring_index st1 (buffer_count st1))).
  assert (Hfree : ∀ k, 0 ≤ k < buffer_count st1 →
                    frame_shm_name (ring_index st1 k) ≠ name).
  { intros k Hk Heq. apply frame_shm_name_inj in Heq; try apply ring_index_range.
    apply ring_index_inj in Heq; destruct Hinv; unfold MAX_FRAMES in *; lia. }
  assert (Hkeep : ∀ s', shm_ext name (shm st1) s' → store_inv (set_shm s' st1) hist).
  { intros s' Hext. by apply (store_inv_shm_ext st1 hist name). }
  destruct (ring_open_ok env) eqn:Hopen; simpl.
  2:{ rewrite shm_open_fail. apply Hkeep, shm_ext_refl. }
  destruct (shm_open_ok name (shm st1)) as (fd & Heq & Hfd). rewrite Heq.
  pose proof (shm_open_ext name true (shm st1)) as Hext1.
  set (s1 := (shm_open name true (shm st1)).2) in *.
  destruct (ring_trunc_ok env) eqn:Htr; simpl.
  2:{ by apply Hkeep. }
  assert (Hext2 : shm_ext name (shm st1) (ftruncate fd (get_frame_size b) true s1)).
  { eapply shm_ext_trans; [exact Hext1|]. by apply ftruncate_ext. }
  destruct (ring_map_ok env) eqn:Hmap; simpl.
  2:{ by apply Hkeep. }
  set (s3 := memcpy (Map fd) (framebuf b) (get_frame_size b)
                    (ftruncate fd (get_frame_size b) true s1)).
  assert (Hext3 : shm_ext name (shm st1) s3).
  { eapply shm_ext_trans; [exact Hext2|]. by apply memcpy_ext. }
  pose proof (Hkeep s3 Hext3) as Hinv3.
  apply (store_inv_push (set_shm s3 st1) hist b fd); auto.
  apply truncate_copy_bytes.
  apply (inv_bound _ _ (Hkeep s1 Hext1) name). exact Hfd.
Qed.

(** A block that leaves the ring's own fields alone and touches shared
    memory only under a name no live slot carries keeps the invariant. *)
Lemma store_inv_frame (st st' : State) (hist : list camera_buffer_t)
    (name : string) :
  store_inv st hist →
  frame_buffer st' = frame_buffer st →
  buffer_head st' = buffer_head st →
  buffer_count st' = buffer_count st →
  latest_shm_name st' = None ∨ latest_shm_name st' = Some "/camera_latest"%string →
  shm_ext name (shm st) (shm st') →
  (∀ i, 0 ≤ i < 5 → frame_shm_name i ≠ name) →
  store_inv st' hist.
Proof.
  intros Hinv Hfb Hh Hc Hlat Hext Hfree.
  assert (Hmid : store_inv (set_shm (shm st') st) hist).
  { apply (store_inv_shm_ext st hist name); auto.
    intros k _. apply Hfree, ring_index_range. }
  destruct Hmid as [Hlen Hhead Hcount Hhist Hbound Hinj _ Hslot].
  unfold slot, ring_index in Hslot. simpl in *.
  split; unfold slot, ring_index; rewrite ?Hfb, ?Hh, ?Hc; auto.
Qed.

Lemma update_latest_frame (env : Env) (b : camera_buffer_t) (st : State) :
  frame_buffer (update_latest env b st).1 = frame_buffer st
  ∧ buffer_head (update_latest env b st).1 = buffer_head st
  ∧ buffer_count (update_latest env b st).1 = buffer_count st
  ∧ metadata_mapped (update_latest env b st).1 = metadata_mapped st
  ∧ latest_shm_name (update_latest env b st).1 = Some "/camera_latest"%string
  ∧ (latest_shm_name st = None ∨ latest_shm_name st = Some "/camera_latest"%string →
     shm_ext "/camera_latest" (shm st) (shm (update_latest env b st).1)).
Proof.
  unfold update_latest.
  set (name := "/camera_latest"%string).
  assert (Hs0 : latest_shm_name st = None ∨ latest_shm_name st = Some name →
                shm_ext name (shm st)
                  (if decide (latest_mapped st = NULL) then (shm st, [])
                   else (shm_unlink (latest_shm_name st) (shm st),
                         [EvMunmap (latest_mapped st) (latest_size st);
                          EvShmUnlink (latest_shm_name st)])).1).
  { intros Hlat. destruct (decide (latest_mapped st = NULL)); simpl.
    - apply shm_ext_refl.
    - destruct Hlat as [-> | ->]; [apply shm_ext_refl | apply shm_unlink_ext]. }
  destruct (if decide (latest_mapped st = NULL) then _ else _) as [s0 ev].
  simpl in Hs0.
  destruct (latest_open_ok env) eqn:Hopen.
  2:{ rewrite shm_open_fail. simpl. split_and!; auto. }
  destruct (shm_open_ok name s0) as (fd & Heq & Hfd). rewrite Heq.
  pose proof (shm_open_ext name true s0) as Hext1.
  set (s1 := (shm_open name true s0).2) in *.
  pose proof (ftruncate_ext name fd (get_frame_size b) true s1 Hfd) as Hext2.
  pose proof (memcpy_ext name fd (framebuf b) (get_frame_size b)
                (ftruncate fd (get_frame_size b) true s1) Hfd) as Hext3.
  destruct (latest_trunc_ok env) eqn:Htr.
  2:{ simpl. split_and!; auto. intros Hlat.
      eapply shm_ext_trans; [by apply Hs0 | exact Hext1]. }
  destruct (latest_map_ok env) eqn:Hmap; simpl; split_and!; auto; intros Hlat.
  - eapply shm_ext_trans; [by apply Hs0|].
    eapply shm_ext_trans; [exact Hext1|].
    eapply shm_ext_trans; [exact Hext2 | exact Hext3].
  - eapply shm_ext_trans; [by apply Hs0|].
    eapply shm_ext_trans; [exact Hext1 | exact Hext2].
Qed.

Lemma update_latest_name_frame (env : Env) (st : State) :
  frame_buffer (update_latest_name env st).1 = frame_buffer st
  ∧ buffer_head (update_latest_name env st).1 = buffer_head st
  ∧ buffer_count (update_latest_name env st).1 = buffer_count st
  ∧ metadata_mapped (update_latest_name env st).1 = metadata_mapped st
  ∧ latest_shm_name (update_latest_name env st).1 = latest_shm_name st
  ∧ latest_mapped (update_latest_name env st).1 = latest_mapped st
  ∧ shm_ext "/camera_latest_name" (shm st) (shm (update_latest_name env st).1).
Proof.
  unfold update_latest_name.
  set (name := "/camera_latest_name"%string).
  destruct (name_open_ok env) eqn:Hopen.
  2:{ rewrite shm_open_fail. simpl. split_and!; auto. apply shm_ext_refl. }
  destruct (shm_open_ok name (shm st)) as (fd & Heq & Hfd). rewrite Heq.
  pose proof (shm_open_ext name true (shm st)) as Hext1.
  set (s1 := (shm_open name true (shm st)).2) in *.
  pose proof (ftruncate_ext name fd 256 true s1 Hfd) as Hext2.
  pose proof (memcpy_ext name fd (string_bytes "/camera_latest") 256
                (ftruncate fd 256 true s1) Hfd) as Hext3.
  destruct (name_trunc_ok env) eqn:Htr.
  2:{ simpl. split_and!; auto. }
  destruct (name_map_ok env) eqn:Hmap; simpl; split_and!; auto.
  - eapply shm_ext_trans; [exact Hext1|].
    eapply shm_ext_trans; [exact Hext2 | exact Hext3].
  - eapply shm_ext_trans; [exact Hext1 | exact Hext2].
Qed.

Local Transparent shm_open ftruncate memcpy.

(** One callback keeps the invariant of the frame store. *)
Lemma processCameraData_inv (env : Env) (b : camera_buffer_t) (st : State)
    (hist : list camera_buffer_t) :
  store_inv st hist →
  store_inv (processCameraData env b st).1
            (if stores env then hist ++ [b] else hist).
Proof.
  intros Hinv. unfold processCameraData.
  pose proof (store_frame_inv env b st hist Hinv) as H1.
  destruct (store_frame env b (get_frame_size b) st) as [st1 ev1]. simpl in H1.
  destruct (update_latest_frame env b st1) as (F1 & F2 & F3 & _ & F5 & F6).
  destruct (update_latest env b st1) as [st2 ev2]. simpl in *.
  destruct (update_latest_name_frame env (update_metadata b (get_frame_size b) st2))
    as (G1 & G2 & G3 & _ & G5 & _ & G7).
  destruct (update_latest_name env _) as [st4 ev4]. simpl in *.
  assert (Hmd : ∀ st0, update_metadata b (get_frame_size b) st0
                       = set_metadata (metadata_mapped (update_metadata b (get_frame_size b) st0)) st0).
  { intros st0. unfold update_metadata. by destruct (frametype b). }
  rewrite Hmd in G1, G2, G3, G5, G7. simpl in *.
  assert (H2 : store_inv st2 (if stores env then hist ++ [b] else hist)).
  { apply (store_inv_frame st1 st2 _ "/camera_latest").
    - exact H1.
    - exact F1.
    - exact F2.
    - exact F3.
    - by right.
    - apply F6, (inv_latest _ _ H1).
    - intros i Hi. by apply frame_shm_name_not_latest. }
  apply (store_inv_frame st2 st4 _ "/camera_latest_name").
  - exact H2.
  - exact G1.
  - exact G2.
  - exact G3.
  - rewrite G5. by right.
  - exact G7.
  - intros i Hi. by apply frame_shm_name_not_latest.
Qed.

Lemma initial_state_inv : store_inv initial_state [].
Proof.
  split; simpl; auto; try (unfold MAX_FRAMES; lia).
  - intros n o Hn. by rewrite lookup_empty in Hn.
  - intros n1 n2 o Hn. by rewrite lookup_empty in Hn.
Qed.

Lemma pushed_app (ds1 ds2 : list (Env * camera_buffer_t)) :
  pushed (ds1 ++ ds2) = pushed ds1 ++ pushed ds2.
Proof.
  induction ds1 as [|[env b] ds1 IH]; simpl; [done|].
  destruct (stores env); simpl; by rewrite IH.
Qed.

Lemma run_inv (ds : list (Env * camera_buffer_t)) (st : State)
    (hist : list camera_buffer_t) :
  store_inv st hist → store_inv (run ds st).1 (hist ++ pushed ds).
Proof.
  revert st hist. induction ds as [|[env b] ds IH]; intros st hist Hinv; simpl.
  - by rewrite app_nil_r.
  - pose proof (processCameraData_inv env b st hist Hinv) as H1.
    destruct (processCameraData env b st) as [st1 ev1]. simpl in H1.
    specialize (IH st1 _ H1).
    destruct (run ds st1) as [st2 ev2]. simpl in *.
    destruct (stores env); [|done].
    by rewrite <- app_assoc in IH.
Qed.

(** Every state the callback can reach satisfies the invariant, with the
    frames whose store succeeded as history. *)
Lemma reachable_inv (ds : list (Env * camera_buffer_t)) :
  store_inv (run ds initial_state).1 (pushed ds).
Proof. apply (run_inv ds initial_state []), initial_state_inv. Qed.

Local Opaque shm_open ftruncate memcpy.

Lemma store_frame_ring (env : Env) (b : camera_buffer_t) (size : Z) (st : State) :
  buffer_head (store_frame env b size st).1
  = (if buffer_count st =? MAX_FRAMES
     then Z.rem (buffer_head st + 1) MAX_FRAMES else buffer_head st)
  ∧ buffer_count (store_frame env b size st).1
    = (if buffer_count st =? MAX_FRAMES then buffer_count st - 1 else buffer_count st)
      + (if stores env then 1 else 0)
  ∧ (stores env = false →
     frame_buffer (store_frame env b size st).1 = frame_buffer st).
Proof.
  unfold store_frame, stores.
  assert (He : buffer_head (evict_oldest st).1
               = (if buffer_count st =? MAX_FRAMES
                  then Z.rem (buffer_head st + 1) MAX_FRAMES else buffer_head st)
               ∧ buffer_count (evict_oldest st).1
                 = (if buffer_count st =? MAX_FRAMES
                    then buffer_count st - 1 else buffer_count st)
               ∧ frame_buffer (evict_oldest st).1 = frame_buffer st).
  { unfold evict_oldest. by destruct (buffer_count st =? MAX_FRAMES). }
  destruct (evict_oldest st) as [st1 ev]. simpl in He.
  destruct He as (<- & <- & <-).
  destruct (ring_open_ok env).
  2:{ rewrite shm_open_fail. simpl. split_and!; [done | lia | done]. }
  match goal with |- context [shm_open ?n true ?s] =>
    destruct (shm_open_ok n s) as (fd & -> & _) end.
  destruct (ring_trunc_ok env); simpl.
  2:{ split_and!; [done | lia | done]. }
  destruct (ring_map_ok env); simpl; split_and!; done || lia.
Qed.

Local Transparent shm_open ftruncate memcpy.

Lemma processCameraData_ring (env : Env) (b : camera_buffer_t) (st : State) :
  buffer_head (processCameraData env b st).1
  = buffer_head (store_frame env b (get_frame_size b) st).1
  ∧ buffer_count (processCameraData env b st).1
    = buffer_count (store_frame env b (get_frame_size b) st).1
  ∧ frame_buffer (processCameraData env b st).1
    = frame_buffer (store_frame env b (get_frame_size b) st).1.
Proof.
  unfold processCameraData.
  destruct (store_frame env b (get_frame_size b) st) as [st1 ev1].
  destruct (update_latest_frame env b st1) as (F1 & F2 & F3 & _).
  destruct (update_latest env b st1) as [st2 ev2]. simpl in *.
  destruct (update_latest_name_frame env (update_metadata b (get_frame_size b) st2))
    as (G1 & G2 & G3 & _).
  destruct (update_latest_name env _) as [st4 ev4]. simpl in *.
  rewrite G1, G2, G3. unfold update_metadata.
  destruct (frametype b); simpl; auto.
Qed.

(** When every store succeeds the ring fills up and then stays full. *)
Lemma run_count (ds : list (Env * camera_buffer_t)) (st : State) :
  Forall (λ d, stores d.1 = true) ds →
  0 ≤ buffer_count st ≤ MAX_FRAMES →
  buffer_count (run ds st).1
  = Z.min (buffer_count st + Z.of_nat (length ds)) MAX_FRAMES.
Proof.
  intros Hall. revert st.
  induction Hall as [|[env b] ds Hok Hall IH]; intros st Hc; simpl.
  - unfold MAX_FRAMES in *. lia.
  - destruct (processCameraData_ring env b st) as (_ & Hcount & _).
    destruct (store_frame_ring env b (get_frame_size b) st) as (_ & Hc1 & _).
    simpl in Hok. rewrite Hok in Hc1. rewrite Hc1 in Hcount.
    destruct (processCameraData env b st) as [st1 ev1]. simpl in Hcount.
    assert (Hc' : 0 ≤ buffer_count st1 ≤ MAX_FRAMES).
    { rewrite Hcount. destruct (Z.eqb_spec (buffer_count st) MAX_FRAMES);
        unfold MAX_FRAMES in *; lia. }
    specialize (IH st1 Hc').
    destruct (run ds st1) as [st2 ev2]. simpl in *.
    rewrite IH, Hcount.
    destruct (Z.eqb_spec (buffer_count st) MAX_FRAMES); unfold MAX_FRAMES in *; lia.
Qed.

Lemma pushed_all (ds : list (Env * camera_buffer_t)) :
  Forall (λ d, stores d.1 = true) ds → pushed ds = ds.*2.
Proof.
  induction 1 as [|[env b] ds Hok Hall IH]; simpl; [done|].
  simpl in Hok. by rewrite Hok, IH.
Qed.

(** The live frames are the newest [buffer_count] frames of the history,
    oldest first. *)
Lemma store_inv_ring_holds (st : State) (hist : list camera_buffer_t) :
  store_inv st hist →
  ring_holds st (drop (length hist - Z.to_nat (buffer_count st)) hist).
Proof.
  intros [Hlen Hhead Hcount Hhist Hbound Hinj Hlat Hslot]. split.
  - rewrite length_drop. lia.
  - intros k b Hk. rewrite lookup_drop in Hk.
    assert (Hlt : (length hist - Z.to_nat (buffer_count st) + k < length hist)%nat)
      by (by apply lookup_lt_Some in Hk).
    destruct (Hslot (Z.of_nat k) ltac:(lia)) as (o & b' & Hb' & Hholds & _).
    replace (Z.to_nat _) with (length hist - Z.to_nat (buffer_count st) + k)%nat
      in Hb' by lia.
    congruence.
Qed.



(** Once a frame has been pushed the ring never becomes empty again. *)
Lemma run_count_lower (ds : list (Env * camera_buffer_t)) (st : State)
    (hist : list camera_buffer_t) :
  Z.min (Z.of_nat (length hist)) 4 ≤ buffer_count st →
  Z.min (Z.of_nat (length (hist ++ pushed ds))) 4 ≤ buffer_count (run ds st).1.
Proof.
  revert st hist. induction ds as [|[env b] ds IH]; intros st hist Hlow; simpl.
  - by rewrite app_nil_r.
  - destruct (processCameraData_ring env b st) as (_ & Hcount & _).
    destruct (store_frame_ring env b (get_frame_size b) st) as (_ & Hc1 & _).
    rewrite Hc1 in Hcount.
    destruct (processCameraData env b st) as [st1 ev1]. simpl in Hcount.
    specialize (IH st1 (if stores env then hist ++ [b] else hist)).
    destruct (run ds st1) as [st2 ev2]. simpl in *.
    destruct (stores env).
    + rewrite <- app_assoc in IH. apply IH. rewrite Hcount, length_app. simpl.
      destruct (Z.eqb_spec (buffer_count st) MAX_FRAMES); unfold MAX_FRAMES in *; lia.
    + apply IH. rewrite Hcount.
      destruct (Z.eqb_spec (buffer_count st) MAX_FRAMES); unfold MAX_FRAMES in *; lia.
Qed.


(** * Per-frame error containment *)

Local Opaque shm_open ftruncate memcpy.

Lemma store_frame_events (env : Env) (b : camera_buffer_t) (size : Z) (st : State) :
  Forall (λ e, is_shm_event e = true) (store_frame env b size st).2.
Proof.
  unfold store_frame.
  assert (He : Forall (λ e, is_shm_event e = true) (evict_oldest st).2).
  { unfold evict_oldest. destruct (buffer_count st =? MAX_FRAMES); simpl;
      repeat constructor. }
  destruct (evict_oldest st) as [st1 ev]. simpl in He.
  destruct (ring_open_ok env).
  2:{ rewrite shm_open_fail. simpl. apply Forall_app. split; [done|].
      repeat constructor. }
  match goal with |- context [shm_open ?n true ?s] =>
    destruct (shm_open_ok n s) as (fd & -> & _) end.
  destruct (ring_trunc_ok env); simpl.
  2:{ apply Forall_app. split; [done|]. repeat constructor. }
  destruct (ring_map_ok env); simpl; apply Forall_app; (split; [done|]);
    repeat constructor.
Qed.

Lemma update_latest_events (env : Env) (b : camera_buffer_t) (st : State) :
  Forall (λ e, is_shm_event e = true) (update_latest env b st).2.
Proof.
  unfold update_latest.
  assert (He : Forall (λ e, is_shm_event e = true)
                 (if decide (latest_mapped st = NULL) then (shm st, [])
                  else (shm_unlink (latest_shm_name st) (shm st),
                        [EvMunmap (latest_mapped st) (latest_size st);
                         EvShmUnlink (latest_shm_name st)])).2).
  { destruct (decide (latest_mapped st = NULL)); simpl; repeat constructor. }
  destruct (if decide (latest_mapped st = NULL) then _ else _) as [s0 ev].
  simpl in He.
  destruct (latest_open_ok env).
  2:{ rewrite shm_open_fail. simpl. apply Forall_app. split; [done|].
      repeat constructor. }
  match goal with |- context [shm_open ?n true ?s] =>
    destruct (shm_open_ok n s) as (fd & -> & _) end.
  destruct (latest_trunc_ok env); simpl.
  2:{ apply Forall_app. split; [done|]. repeat constructor. }
  destruct (latest_map_ok env); simpl; apply Forall_app; (split; [done|]);
    repeat constructor.
Qed.

Lemma update_latest_name_events (env : Env) (st : State) :
  Forall (λ e, is_shm_event e = true) (update_latest_name env st).2.
Proof.
  unfold update_latest_name.
  destruct (name_open_ok env).
  2:{ rewrite shm_open_fail. simpl. repeat constructor. }
  match goal with |- context [shm_open ?n true ?s] =>
    destruct (shm_open_ok n s) as (fd & -> & _) end.
  destruct (name_trunc_ok env); simpl.
  2:{ repeat constructor. }
  destruct (name_map_ok env); simpl; repeat constructor.
Qed.

(** The trace of one callback: shared-memory calls of the three
    publication blocks, then the encoder's events, then the statistics'. *)
Lemma processCameraData_trace (env : Env) (b : camera_buffer_t) (st : State) :
  ∃ ev, Forall (λ e, is_shm_event e = true) ev
        ∧ (processCameraData env b st).2
          = ev ++ encode_and_send env b ++ statistics b.
Proof.
  unfold processCameraData.
  pose proof (store_frame_events env b (get_frame_size b) st) as H1.
  destruct (store_frame env b (get_frame_size b) st) as [st1 ev1].
  pose proof (update_latest_events env b st1) as H2.
  destruct (update_latest env b st1) as [st2 ev2].
  pose proof (update_latest_name_events env
                (update_metadata b (get_frame_size b) st2)) as H4.
  destruct (update_latest_name env _) as [st4 ev4]. simpl in *.
  exists (ev1 ++ ev2 ++ ev4). split.
  - by repeat (apply Forall_app; split).
  - by rewrite <- !app_assoc.
Qed.

Lemma sends_app (ev1 ev2 : list event) : sends (ev1 ++ ev2) = sends ev1 ++ sends ev2.
Proof. unfold sends. apply omap_app. Qed.

Lemma encoded_app (ev1 ev2 : list event) :
  encoded (ev1 ++ ev2) = encoded ev1 ++ encoded ev2.
Proof. unfold encoded. apply omap_app. Qed.

Lemma shm_events_silent (ev : list event) :
  Forall (λ e, is_shm_event e = true) ev →
  sends ev = [] ∧ encoded ev = []
  ∧ Forall (λ e, is_stream_event e = false ∧ is_stats_event e = false) ev.
Proof.
  induction 1 as [|e ev He Hev (IH1 & IH2 & IH3)]; [done|].
  destruct e; try discriminate He; simpl; split_and!; auto.
Qed.

Lemma processCameraData_metadata (env : Env) (b : camera_buffer_t) (st : State) :
  metadata_mapped (processCameraData env b st).1
  = metadata_mapped (update_metadata b (get_frame_size b) st).
Proof.
  unfold processCameraData.
  destruct (store_frame env b (get_frame_size b) st) as [st1 ev1].
  destruct (update_latest env b st1) as [st2 ev2].
  destruct (update_latest_name_frame env (update_metadata b (get_frame_size b) st2))
    as (_ & _ & _ & G4 & _).
  destruct (update_latest_name env _) as [st4 ev4]. simpl in *.
  rewrite G4. unfold update_metadata. by destruct (frametype b).
Qed.

Local Opaque shm_open ftruncate memcpy.

(** The ring store always opens the segment of the slot behind the newest
    frame. *)
Ltac trace_member :=
  repeat (rewrite ?elem_of_app, ?elem_of_cons; simpl); auto 10.

Lemma store_frame_opens (env : Env) (b : camera_buffer_t) (size : Z) (st : State) :
  ∃ fd, EvShmOpen (frame_shm_name
                     (Z.rem (buffer_head (evict_oldest st).1
                             + buffer_count (evict_oldest st).1) MAX_FRAMES)) fd
        ∈ (store_frame env b size st).2.
Proof.
  unfold store_frame.
  destruct (evict_oldest st) as [st1 ev]. simpl.
  destruct (ring_open_ok env).
  2:{ rewrite shm_open_fail. simpl. exists None. trace_member. }
  match goal with |- context [shm_open ?n true ?s] =>
    destruct (shm_open_ok n s) as (fd & -> & _) end.
  exists (Some fd).
  destruct (ring_trunc_ok env); [|simpl; trace_member].
  destruct (ring_map_ok env); simpl; trace_member.
Qed.

(** The latest-frame publisher always opens [/camera_latest]. *)
Lemma update_latest_opens (env : Env) (b : camera_buffer_t) (st : State) :
  ∃ fd, EvShmOpen "/camera_latest" fd ∈ (update_latest env b st).2.
Proof.
  unfold update_latest.
  destruct (if decide (latest_mapped st = NULL) then _ else _) as [s0 ev].
  destruct (latest_open_ok env).
  2:{ rewrite shm_open_fail. simpl. exists None. trace_member. }
  match goal with |- context [shm_open ?n true ?s] =>
    destruct (shm_open_ok n s) as (fd & -> & _) end.
  exists (Some fd).
  destruct (latest_trunc_ok env); [|simpl; trace_member].
  destruct (latest_map_ok env); simpl; trace_member.
Qed.

Local Transparent shm_open ftruncate memcpy.

Lemma processCameraData_opens (env : Env) (b : camera_buffer_t) (st : State) :
  (∃ fd, EvShmOpen (frame_shm_name
                      (Z.rem (buffer_head (evict_oldest st).1
                              + buffer_count (evict_oldest st).1) MAX_FRAMES)) fd
         ∈ (processCameraData env b st).2)
  ∧ (∃ fd, EvShmOpen "/camera_latest" fd ∈ (processCameraData env b st).2).
Proof.
  unfold processCameraData.
  destruct (store_frame_opens env b (get_frame_size b) st) as [fd1 H1].
  destruct (store_frame env b (get_frame_size b) st) as [st1 ev1].
  destruct (update_latest_opens env b st1) as [fd2 H2].
  destruct (update_latest env b st1) as [st2 ev2].
  destruct (update_latest_name env _) as [st4 ev4]. simpl in *.
  split; [exists fd1 | exists fd2]; trace_member.
Qed.

Lemma unsupported_dimensions (b : camera_buffer_t) :
  frametype b ∉ cSupportedFrametypes → dimensions b = (0, 0, 0).
Proof.
  unfold dimensions. intros Hn.
  destruct (frametype b); try reflexivity; exfalso; apply Hn, supported_cases; auto.
Qed.

Lemma unsupported_no_stream (env : Env) (b : camera_buffer_t) :
  frametype b ∉ cSupportedFrametypes → encode_and_send env b = [].
Proof.
  intros Hn. unfold encode_and_send. rewrite unsupported_dimensions by done.
  simpl. by destruct (bool_decide _).
Qed.

Lemma unsupported_no_statistics (b : camera_buffer_t) :
  frametype b ∉ cSupportedFrametypes →
  channel_averages (D := float) b = None
  ∧ statistics b = [EvPrintUnsupported (frametype b)].
Proof.
  intros Hn. unfold statistics, channel_averages.
  rewrite unsupported_dimensions by done.
  destruct (frametype b); try done; exfalso; apply Hn, supported_cases; auto.
Qed.

(** C2, as the code has it.  For a frame whose tag is none of the four
    supported layouts the byte size is 0, the encode-and-stream path does
    nothing, no statistics are computed (the layout is reported as
    unsupported) and the trace holds no stream or statistics event.  The
    ring store and the latest-frame publisher still open their segments,
    and the metadata record is overwritten with the tag, width 0, height 0
    and size 0. *)
Theorem unsupported_layout_effects (env : Env) (b : camera_buffer_t) (st : State) :
  frametype b ∉ cSupportedFrametypes →
  get_frame_size b = 0
  ∧ encode_and_send env b = []
  ∧ channel_averages (D := float) b = None
  ∧ statistics b = [EvPrintUnsupported (frametype b)]
  ∧ Forall (λ e, is_stream_event e = false ∧ is_stats_event e = false)
           (processCameraData env b st).2
  ∧ metadata_mapped (processCameraData env b st).1
    = {| md_frametype := frametype b; md_width := 0; md_height := 0; md_size := 0 |}
  ∧ (∃ fd, EvShmOpen (frame_shm_name
                        (Z.rem (buffer_head (evict_oldest st).1
                                + buffer_count (evict_oldest st).1) MAX_FRAMES)) fd
           ∈ (processCameraData env b st).2)
  ∧ (∃ fd, EvShmOpen "/camera_latest" fd ∈ (processCameraData env b st).2).
Proof.
  intros Hn.
  destruct (unsupported_no_statistics b Hn) as [Havg Hstat].
  pose proof (unsupported_no_stream env b Hn) as Hstream.
  pose proof (unsupported_frame_size b Hn) as Hsize.
  destruct (processCameraData_opens env b st) as [Hring Hlatest].
  split_and!; auto.
  - destruct (processCameraData_trace env b st) as (ev & Hshm & ->).
    rewrite Hstream, Hstat. apply Forall_app. split.
    + by apply shm_events_silent.
    + repeat constructor.
  - rewrite processCameraData_metadata, Hsize. unfold update_metadata.
    destruct (frametype b); try reflexivity; exfalso; apply Hn, supported_cases; auto.
Qed.

Lemma unsupported_layout_effects_witness :
  get_frame_size unsupported_frame = 0
  ∧ metadata_mapped (processCameraData env_no_map unsupported_frame initial_state).1
    = {| md_frametype := CAMERA_FRAMETYPE_OTHER 1;
         md_width := 0; md_height := 0; md_size := 0 |}.
Proof.
  assert (Hn : frametype unsupported_frame ∉ cSupportedFrametypes).
  { rewrite supported_cases. simpl. intros [H | [H | [H | H]]]; discriminate H. }
  pose proof (unsupported_layout_effects env_no_map unsupported_frame initial_state Hn)
    as (H1 & _ & _ & _ & _ & H6 & _).
  exact (conj H1 H6).
Defined.

(** C2 as stated fails: the callback does not short-circuit on an
    unsupported tag.  It creates the ring segment and overwrites the
    metadata record. *)
Lemma unsupported_layout_not_short_circuited :
  (frametype unsupported_frame ∉ cSupportedFrametypes)
  ∧ shm_names (shm initial_state) !! frame_shm_name 0 = None
  ∧ shm_names (shm (processCameraData env_no_map unsupported_frame initial_state).1)
      !! frame_shm_name 0 = Some 0%nat
  ∧ metadata_mapped (processCameraData env_no_map unsupported_frame initial_state).1
    ≠ metadata_mapped initial_state.
Proof.
  split_and!.
  - rewrite supported_cases. simpl. intros [H | [H | [H | H]]]; discriminate H.
  - reflexivity.
  - vm_compute. reflexivity.
  - vm_compute. discriminate.
Qed.




(** C6.  The latest-frame publisher at a failing [mmap], after one good
    publication: the previous publication has been torn down, the global
    [latest_mapped] is [MAP_FAILED] (not [NULL]), [/camera_latest] resolves
    to a new segment of the frame's size that holds only zero bytes, and
    the next callback hands [MAP_FAILED] to [munmap].  At a failing
    [shm_open] the global keeps pointing at the mapping that was just
    unmapped.  Either way the slot is neither the previous publication nor
    absent. *)
Theorem latest_publish_failure_state :
  latest_published (update_latest env_ok (sample_frame 1) initial_state).1 0
  ∧ latest_mapped
      (update_latest env_latest_map_fails (sample_frame 2)
         (update_latest env_ok (sample_frame 1) initial_state).1).1 = MAP_FAILED
  ∧ shm_names (shm (update_latest env_latest_map_fails (sample_frame 2)
                      (update_latest env_ok (sample_frame 1) initial_state).1).1)
      !! "/camera_latest"%string = Some 1%nat
  ∧ shm_objs (shm (update_latest env_latest_map_fails (sample_frame 2)
                     (update_latest env_ok (sample_frame 1) initial_state).1).1)
      !! 1%nat = Some (replicate 8 0)
  ∧ EvMunmap MAP_FAILED 8
      ∈ (update_latest env_ok (sample_frame 3)
           (update_latest env_latest_map_fails (sample_frame 2)
              (update_latest env_ok (sample_frame 1) initial_state).1).1).2
  ∧ latest_mapped
      (update_latest env_latest_open_fails (sample_frame 2)
         (update_latest env_ok (sample_frame 1) initial_state).1).1 = Map 0
  ∧ shm_names (shm (update_latest env_latest_open_fails (sample_frame 2)
                      (update_latest env_ok (sample_frame 1) initial_state).1).1)
      !! "/camera_latest"%string = None
  ∧ ¬ (latest_published
         (update_latest env_latest_map_fails (sample_frame 2)
            (update_latest env_ok (sample_frame 1) initial_state).1).1 0
       ∨ latest_absent
           (update_latest env_latest_map_fails (sample_frame 2)
              (update_latest env_ok (sample_frame 1) initial_state).1).1)
  ∧ ¬ (latest_published
         (update_latest env_latest_open_fails (sample_frame 2)
            (update_latest env_ok (sample_frame 1) initial_state).1).1 0
       ∨ latest_absent
           (update_latest env_latest_open_fails (sample_frame 2)
              (update_latest env_ok (sample_frame 1) initial_state).1).1).
Proof.
  split_and!.
  - split; vm_compute; reflexivity.
  - vm_compute; reflexivity.
  - vm_compute; reflexivity.
  - vm_compute; reflexivity.
  - vm_compute. apply list_elem_of_here.
  - vm_compute; reflexivity.
  - vm_compute; reflexivity.
  - intros [[H _] | [H _]]; vm_compute in H; discriminate H.
  - intros [[_ H] | [H _]]; vm_compute in H; discriminate H.
Qed.

(** * Loops *)

Lemma for_loop_nonpos {A : Type} (n : Z) (body : Z → A → A) (a : A) :
  n ≤ 0 → for_loop n body a = a.
Proof.
  intros Hn. unfold for_loop. by replace (Z.to_nat n) with 0%nat by lia.
Qed.

Lemma for_loop_succ {A : Type} (n : Z) (body : Z → A → A) (a : A) :
  0 ≤ n → for_loop (n + 1) body a = body n (for_loop n body a).
Proof.
  intros Hn. unfold for_loop.
  replace (Z.to_nat (n + 1)) with (S (Z.to_nat n)) by lia.
  rewrite seq_S, foldl_app. simpl. by rewrite Z2Nat.id.
Qed.

(** Loop invariants: [P k acc] holds before iteration [k]. *)
Lemma for_loop_ind {A : Type} (P : Z → A → Prop) (n : Z) (body : Z → A → A) (a : A) :
  0 ≤ n → P 0 a →
  (∀ k acc, 0 ≤ k < n → P k acc → P (k + 1) (body k acc)) →
  P n (for_loop n body a).
Proof.
  intros Hn H0 Hstep.
  assert (Hall : ∀ m, 0 ≤ m → m ≤ n → P m (for_loop m body a)).
  { intros m Hm. pattern m. apply natlike_ind; [| |exact Hm].
    - intros _. by rewrite for_loop_nonpos.
    - intros k Hk IH Hle. replace (Z.succ k) with (k + 1) by lia.
      rewrite for_loop_succ by done. apply Hstep; [lia|]. apply IH. lia. }
  apply Hall; lia.
Qed.

Lemma for_loop_ext {A : Type} (n : Z) (f g : Z → A → A) (a : A) :
  (∀ k acc, 0 ≤ k < n → f k acc = g k acc) →
  for_loop n f a = for_loop n g a.
Proof.
  intros Hfg. destruct (decide (0 ≤ n)) as [Hn | Hn].
  - apply (for_loop_ind (λ k acc, acc = for_loop k g a)); [done | done |].
    intros k acc Hk ->. rewrite for_loop_succ by lia. by apply Hfg.
  - by rewrite !for_loop_nonpos by lia.
Qed.

(** * The encode-and-stream sink *)

Section packing.
Variables (fb : list Z) (w h s : Z).
Hypothesis Hw : 0 ≤ w.
Hypothesis Hh : 0 ≤ h.
Hypothesis Hs : 0 ≤ s.
Hypothesis Hdst : w * h * 3 < 2 ^ 32.
Hypothesis Hsrc : (h - 1) * s + 4 * w ≤ 2 ^ 32.

Lemma pixel_index_bound (y x : Z) :
  0 ≤ y < h → 0 ≤ x < w → 0 ≤ y * w + x < w * h.
Proof. intros Hy Hx. nia. Qed.

Lemma pixel_index_lt (y' x' y x : Z) :
  0 ≤ y' < y → 0 ≤ x' < w → 0 ≤ x → y' * w + x' < y * w + x.
Proof. intros Hy Hx' Hx. nia. Qed.

Lemma source_index_bound (y x : Z) :
  0 ≤ y < h → 0 ≤ x < w → 0 ≤ y * s + x * 4 ∧ y * s + x * 4 + 3 < 2 ^ 32.
Proof. intros Hy Hx. nia. Qed.

(** One iteration of the inner loop, with the wrap-around resolved. *)
Lemma pack_step (y x : Z) (rgb : list Z) :
  0 ≤ y < h → 0 ≤ x < w →
  (let dst := u32 (u32 (u32 (y * w) + x) * 3) in
   let src := u32 (u32 (y * s) + u32 (x * 4)) in
   let rgb := <[Z.to_nat dst := rd fb src]> rgb in
   let rgb := <[Z.to_nat (u32 (dst + 1)) := rd fb (u32 (src + 1))]> rgb in
   <[Z.to_nat (u32 (dst + 2)) := rd fb (u32 (src + 2))]> rgb)
  = <[Z.to_nat ((y * w + x) * 3 + 2) := rd fb (y * s + x * 4 + 2)]>
      (<[Z.to_nat ((y * w + x) * 3 + 1) := rd fb (y * s + x * 4 + 1)]>
         (<[Z.to_nat ((y * w + x) * 3) := rd fb (y * s + x * 4)]> rgb)).
Proof.
  intros Hy Hx.
  pose proof (pixel_index_bound y x Hy Hx) as Hp.
  pose proof (source_index_bound y x Hy Hx) as [Hs0 Hs1].
  assert (Hyw : 0 ≤ y * w) by nia.
  assert (Hys : 0 ≤ y * s) by nia.
  cbv zeta.
  rewrite (u32_small (y * w)) by lia.
  rewrite (u32_small (y * w + x)) by lia.
  rewrite (u32_small ((y * w + x) * 3)) by lia.
  rewrite (u32_small ((y * w + x) * 3 + 1)) by lia.
  rewrite (u32_small ((y * w + x) * 3 + 2)) by lia.
  rewrite (u32_small (y * s)) by lia.
  rewrite (u32_small (x * 4)) by lia.
  rewrite (u32_small (y * s + x * 4)) by lia.
  rewrite (u32_small (y * s + x * 4 + 1)) by lia.
  rewrite (u32_small (y * s + x * 4 + 2)) by lia.
  reflexivity.
Qed.

Lemma packed_upto_step (y x : Z) (rgb : list Z) :
  0 ≤ y < h → 0 ≤ x < w →
  packed_upto fb w s y x (Z.to_nat (w * h * 3)) rgb →
  packed_upto fb w s y (x + 1) (Z.to_nat (w * h * 3))
    (<[Z.to_nat ((y * w + x) * 3 + 2) := rd fb (y * s + x * 4 + 2)]>
       (<[Z.to_nat ((y * w + x) * 3 + 1) := rd fb (y * s + x * 4 + 1)]>
          (<[Z.to_nat ((y * w + x) * 3) := rd fb (y * s + x * 4)]> rgb))).
Proof.
  intros Hy Hx [Hlen Hdone].
  pose proof (pixel_index_bound y x Hy Hx) as Hp.
  split; [by rewrite !length_insert|].
  intros y' x' c Hy' Hx' Hc Hbefore.
  destruct (decide (y' = y ∧ x' = x)) as [[-> ->] | Hother].
  - assert (c = 0 ∨ c = 1 ∨ c = 2) as [-> | [-> | ->]] by lia.
    + rewrite list_lookup_insert_ne by lia.
      rewrite list_lookup_insert_ne by lia.
      rewrite !Z.add_0_r. apply list_lookup_insert_eq.
      rewrite Hlen. lia.
    + rewrite list_lookup_insert_ne by lia.
      apply list_lookup_insert_eq. rewrite length_insert, Hlen. lia.
    + apply list_lookup_insert_eq. rewrite !length_insert, Hlen. lia.
  - assert (Hlt : y' * w + x' < y * w + x).
    { destruct Hbefore as [Hrow | [-> Hcol]]; [|lia].
      apply pixel_index_lt; lia. }
    assert (0 ≤ y' * w) by nia.
    rewrite !list_lookup_insert_ne by lia.
    apply Hdone; auto. lia.
Qed.

Lemma pack_rgb_rows (rgb : list Z) :
  length rgb = Z.to_nat (w * h * 3) →
  packed_upto fb w s h 0 (Z.to_nat (w * h * 3)) (pack_rgb fb w h s rgb).
Proof.
  intros Hlen. unfold pack_rgb.
  apply (for_loop_ind (λ y acc, packed_upto fb w s y 0 (Z.to_nat (w * h * 3)) acc));
    [done | |].
  - split; [done|]. intros; lia.
  - intros y acc Hy Hacc.
    assert (Hrow : packed_upto fb w s y w (Z.to_nat (w * h * 3))
              (for_loop w (λ x rgb_data,
                 let dst := u32 (u32 (u32 (y * w) + x) * 3) in
                 let src := u32 (u32 (y * s) + u32 (x * 4)) in
                 let rgb_data := <[Z.to_nat dst := rd fb src]> rgb_data in
                 let rgb_data :=
                   <[Z.to_nat (u32 (dst + 1)) := rd fb (u32 (src + 1))]> rgb_data in
                 <[Z.to_nat (u32 (dst + 2)) := rd fb (u32 (src + 2))]> rgb_data) acc)).
    { apply (for_loop_ind (λ x acc, packed_upto fb w s y x (Z.to_nat (w * h * 3)) acc));
        [done | done |].
      intros x acc' Hx Hacc'. rewrite pack_step by done.
      by apply packed_upto_step. }
    destruct Hrow as [Hl Hdone]. split; [done|].
    intros y' x' c Hy' Hx' Hc Hbefore. apply Hdone; auto. lia.
Qed.

(** Every pixel of the packed buffer is the first three bytes of the
    pixel's four source bytes. *)
Lemma pack_rgb_correct (y x c : Z) :
  0 ≤ y < h → 0 ≤ x < w → 0 ≤ c < 3 →
  pack_rgb fb w h s (replicate (Z.to_nat (w * h * 3)) 0)
    !! Z.to_nat ((y * w + x) * 3 + c)
  = Some (rd fb (y * s + x * 4 + c)).
Proof.
  intros Hy Hx Hc.
  destruct (pack_rgb_rows (replicate (Z.to_nat (w * h * 3)) 0)) as [_ Hdone].
  { by rewrite length_replicate. }
  apply Hdone; auto; lia.
Qed.

Lemma pack_rgb_length :
  length (pack_rgb fb w h s (replicate (Z.to_nat (w * h * 3)) 0))
  = Z.to_nat (w * h * 3).
Proof.
  destruct (pack_rgb_rows (replicate (Z.to_nat (w * h * 3)) 0)) as [Hl _];
    [by rewrite length_replicate | done].
Qed.

End packing.

Lemma statistics_events (b : camera_buffer_t) :
  Forall (λ e, is_stream_event e = false) (statistics b)
  ∧ sends (statistics b) = [] ∧ encoded (statistics b) = [].
Proof.
  unfold statistics. destruct (channel_averages b); simpl; split_and!; auto.
Qed.

Lemma rgb_dimensions (b : camera_buffer_t) :
  frametype b = CAMERA_FRAMETYPE_RGB8888 →
  dimensions b = (width (framedesc b), height (framedesc b), stride (framedesc b)).
Proof. intros Hft. unfold dimensions. by rewrite Hft. Qed.

Lemma stream_gate_test (b : camera_buffer_t) :
  wf_buffer b →
  bool_decide (frametype b = CAMERA_FRAMETYPE_RGB8888)
  && (0 <? (dimensions b).1.1) && (0 <? (dimensions b).1.2) = true
  ↔ stream_gate b.
Proof.
  intros (Hw & Hh & _). unfold stream_gate.
  rewrite !andb_true_iff, bool_decide_eq_true, !Z.ltb_lt.
  split.
  - intros [[Hft H1] H2]. rewrite rgb_dimensions in H1, H2 by done.
    simpl in *. split_and!; [done | lia | lia].
  - intros (Hft & H1 & H2). rewrite rgb_dimensions by done. simpl.
    split_and!; [done | lia | lia].
Qed.

(** The path with its gate closed does nothing. *)
Lemma encode_and_send_closed (env : Env) (b : camera_buffer_t) :
  wf_buffer b → ¬ stream_gate b → encode_and_send env b = [].
Proof.
  intros Hwf Hgate. unfold encode_and_send.
  pose proof (stream_gate_test b Hwf) as Htest.
  destruct (dimensions b) as [[w h] s]. simpl in Htest.
  destruct (_ && _ && _); [|done]. exfalso. by apply Hgate, Htest.
Qed.

(** The path with its gate open. *)
Lemma encode_and_send_open (env : Env) (b : camera_buffer_t) :
  wf_buffer b → stream_gate b →
  encode_and_send env b =
    let w := width (framedesc b) in
    let h := height (framedesc b) in
    let n := u32 (u32 (w * h) * 3) in
    let rgb_data :=
      pack_rgb (framebuf b) w h (stride (framedesc b)) (replicate (Z.to_nat n) 0) in
    if malloc_ok env then
      match jpeg_codec env rgb_data w h with
      | Some data =>
          [EvMalloc n true; EvCompress rgb_data w h;
           EvSend (ulong_bytes (big_endian env) (u64 (Z.of_nat (length data))));
           EvSend (take (Z.to_nat (u64 (Z.of_nat (length data)))) data)]
      | None => [EvMalloc n true; EvCompress rgb_data w h]
      end
    else [EvMalloc n false].
Proof.
  intros Hwf Hgate. unfold encode_and_send, compress_to_jpeg.
  pose proof (proj2 (stream_gate_test b Hwf) Hgate) as Htest.
  destruct Hgate as (Hft & _). rewrite rgb_dimensions in * by done.
  simpl in Htest. rewrite Htest. cbv zeta.
  destruct (malloc_ok env); [|done].
  by destruct (jpeg_codec env _ _ _).
Qed.

Lemma jpeg_of_gate (env : Env) (b : camera_buffer_t) :
  wf_buffer b →
  jpeg_of env b =
    if decide (stream_gate b) then
      if malloc_ok env then
        jpeg_codec env
          (pack_rgb (framebuf b) (width (framedesc b)) (height (framedesc b))
             (stride (framedesc b))
             (replicate (Z.to_nat (u32 (u32 (width (framedesc b)
                                             * height (framedesc b)) * 3))) 0))
          (width (framedesc b)) (height (framedesc b))
      else None
    else None.
Proof.
  intros (Hw & Hh & _). unfold jpeg_of, stream_gate. cbv zeta.
  destruct (decide _) as [(Hft & H1 & H2) | Hn].
  - rewrite bool_decide_eq_true_2 by done.
    destruct (Z.eqb_spec (width (framedesc b)) 0); [done|].
    destruct (Z.eqb_spec (height (framedesc b)) 0); [done|].
    reflexivity.
  - destruct (bool_decide_reflect (frametype b = CAMERA_FRAMETYPE_RGB8888));
      [|done].
    destruct (Z.eqb_spec (width (framedesc b)) 0); [done|].
    destruct (Z.eqb_spec (height (framedesc b)) 0); [done|].
    exfalso. by apply Hn.
Qed.

(** C10.  The encode-and-stream path issues an event (its [malloc] at
    least) exactly when the tag is RGB8888 and width and height are
    nonzero; a BGR8888 frame is neither encoded nor sent; and when the path
    runs with its buffer allocated, and the sizes do not wrap 32 bits, the
    buffer handed to the encoder has width*height*3 bytes with
    packed[(y*width + x)*3 + c] = framebuf[y*stride + x*4 + c]. *)
Theorem stream_gate_and_packing (env : Env) (b : camera_buffer_t) (st : State) :
  wf_buffer b →
  ((∃ e, e ∈ (processCameraData env b st).2 ∧ is_stream_event e = true)
   ↔ stream_gate b)
  ∧ (frametype b = CAMERA_FRAMETYPE_BGR8888 →
       sends (processCameraData env b st).2 = []
       ∧ encoded (processCameraData env b st).2 = [])
  ∧ (stream_gate b → malloc_ok env = true →
     width (framedesc b) * height (framedesc b) * 3 < 2 ^ 32 →
     (height (framedesc b) - 1) * stride (framedesc b)
       + 4 * width (framedesc b) ≤ 2 ^ 32 →
     ∃ rgb_data,
       encoded (processCameraData env b st).2
       = [(rgb_data, width (framedesc b), height (framedesc b))]
       ∧ Z.of_nat (length rgb_data) = width (framedesc b) * height (framedesc b) * 3
       ∧ ∀ y x c, 0 ≤ y < height (framedesc b) → 0 ≤ x < width (framedesc b) →
           0 ≤ c < 3 →
           rgb_data !! Z.to_nat ((y * width (framedesc b) + x) * 3 + c)
           = Some (rd (framebuf b) (y * stride (framedesc b) + x * 4 + c))).
Proof.
  intros Hwf.
  destruct (processCameraData_trace env b st) as (ev & Hshm & ->).
  destruct (shm_events_silent ev Hshm) as (Hs1 & Hs2 & Hs3).
  destruct (statistics_events b) as (Ht1 & Ht2 & Ht3).
  split_and!.
  - split.
    + intros (e & Hin & He).
      destruct (decide (stream_gate b)) as [|Hclosed]; [done|]. exfalso.
      rewrite (encode_and_send_closed env b Hwf Hclosed) in Hin. simpl in Hin.
      apply elem_of_app in Hin as [Hin | Hin].
      * rewrite Forall_forall in Hs3. destruct (Hs3 e Hin). congruence.
      * rewrite Forall_forall in Ht1. specialize (Ht1 e Hin). congruence.
    + intros Hgate. rewrite (encode_and_send_open env b Hwf Hgate). cbv zeta.
      set (n := u32 (u32 (width (framedesc b) * height (framedesc b)) * 3)).
      destruct (malloc_ok env).
      * exists (EvMalloc n true). split; [|reflexivity].
        apply elem_of_app. right. apply elem_of_app. left.
        destruct (jpeg_codec env _ _ _); apply list_elem_of_here.
      * exists (EvMalloc n false). split; [|reflexivity].
        apply elem_of_app. right. apply elem_of_app. left. apply list_elem_of_here.
  - intros Hft.
    rewrite (encode_and_send_closed env b Hwf).
    2:{ intros (Hrgb & _). congruence. }
    by rewrite !sends_app, !encoded_app, Hs1, Hs2, Ht2, Ht3.
  - intros Hgate Hmalloc Hdst Hsrc.
    destruct Hwf as (Hw & Hh & Hst).
    assert (Hwh : 0 ≤ width (framedesc b) * height (framedesc b)) by nia.
    rewrite (encode_and_send_open env b) by done. cbv zeta.
    rewrite Hmalloc.
    rewrite (u32_small (width (framedesc b) * height (framedesc b))) by lia.
    rewrite (u32_small (width (framedesc b) * height (framedesc b) * 3)) by lia.
    eexists. split_and!.
    + rewrite !encoded_app, Hs2, Ht3.
      destruct (jpeg_codec env _ _ _); reflexivity.
    + rewrite pack_rgb_length by lia. lia.
    + intros y x c Hy Hx Hc. apply pack_rgb_correct; lia.
Qed.

Lemma stream_gate_and_packing_witness :
  ∃ rgb_data,
    encoded (processCameraData env_ok example_rgb initial_state).2 = [(rgb_data, 2, 1)]
    ∧ Z.of_nat (length rgb_data) = 6
    ∧ rgb_data !! 5%nat = Some 60.
Proof.
  assert (Hwf : wf_buffer example_rgb) by (unfold wf_buffer; simpl; lia).
  assert (Hgate : stream_gate example_rgb) by (unfold stream_gate; simpl; auto).
  destruct (proj2 (proj2 (stream_gate_and_packing env_ok example_rgb initial_state Hwf))
              Hgate eq_refl eq_refl ltac:(simpl; lia))
    as (rgb_data & He & Hl & Hpix).
  exists rgb_data. split_and!; [exact He | exact Hl |].
  exact (Hpix 0 1 2 ltac:(simpl; lia) ltac:(simpl; lia) ltac:(lia)).
Defined.

Lemma ulong_bytes_length (be : bool) (v : Z) : length (ulong_bytes be v) = 8%nat.
Proof. unfold ulong_bytes. by destruct be. Qed.

Lemma byte_of_shift (v : Z) (k : Z) :
  0 ≤ k → Z.land (Z.shiftr v (8 * k)) 255 = (v / 2 ^ (8 * k)) mod 256.
Proof.
  intros Hk. rewrite Z.shiftr_div_pow2 by lia.
  change 255 with (Z.ones 8). rewrite Z.land_ones by lia. reflexivity.
Qed.

(** The eight bytes written for a length decode to that length. *)
Lemma ulong_value_bytes (be : bool) (v : Z) :
  0 ≤ v < 2 ^ 64 → ulong_value be (ulong_bytes be v) = v.
Proof.
  intros Hv.
  assert (Hle : ulong_value false (ulong_bytes false v) = v).
  { unfold ulong_value, ulong_bytes. cbn [seq fmap list_fmap foldr].
    rewrite !byte_of_shift by lia.
    change (2 ^ (8 * Z.of_nat 0)) with 1.
    change (2 ^ (8 * Z.of_nat 1)) with 256.
    change (2 ^ (8 * Z.of_nat 2)) with (256 * 256).
    change (2 ^ (8 * Z.of_nat 3)) with (256 * 256 * 256).
    change (2 ^ (8 * Z.of_nat 4)) with (256 * 256 * 256 * 256).
    change (2 ^ (8 * Z.of_nat 5)) with (256 * 256 * 256 * 256 * 256).
    change (2 ^ (8 * Z.of_nat 6)) with (256 * 256 * 256 * 256 * 256 * 256).
    change (2 ^ (8 * Z.of_nat 7)) with (256 * 256 * 256 * 256 * 256 * 256 * 256).
    rewrite <- !Z.div_div by lia. rewrite Z.div_1_r.
    set (q1 := v / 256). set (q2 := q1 / 256). set (q3 := q2 / 256).
    set (q4 := q3 / 256). set (q5 := q4 / 256). set (q6 := q5 / 256).
    set (q7 := q6 / 256).
    assert (v = 256 * q1 + v mod 256) by (apply Z.div_mod; lia).
    assert (q1 = 256 * q2 + q1 mod 256) by (apply Z.div_mod; lia).
    assert (q2 = 256 * q3 + q2 mod 256) by (apply Z.div_mod; lia).
    assert (q3 = 256 * q4 + q3 mod 256) by (apply Z.div_mod; lia).
    assert (q4 = 256 * q5 + q4 mod 256) by (apply Z.div_mod; lia).
    assert (q5 = 256 * q6 + q5 mod 256) by (apply Z.div_mod; lia).
    assert (q6 = 256 * q7 + q6 mod 256) by (apply Z.div_mod; lia).
    pose proof (Z.mod_pos_bound v 256 ltac:(lia)).
    pose proof (Z.mod_pos_bound q1 256 ltac:(lia)).
    pose proof (Z.mod_pos_bound q2 256 ltac:(lia)).
    pose proof (Z.mod_pos_bound q3 256 ltac:(lia)).
    pose proof (Z.mod_pos_bound q4 256 ltac:(lia)).
    pose proof (Z.mod_pos_bound q5 256 ltac:(lia)).
    pose proof (Z.mod_pos_bound q6 256 ltac:(lia)).
    clearbody q1 q2 q3 q4 q5 q6 q7.
    assert (Hq7 : 0 ≤ q7 < 256) by lia.
    rewrite (Z.mod_small q7) by lia.
    lia. }
  destruct be; [|exact Hle].
  unfold ulong_value, ulong_bytes in *. cbv iota in *.
  by rewrite reverse_involutive.
Qed.

(** The transport writes of one callback. *)
Lemma callback_sends (env : Env) (b : camera_buffer_t) (st : State) :
  wf_buffer b →
  sends (processCameraData env b st).2 =
    match jpeg_of env b with
    | Some data =>
        [ulong_bytes (big_endian env) (u64 (Z.of_nat (length data)));
         take (Z.to_nat (u64 (Z.of_nat (length data)))) data]
    | None => []
    end.
Proof.
  intros Hwf.
  destruct (processCameraData_trace env b st) as (ev & Hshm & ->).
  destruct (shm_events_silent ev Hshm) as (Hs1 & _ & _).
  destruct (statistics_events b) as (_ & Ht2 & _).
  rewrite !sends_app, Hs1, Ht2, app_nil_r. simpl.
  rewrite (jpeg_of_gate env b Hwf).
  destruct (decide (stream_gate b)) as [Hgate | Hclosed].
  - rewrite (encode_and_send_open env b Hwf Hgate). cbv zeta.
    destruct (malloc_ok env); [|done].
    by destruct (jpeg_codec env _ _ _).
  - by rewrite (encode_and_send_closed env b Hwf Hclosed).
Qed.

Lemma callback_sends_fit (env : Env) (b : camera_buffer_t) (st : State) :
  wf_buffer b →
  (∀ data, jpeg_of env b = Some data → Z.of_nat (length data) < 2 ^ 64) →
  mjoin (sends (processCameraData env b st).2) = wire_of (env, b).
Proof.
  intros Hwf Hfit. rewrite (callback_sends env b st Hwf). unfold wire_of. simpl.
  destruct (jpeg_of env b) as [data|]; [|done].
  specialize (Hfit data eq_refl).
  rewrite u64_small by lia. rewrite Nat2Z.id, firstn_all. simpl.
  by rewrite app_nil_r.
Qed.

(** C9.  A frame that is encoded and streamed causes exactly two transport
    writes: first the eight bytes of the compressed size in the machine's
    byte order, then exactly the compressed bytes, and nothing else.  Over
    any run, the bytes written are, frame by frame, one length prefix
    followed by that many bytes. *)
Theorem stream_framing (env : Env) (b : camera_buffer_t) (st : State)
    (data : list Z) (ds : list (Env * camera_buffer_t)) (st0 : State) :
  wf_buffer b → jpeg_of env b = Some data → Z.of_nat (length data) < 2 ^ 64 →
  sends (processCameraData env b st).2
  = [ulong_bytes (big_endian env) (Z.of_nat (length data)); data]
  ∧ length (ulong_bytes (big_endian env) (Z.of_nat (length data))) = 8%nat
  ∧ ulong_value (big_endian env)
      (ulong_bytes (big_endian env) (Z.of_nat (length data)))
    = Z.of_nat (length data)
  ∧ (Forall (λ d, wf_buffer d.2
                  ∧ ∀ x, jpeg_of d.1 d.2 = Some x → Z.of_nat (length x) < 2 ^ 64) ds →
     mjoin (sends (run ds st0).2) = mjoin (wire_of <$> ds)).
Proof.
  intros Hwf Hjpeg Hfit. split_and!.
  - rewrite (callback_sends env b st Hwf), Hjpeg.
    rewrite u64_small by lia. by rewrite Nat2Z.id, firstn_all.
  - apply ulong_bytes_length.
  - apply ulong_value_bytes. lia.
  - intros Hall. revert st0.
    induction Hall as [|[env' b'] ds' [Hwf' Hfit'] Hall IH]; intros st0; [done|].
    simpl in *.
    pose proof (callback_sends_fit env' b' st0 Hwf' Hfit') as Hone.
    destruct (processCameraData env' b' st0) as [st1 ev1].
    specialize (IH st1). destruct (run ds' st1) as [st2 ev2]. simpl in *.
    by rewrite sends_app, join_app, Hone, IH.
Qed.

Lemma stream_framing_witness :
  sends (processCameraData env_ok example_rgb initial_state).2
  = [[6; 0; 0; 0; 0; 0; 0; 0]; [10; 20; 30; 40; 50; 60]].
Proof.
  assert (Hwf : wf_buffer example_rgb) by (unfold wf_buffer; simpl; lia).
  exact (proj1 (stream_framing env_ok example_rgb initial_state
                  [10; 20; 30; 40; 50; 60] [] initial_state Hwf eq_refl
                  ltac:(simpl; lia))).
Defined.

(** * Channel statistics *)

Lemma big_sum_nonpos (n : Z) (f : Z → Z) : n ≤ 0 → big_sum n f = 0.
Proof.
  intros Hn. unfold big_sum. by replace (Z.to_nat n) with 0%nat by lia.
Qed.

Lemma big_sum_succ (n : Z) (f : Z → Z) :
  0 ≤ n → big_sum (n + 1) f = big_sum n f + f n.
Proof.
  intros Hn. unfold big_sum.
  replace (Z.to_nat (n + 1)) with (S (Z.to_nat n)) by lia.
  rewrite seq_S, foldr_app. simpl. rewrite Z2Nat.id by done.
  generalize (seq 0 (Z.to_nat n)) as l. generalize (f n) as v.
  intros v l. induction l as [|k l IH]; simpl; [lia|]. rewrite IH. lia.
Qed.

Lemma big_sum_ext (n : Z) (f g : Z → Z) :
  (∀ k, 0 ≤ k < n → f k = g k) → big_sum n f = big_sum n g.
Proof.
  intros Hfg. destruct (decide (0 ≤ n)) as [Hn | Hn].
  - revert Hfg. pattern n. apply natlike_ind; [| |exact Hn].
    + intros _. by rewrite !big_sum_nonpos.
    + intros k Hk IH Hfg. replace (Z.succ k) with (k + 1) by lia.
      rewrite !big_sum_succ by done. rewrite IH, Hfg; [done | lia |].
      intros j Hj. apply Hfg. lia.
  - by rewrite !big_sum_nonpos by lia.
Qed.

Lemma big_sum_add (a k : Z) (g : Z → Z) :
  0 ≤ a → 0 ≤ k →
  big_sum (a + k) g = big_sum a g + big_sum k (λ r, g (a + r)).
Proof.
  intros Ha Hk. pattern k. apply natlike_ind; [| |exact Hk].
  - rewrite Z.add_0_r, (big_sum_nonpos 0) by lia. lia.
  - intros r Hr IH. replace (Z.succ r) with (r + 1) by lia.
    replace (a + (r + 1)) with (a + r + 1) by lia.
    rewrite !big_sum_succ by lia. rewrite IH. lia.
Qed.

(** Regrouping a sum over [m * w] terms into [w] groups of [m]. *)
Lemma big_sum_groups (m w : Z) (g : Z → Z) :
  0 ≤ m → 0 ≤ w →
  big_sum (m * w) g = big_sum w (λ x, big_sum m (λ r, g (m * x + r))).
Proof.
  intros Hm Hw. pattern w. apply natlike_ind; [| |exact Hw].
  - rewrite Z.mul_0_r. by rewrite !big_sum_nonpos.
  - intros x Hx IH. replace (Z.succ x) with (x + 1) by lia.
    rewrite big_sum_succ by done. rewrite <- IH.
    replace (m * (x + 1)) with (m * x + m) by lia.
    apply big_sum_add; nia.
Qed.

Lemma big_sum_2 (f : Z → Z) : big_sum 2 f = f 0 + f 1.
Proof.
  unfold big_sum. change (Z.to_nat 2) with 2%nat. cbn [seq foldr].
  change (Z.of_nat 0) with 0. change (Z.of_nat 1) with 1. lia.
Qed.

Lemma big_sum_4 (f : Z → Z) : big_sum 4 f = f 0 + f 1 + f 2 + f 3.
Proof.
  unfold big_sum. change (Z.to_nat 4) with 4%nat. cbn [seq foldr].
  change (Z.of_nat 0) with 0. change (Z.of_nat 1) with 1.
  change (Z.of_nat 2) with 2. change (Z.of_nat 3) with 3. lia.
Qed.

(** Every second term of a sum. *)
Lemma big_sum_parity (w c : Z) (g : Z → Z) :
  0 ≤ w → 0 ≤ c < 2 →
  big_sum w (λ x, if x mod 2 =? c then g x else 0)
  = big_sum ((w + 1 - c) / 2) (λ j, g (2 * j + c)).
Proof.
  intros Hw Hc. pattern w. apply natlike_ind; [| |exact Hw].
  - rewrite big_sum_nonpos by lia.
    assert ((0 + 1 - c) / 2 = 0) as -> by (apply Z.div_small; lia).
    by rewrite big_sum_nonpos.
  - intros x Hx IH. replace (Z.succ x) with (x + 1) by lia.
    rewrite big_sum_succ, IH by done.
    destruct (Z.eqb_spec (x mod 2) c) as [Heq | Hne].
    + assert ((x + 1 + 1 - c) / 2 = (x + 1 - c) / 2 + 1) as ->
        by (Z.div_mod_to_equations; lia).
      rewrite big_sum_succ by (Z.div_mod_to_equations; lia).
      f_equal. f_equal. Z.div_mod_to_equations; lia.
    + assert ((x + 1 + 1 - c) / 2 = (x + 1 - c) / 2) as ->
        by (Z.div_mod_to_equations; lia).
      lia.
Qed.

Lemma inject_Z_add (a b : Z) : Qplus (inject_Z a) (inject_Z b) = inject_Z (a + b).
Proof. unfold Qplus, inject_Z. simpl. f_equal. lia. Qed.

(** Adding an integer to one of three exact accumulators. *)
Lemma accumulate_qacc (c v s0 s1 s2 : Z) :
  0 ≤ c →
  accumulate (D := Q) c v (qacc s0 s1 s2)
  = qacc (s0 + (if c =? 0 then v else 0))
         (s1 + (if c =? 1 then v else 0))
         (s2 + (if c =? 2 then v else 0)).
Proof.
  intros Hc. unfold accumulate, qacc. simpl d_add. simpl d_of_Z.
  assert (Hcases : c = 0 ∨ c = 1 ∨ c = 2 ∨ 3 ≤ c) by lia.
  destruct Hcases as [-> | [-> | [-> | Hbig]]].
  - simpl. by rewrite inject_Z_add, !Z.add_0_r.
  - simpl. by rewrite inject_Z_add, !Z.add_0_r.
  - simpl. by rewrite inject_Z_add, !Z.add_0_r.
  - destruct (Z.eqb_spec c 0); [lia|]. destruct (Z.eqb_spec c 1); [lia|].
    destruct (Z.eqb_spec c 2); [lia|]. rewrite !Z.add_0_r.
    destruct (Z.to_nat c) as [|[|[|k]]] eqn:Hk; try lia. reflexivity.
Qed.

(** One row: the loop adds to each channel the values picked for it. *)
Lemma accumulate_loop (skip : Z → bool) (chan val : Z → Z) (n s0 s1 s2 : Z) :
  0 ≤ n → (∀ i, 0 ≤ i < n → skip i = false → 0 ≤ chan i) →
  for_loop n (λ i acc, if skip i then acc else accumulate (chan i) (val i) acc)
    (qacc s0 s1 s2)
  = qacc (s0 + picked_sum n (λ i, if skip i then 3 else chan i) 0 val)
         (s1 + picked_sum n (λ i, if skip i then 3 else chan i) 1 val)
         (s2 + picked_sum n (λ i, if skip i then 3 else chan i) 2 val).
Proof.
  intros Hn Hchan.
  apply (for_loop_ind (λ i acc,
           acc = qacc (s0 + picked_sum i (λ i, if skip i then 3 else chan i) 0 val)
                      (s1 + picked_sum i (λ i, if skip i then 3 else chan i) 1 val)
                      (s2 + picked_sum i (λ i, if skip i then 3 else chan i) 2 val)));
    [done | |].
  - unfold picked_sum. by rewrite !big_sum_nonpos, !Z.add_0_r.
  - intros i acc Hi ->. unfold picked_sum. rewrite !big_sum_succ by lia.
    destruct (skip i) eqn:Hskip.
    + simpl. by rewrite !Z.add_0_r.
    + rewrite accumulate_qacc by (apply Hchan; [lia | done]).
      by rewrite !Z.add_assoc.
Qed.

(** All rows: channel [c] ends up with the sum over the rows of the values
    picked for it in each row. *)
Lemma rows_loop (fb : list Z) (skip : Z → bool) (chan line : Z → Z) (h n : Z) :
  0 ≤ h → 0 ≤ n → (∀ i, 0 ≤ i < n → skip i = false → 0 ≤ chan i) →
  for_loop h (λ y acc,
    for_loop n (λ i acc,
      if skip i then acc else accumulate (chan i) (rd fb (line y + i)) acc) acc)
    (qacc 0 0 0)
  = qacc (big_sum h (λ y, picked_sum n (λ i, if skip i then 3 else chan i) 0
                            (λ i, rd fb (line y + i))))
         (big_sum h (λ y, picked_sum n (λ i, if skip i then 3 else chan i) 1
                            (λ i, rd fb (line y + i))))
         (big_sum h (λ y, picked_sum n (λ i, if skip i then 3 else chan i) 2
                            (λ i, rd fb (line y + i)))).
Proof.
  intros Hh Hn Hchan.
  apply (for_loop_ind (λ y acc,
           acc = qacc (big_sum y (λ y, picked_sum n (λ i, if skip i then 3 else chan i) 0
                                         (λ i, rd fb (line y + i))))
                      (big_sum y (λ y, picked_sum n (λ i, if skip i then 3 else chan i) 1
                                         (λ i, rd fb (line y + i))))
                      (big_sum y (λ y, picked_sum n (λ i, if skip i then 3 else chan i) 2
                                         (λ i, rd fb (line y + i))))));
    [done | |].
  - by rewrite !big_sum_nonpos.
  - intros y acc Hy ->.
    rewrite (accumulate_loop skip chan (λ i, rd fb (line y + i))) by done.
    by rewrite !big_sum_succ by lia.
Qed.

(** ** Which bytes each layout picks *)

Lemma picked_rgb (w c : Z) (val : Z → Z) :
  0 ≤ w → 0 ≤ c < 3 →
  picked_sum (4 * w) (λ i, if i mod 4 =? 3 then 3 else i mod 4) c val
  = big_sum w (λ x, val (4 * x + c)).
Proof.
  intros Hw Hc. unfold picked_sum. rewrite big_sum_groups by lia.
  apply big_sum_ext. intros x Hx. rewrite big_sum_4.
  replace ((4 * x + 0) mod 4) with 0 by (Z.div_mod_to_equations; lia).
  replace ((4 * x + 1) mod 4) with 1 by (Z.div_mod_to_equations; lia).
  replace ((4 * x + 2) mod 4) with 2 by (Z.div_mod_to_equations; lia).
  replace ((4 * x + 3) mod 4) with 3 by (Z.div_mod_to_equations; lia).
  simpl (_ =? 3).
  assert (c = 0 ∨ c = 1 ∨ c = 2) as [-> | [-> | ->]] by lia; simpl; lia.
Qed.

Lemma u32_mod_4 (x : Z) : u32 x mod 4 = x mod 4.
Proof. unfold u32. Z.div_mod_to_equations. lia. Qed.

Lemma bgr_channel (w i : Z) :
  i mod 4 ≠ 3 →
  u32 (u32 (u32 (u32 (4 * w) - i) + 3) mod 4 - 1) = 2 - i mod 4.
Proof.
  intros Hi. rewrite u32_mod_4.
  assert (Hm : (u32 (u32 (4 * w) - i) + 3) mod 4 = 3 - i mod 4).
  { rewrite <- Z.add_mod_idemp_l by lia. rewrite u32_mod_4.
    rewrite Z.add_mod_idemp_l by lia.
    replace (u32 (4 * w) - i + 3) with (u32 (4 * w) + (3 - i)) by lia.
    rewrite <- Z.add_mod_idemp_l by lia. rewrite u32_mod_4.
    rewrite Z.add_mod_idemp_l by lia.
    Z.div_mod_to_equations. lia. }
  rewrite Hm. replace (3 - i mod 4 - 1) with (2 - i mod 4) by lia.
  apply u32_small. Z.div_mod_to_equations. lia.
Qed.

Lemma picked_bgr (w c : Z) (val : Z → Z) :
  0 ≤ w → 0 ≤ c < 3 →
  picked_sum (4 * w) (λ i, if i mod 4 =? 3 then 3 else 2 - i mod 4) c val
  = big_sum w (λ x, val (4 * x + (2 - c))).
Proof.
  intros Hw Hc. unfold picked_sum. rewrite big_sum_groups by lia.
  apply big_sum_ext. intros x Hx. rewrite big_sum_4.
  replace ((4 * x + 0) mod 4) with 0 by (Z.div_mod_to_equations; lia).
  replace ((4 * x + 1) mod 4) with 1 by (Z.div_mod_to_equations; lia).
  replace ((4 * x + 2) mod 4) with 2 by (Z.div_mod_to_equations; lia).
  replace ((4 * x + 3) mod 4) with 3 by (Z.div_mod_to_equations; lia).
  simpl (_ =? 3).
  assert (c = 0 ∨ c = 1 ∨ c = 2) as [-> | [-> | ->]] by lia; simpl.
  - change (2 - 0) with 2. lia.
  - change (2 - 1) with 1. lia.
  - change (2 - 2) with 0. lia.
Qed.

Lemma picked_sum_ext (n c : Z) (chan chan' val val' : Z → Z) :
  (∀ i, 0 ≤ i < n → chan i = chan' i ∧ val i = val' i) →
  picked_sum n chan c val = picked_sum n chan' c val'.
Proof.
  intros Heq. unfold picked_sum. apply big_sum_ext. intros i Hi.
  destruct (Heq i Hi) as [-> ->]. reflexivity.
Qed.

Lemma ycbycr_channel (i : Z) :
  0 ≤ i →
  (if i mod 2 =? 1 then u32 (u32 (i - 1) mod 4 / 2 + 1) else i mod 2)
  = (if i mod 2 =? 1 then (i - 1) mod 4 / 2 + 1 else 0).
Proof.
  intros Hi. destruct (Z.eqb_spec (i mod 2) 1) as [Hodd | Heven].
  - rewrite u32_mod_4. apply u32_small. Z.div_mod_to_equations. lia.
  - Z.div_mod_to_equations. lia.
Qed.

Lemma cbycry_channel (i : Z) :
  0 ≤ i →
  (if u32 (i + 1) mod 2 =? 1 then u32 (u32 (i + 1) mod 4 + 1) / 2
   else u32 (i + 1) mod 2)
  = (if i mod 2 =? 0 then (i mod 4 + 2) / 2 else 0).
Proof.
  intros Hi.
  assert (H2 : u32 (i + 1) mod 2 = (i + 1) mod 2).
  { unfold u32. Z.div_mod_to_equations. lia. }
  rewrite H2, u32_mod_4.
  destruct (Z.eqb_spec ((i + 1) mod 2) 1) as [Hodd | Heven];
    destruct (Z.eqb_spec (i mod 2) 0) as [H0 | H0];
    try (exfalso; Z.div_mod_to_equations; lia).
  - rewrite u32_small by (Z.div_mod_to_equations; lia).
    Z.div_mod_to_equations. lia.
  - Z.div_mod_to_equations. lia.
Qed.

Lemma picked_ycbycr (w : Z) (val : Z → Z) :
  0 ≤ w →
  picked_sum (2 * w) (λ i, if i mod 2 =? 1 then (i - 1) mod 4 / 2 + 1 else 0) 0 val
  = big_sum w (λ x, val (2 * x + 0))
  ∧ picked_sum (2 * w) (λ i, if i mod 2 =? 1 then (i - 1) mod 4 / 2 + 1 else 0) 1 val
    = big_sum ((w + 1) / 2) (λ j, val (4 * j + 1))
  ∧ picked_sum (2 * w) (λ i, if i mod 2 =? 1 then (i - 1) mod 4 / 2 + 1 else 0) 2 val
    = big_sum (w / 2) (λ j, val (4 * j + 3)).
Proof.
  intros Hw. unfold picked_sum. rewrite !big_sum_groups by lia.
  assert (Hpix : ∀ x c, 0 ≤ x →
            big_sum 2 (λ r, if (if (2 * x + r) mod 2 =? 1
                                then (2 * x + r - 1) mod 4 / 2 + 1 else 0) =? c
                            then val (2 * x + r) else 0)
            = (if 0 =? c then val (2 * x + 0) else 0)
              + (if x mod 2 + 1 =? c then val (2 * x + 1) else 0)).
  { intros x c Hx. rewrite big_sum_2.
    replace ((2 * x + 0) mod 2) with 0 by (Z.div_mod_to_equations; lia).
    replace ((2 * x + 1) mod 2) with 1 by (Z.div_mod_to_equations; lia).
    replace ((2 * x + 1 - 1) mod 4 / 2 + 1) with (x mod 2 + 1)
      by (Z.div_mod_to_equations; lia).
    reflexivity. }
  split_and!.
  - apply big_sum_ext. intros x Hx. rewrite Hpix by lia. simpl (0 =? 0).
    destruct (Z.eqb_spec (x mod 2 + 1) 0); [Z.div_mod_to_equations; lia | lia].
  - rewrite (big_sum_ext w _ (λ x, if x mod 2 =? 0 then val (2 * x + 1) else 0)).
    + rewrite big_sum_parity by lia. rewrite Z.sub_0_r.
      apply big_sum_ext. intros j Hj. f_equal. lia.
    + intros x Hx. rewrite Hpix by lia. simpl (0 =? 1).
      destruct (Z.eqb_spec (x mod 2 + 1) 1); destruct (Z.eqb_spec (x mod 2) 0); lia.
  - rewrite (big_sum_ext w _ (λ x, if x mod 2 =? 1 then val (2 * x + 1) else 0)).
    + rewrite big_sum_parity by lia. replace (w + 1 - 1) with w by lia.
      apply big_sum_ext. intros j Hj. f_equal. lia.
    + intros x Hx. rewrite Hpix by lia. simpl (0 =? 2).
      destruct (Z.eqb_spec (x mod 2 + 1) 2); destruct (Z.eqb_spec (x mod 2) 1); lia.
Qed.

Lemma picked_cbycry (w : Z) (val : Z → Z) :
  0 ≤ w →
  picked_sum (2 * w) (λ i, if i mod 2 =? 0 then (i mod 4 + 2) / 2 else 0) 0 val
  = big_sum w (λ x, val (2 * x + 1))
  ∧ picked_sum (2 * w) (λ i, if i mod 2 =? 0 then (i mod 4 + 2) / 2 else 0) 1 val
    = big_sum ((w + 1) / 2) (λ j, val (4 * j + 0))
  ∧ picked_sum (2 * w) (λ i, if i mod 2 =? 0 then (i mod 4 + 2) / 2 else 0) 2 val
    = big_sum (w / 2) (λ j, val (4 * j + 2)).
Proof.
  intros Hw. unfold picked_sum. rewrite !big_sum_groups by lia.
  assert (Hpix : ∀ x c, 0 ≤ x →
            big_sum 2 (λ r, if (if (2 * x + r) mod 2 =? 0
                                then ((2 * x + r) mod 4 + 2) / 2 else 0) =? c
                            then val (2 * x + r) else 0)
            = (if x mod 2 + 1 =? c then val (2 * x + 0) else 0)
              + (if 0 =? c then val (2 * x + 1) else 0)).
  { intros x c Hx. rewrite big_sum_2.
    replace ((2 * x + 0) mod 2) with 0 by (Z.div_mod_to_equations; lia).
    replace ((2 * x + 1) mod 2) with 1 by (Z.div_mod_to_equations; lia).
    replace (((2 * x + 0) mod 4 + 2) / 2) with (x mod 2 + 1)
      by (Z.div_mod_to_equations; lia).
    reflexivity. }
  split_and!.
  - apply big_sum_ext. intros x Hx. rewrite Hpix by lia. simpl (0 =? 0).
    destruct (Z.eqb_spec (x mod 2 + 1) 0); [Z.div_mod_to_equations; lia | lia].
  - rewrite (big_sum_ext w _ (λ x, if x mod 2 =? 0 then val (2 * x + 0) else 0)).
    + rewrite big_sum_parity by lia. rewrite Z.sub_0_r.
      apply big_sum_ext. intros j Hj. f_equal. lia.
    + intros x Hx. rewrite Hpix by lia. simpl (0 =? 1).
      destruct (Z.eqb_spec (x mod 2 + 1) 1); destruct (Z.eqb_spec (x mod 2) 0); lia.
  - rewrite (big_sum_ext w _ (λ x, if x mod 2 =? 1 then val (2 * x + 0) else 0)).
    + rewrite big_sum_parity by lia. replace (w + 1 - 1) with w by lia.
      apply big_sum_ext. intros j Hj. f_equal. lia.
    + intros x Hx. rewrite Hpix by lia. simpl (0 =? 2).
      destruct (Z.eqb_spec (x mod 2 + 1) 2); destruct (Z.eqb_spec (x mod 2) 1); lia.
Qed.

Lemma line_start (s h y : Z) :
  0 ≤ s → (h - 1) * s < 2 ^ 32 → 0 ≤ y < h → u32 (y * s) = y * s.
Proof. intros Hs Hfit Hy. apply u32_small. nia. Qed.

Lemma divide_all (d s0 s1 s2 : Z) :
  for_loop NUM_CHANNELS (λ chan acc, divide (D := Q) chan d acc) (qacc s0 s1 s2)
  = [Qdiv (inject_Z s0) (inject_Z d); Qdiv (inject_Z s1) (inject_Z d);
     Qdiv (inject_Z s2) (inject_Z d)].
Proof. reflexivity. Qed.

(** The exact channel averages of an RGB8888 frame. *)
Lemma rgb8888_averages (b : camera_buffer_t) :
  wf_buffer b → frametype b = CAMERA_FRAMETYPE_RGB8888 →
  4 * width (framedesc b) < 2 ^ 32 →
  width (framedesc b) * height (framedesc b) < 2 ^ 32 →
  (height (framedesc b) - 1) * stride (framedesc b) < 2 ^ 32 →
  channel_averages (D := Q) b
  = Some [channel_mean b (width (framedesc b)) 4 0
            (width (framedesc b) * height (framedesc b));
          channel_mean b (width (framedesc b)) 4 1
            (width (framedesc b) * height (framedesc b));
          channel_mean b (width (framedesc b)) 4 2
            (width (framedesc b) * height (framedesc b))].
Proof.
  intros (Hw & Hh & Hs) Hft H4w Hwh Hline.
  unfold channel_averages. rewrite (rgb_dimensions b Hft), Hft. cbv zeta.
  set (w := width (framedesc b)) in *. set (h := height (framedesc b)) in *.
  set (s := stride (framedesc b)) in *. set (fb := framebuf b).
  rewrite (u32_small (4 * w)), (u32_small (w * h)) by nia.
  change (replicate (Z.to_nat NUM_CHANNELS) d_zero) with (qacc 0 0 0).
  pose proof (rows_loop fb (λ i, i mod 4 =? 3) (λ i, i mod 4)
                (λ y, u32 (y * s)) h (4 * w) ltac:(lia) ltac:(lia)) as Hloop.
  cbv beta in Hloop. rewrite Hloop.
  2:{ intros i Hi _. apply Z.mod_pos_bound. lia. }
  rewrite divide_all. unfold channel_mean, frame_sum. fold w h s fb.
  f_equal. f_equal; [|f_equal; [|f_equal]]; f_equal; f_equal;
    apply big_sum_ext; intros y Hy; rewrite picked_rgb by lia;
    apply big_sum_ext; intros x Hx; rewrite (line_start s h y) by lia;
    f_equal; lia.
Qed.

Lemma bgr_dimensions (b : camera_buffer_t) :
  frametype b = CAMERA_FRAMETYPE_BGR8888 →
  dimensions b = (width (framedesc b), height (framedesc b), stride (framedesc b)).
Proof. intros Hft. unfold dimensions. by rewrite Hft. Qed.

Lemma ycbycr_dimensions (b : camera_buffer_t) :
  frametype b = CAMERA_FRAMETYPE_YCBYCR →
  dimensions b = (width (framedesc b), height (framedesc b), stride (framedesc b)).
Proof. intros Hft. unfold dimensions. by rewrite Hft. Qed.

Lemma cbycry_dimensions (b : camera_buffer_t) :
  frametype b = CAMERA_FRAMETYPE_CBYCRY →
  dimensions b = (width (framedesc b), height (framedesc b), stride (framedesc b)).
Proof. intros Hft. unfold dimensions. by rewrite Hft. Qed.

(** The exact channel averages of a BGR8888 frame: channel [c] reads the
    bytes at offset [2 - c]. *)
Lemma bgr8888_averages (b : camera_buffer_t) :
  wf_buffer b → frametype b = CAMERA_FRAMETYPE_BGR8888 →
  4 * width (framedesc b) < 2 ^ 32 →
  width (framedesc b) * height (framedesc b) < 2 ^ 32 →
  (height (framedesc b) - 1) * stride (framedesc b) < 2 ^ 32 →
  channel_averages (D := Q) b
  = Some [channel_mean b (width (framedesc b)) 4 2
            (width (framedesc b) * height (framedesc b));
          channel_mean b (width (framedesc b)) 4 1
            (width (framedesc b) * height (framedesc b));
          channel_mean b (width (framedesc b)) 4 0
            (width (framedesc b) * height (framedesc b))].
Proof.
  intros (Hw & Hh & Hs) Hft H4w Hwh Hline.
  unfold channel_averages. rewrite (bgr_dimensions b Hft), Hft. cbv zeta.
  set (w := width (framedesc b)) in *. set (h := height (framedesc b)) in *.
  set (s := stride (framedesc b)) in *. set (fb := framebuf b).
  rewrite (u32_small (w * h)) by nia.
  change (replicate (Z.to_nat NUM_CHANNELS) d_zero) with (qacc 0 0 0).
  pose proof (rows_loop fb (λ i, i mod 4 =? 3)
                (λ i, u32 (u32 (u32 (u32 (4 * w) - i) + 3) mod 4 - 1))
                (λ y, u32 (y * s)) h (u32 (4 * w)) ltac:(lia)) as Hloop.
  cbv beta in Hloop. rewrite Hloop.
  2:{ unfold u32. apply Z.mod_pos_bound. lia. }
  2:{ intros i Hi _. unfold u32 at 1. apply Z.mod_pos_bound. lia. }
  rewrite divide_all. unfold channel_mean, frame_sum. fold w h s fb.
  assert (Hpick : ∀ y c, 0 ≤ y < h → 0 ≤ c < 3 →
            picked_sum (u32 (4 * w))
              (λ i, if i mod 4 =? 3 then 3
                    else u32 (u32 (u32 (u32 (4 * w) - i) + 3) mod 4 - 1)) c
              (λ i, rd fb (u32 (y * s) + i))
            = big_sum w (λ x, rd fb (y * s + 4 * x + (2 - c)))).
  { intros y c Hy Hc. rewrite (u32_small (4 * w)) at 1 by lia.
    rewrite (picked_sum_ext (4 * w) c _
               (λ i, if i mod 4 =? 3 then 3 else 2 - i mod 4) _
               (λ i, rd fb (y * s + i))).
    - rewrite picked_bgr by lia. apply big_sum_ext. intros x Hx. f_equal. lia.
    - intros i Hi. split.
      + destruct (Z.eqb_spec (i mod 4) 3); [done|]. by apply bgr_channel.
      + rewrite (line_start s h y) by lia; reflexivity. }
  f_equal. f_equal; [|f_equal; [|f_equal]]; f_equal; f_equal;
    apply big_sum_ext; intros y Hy; rewrite Hpick by lia; reflexivity.
Qed.

(** The exact channel averages of a YCbYCr frame: luma at the even bytes,
    Cb at bytes 1 mod 4, Cr at bytes 3 mod 4. *)
Lemma ycbycr_averages (b : camera_buffer_t) :
  wf_buffer b → frametype b = CAMERA_FRAMETYPE_YCBYCR →
  2 * width (framedesc b) < 2 ^ 32 →
  width (framedesc b) * height (framedesc b) < 2 ^ 32 →
  (height (framedesc b) - 1) * stride (framedesc b) < 2 ^ 32 →
  channel_averages (D := Q) b
  = Some [channel_mean b (width (framedesc b)) 2 0
            (width (framedesc b) * height (framedesc b));
          channel_mean b ((width (framedesc b) + 1) / 2) 4 1
            (width (framedesc b) / 2 * height (framedesc b));
          channel_mean b (width (framedesc b) / 2) 4 3
            (width (framedesc b) / 2 * height (framedesc b))].
Proof.
  intros (Hw & Hh & Hs) Hft H2w Hwh Hline.
  unfold channel_averages. rewrite (ycbycr_dimensions b Hft), Hft. cbv zeta.
  set (w := width (framedesc b)) in *. set (h := height (framedesc b)) in *.
  set (s := stride (framedesc b)) in *. set (fb := framebuf b).
  assert (Hhalf : 0 ≤ w / 2 * h < 2 ^ 32).
  { assert (0 ≤ w / 2 ≤ w) by (Z.div_mod_to_equations; lia). nia. }
  rewrite (u32_small (2 * w)), (u32_small (w * h)), (u32_small (w / 2 * h)) by nia.
  change (replicate (Z.to_nat NUM_CHANNELS) d_zero) with (qacc 0 0 0).
  pose proof (rows_loop fb (λ _, false)
                (λ i, if i mod 2 =? 1 then u32 (u32 (i - 1) mod 4 / 2 + 1)
                      else i mod 2)
                (λ y, u32 (y * s)) h (2 * w) ltac:(lia) ltac:(lia)) as Hloop.
  cbv beta iota in Hloop. rewrite Hloop.
  2:{ intros i Hi _. rewrite ycbycr_channel by lia.
      destruct (i mod 2 =? 1); Z.div_mod_to_equations; lia. }
  unfold channel_mean, frame_sum. fold w h s fb.
  assert (Hpick : ∀ y c, 0 ≤ y < h →
            picked_sum (2 * w)
              (λ i, if i mod 2 =? 1 then u32 (u32 (i - 1) mod 4 / 2 + 1)
                    else i mod 2) c
              (λ i, rd fb (u32 (y * s) + i))
            = picked_sum (2 * w)
                (λ i, if i mod 2 =? 1 then (i - 1) mod 4 / 2 + 1 else 0) c
                (λ i, rd fb (y * s + i))).
  { intros y c Hy. apply picked_sum_ext. intros i Hi. split.
    - apply ycbycr_channel. lia.
    - rewrite (line_start s h y) by lia; reflexivity. }
  unfold divide. simpl.
  f_equal. f_equal; [|f_equal; [|f_equal]]; f_equal; f_equal;
    apply big_sum_ext; intros y Hy; rewrite Hpick by lia;
    destruct (picked_ycbycr w (λ i, rd fb (y * s + i)) (proj1 Hw)) as (P0 & P1 & P2);
    rewrite ?P0, ?P1, ?P2; apply big_sum_ext; intros x Hx; f_equal; lia.
Qed.

(** The exact channel averages of a CbYCrY frame: luma at the odd bytes,
    Cb at bytes 0 mod 4, Cr at bytes 2 mod 4. *)
Lemma cbycry_averages (b : camera_buffer_t) :
  wf_buffer b → frametype b = CAMERA_FRAMETYPE_CBYCRY →
  2 * width (framedesc b) < 2 ^ 32 →
  width (framedesc b) * height (framedesc b) < 2 ^ 32 →
  (height (framedesc b) - 1) * stride (framedesc b) < 2 ^ 32 →
  channel_averages (D := Q) b
  = Some [channel_mean b (width (framedesc b)) 2 1
            (width (framedesc b) * height (framedesc b));
          channel_mean b ((width (framedesc b) + 1) / 2) 4 0
            (width (framedesc b) / 2 * height (framedesc b));
          channel_mean b (width (framedesc b) / 2) 4 2
            (width (framedesc b) / 2 * height (framedesc b))].
Proof.
  intros (Hw & Hh & Hs) Hft H2w Hwh Hline.
  unfold channel_averages. rewrite (cbycry_dimensions b Hft), Hft. cbv zeta.
  set (w := width (framedesc b)) in *. set (h := height (framedesc b)) in *.
  set (s := stride (framedesc b)) in *. set (fb := framebuf b).
  assert (Hhalf : 0 ≤ w / 2 * h < 2 ^ 32).
  { assert (0 ≤ w / 2 ≤ w) by (Z.div_mod_to_equations; lia). nia. }
  rewrite (u32_small (2 * w)), (u32_small (w * h)), (u32_small (w / 2 * h)) by nia.
  change (replicate (Z.to_nat NUM_CHANNELS) d_zero) with (qacc 0 0 0).
  pose proof (rows_loop fb (λ _, false)
                (λ i, if u32 (i + 1) mod 2 =? 1 then u32 (u32 (i + 1) mod 4 + 1) / 2
                      else u32 (i + 1) mod 2)
                (λ y, u32 (y * s)) h (2 * w) ltac:(lia) ltac:(lia)) as Hloop.
  cbv beta iota in Hloop. rewrite Hloop.
  2:{ intros i Hi _. rewrite cbycry_channel by lia.
      destruct (i mod 2 =? 0); Z.div_mod_to_equations; lia. }
  unfold channel_mean, frame_sum. fold w h s fb.
  assert (Hpick : ∀ y c, 0 ≤ y < h →
            picked_sum (2 * w)
              (λ i, if u32 (i + 1) mod 2 =? 1 then u32 (u32 (i + 1) mod 4 + 1) / 2
                    else u32 (i + 1) mod 2) c
              (λ i, rd fb (u32 (y * s) + i))
            = picked_sum (2 * w)
                (λ i, if i mod 2 =? 0 then (i mod 4 + 2) / 2 else 0) c
                (λ i, rd fb (y * s + i))).
  { intros y c Hy. apply picked_sum_ext. intros i Hi. split.
    - apply cbycry_channel. lia.
    - rewrite (line_start s h y) by lia; reflexivity. }
  unfold divide. simpl.
  f_equal. f_equal; [|f_equal; [|f_equal]]; f_equal; f_equal;
    apply big_sum_ext; intros y Hy; rewrite Hpick by lia;
    destruct (picked_cbycry w (λ i, rd fb (y * s + i)) (proj1 Hw)) as (P0 & P1 & P2);
    rewrite ?P0, ?P1, ?P2; apply big_sum_ext; intros x Hx; f_equal; lia.
Qed.





(** * Names and objects along a run *)

Local Opaque shm_open ftruncate memcpy.

(** What the ring store does once the oldest frame is out of the way. *)
Lemma store_frame_spec (env : Env) (b : camera_buffer_t) (size : Z) (st : State)
    (hist : list camera_buffer_t) :
  store_inv st hist →
  shm_ext (frame_shm_name (ring_index (evict_oldest st).1
                             (buffer_count (evict_oldest st).1)))
          (shm (evict_oldest st).1) (shm (store_frame env b size st).1)
  ∧ buffer_head (store_frame env b size st).1 = buffer_head (evict_oldest st).1
  ∧ (ring_open_ok env = true →
     is_Some (shm_names (shm (store_frame env b size st).1)
                !! frame_shm_name (ring_index (evict_oldest st).1
                                     (buffer_count (evict_oldest st).1))))
  ∧ (stores env = true →
     buffer_count (store_frame env b size st).1
     = buffer_count (evict_oldest st).1 + 1
     ∧ ∃ fd,
         shm_names (shm (store_frame env b size st).1)
           !! frame_shm_name (ring_index (evict_oldest st).1
                                (buffer_count (evict_oldest st).1)) = Some fd
         ∧ frame_buffer (store_frame env b size st).1
           = <[Z.to_nat (ring_index (evict_oldest st).1
                           (buffer_count (evict_oldest st).1)) :=
                {| f_frametype := frametype b; f_framedesc := framedesc b;
                   f_shm_name := Some (frame_shm_name
                                         (ring_index (evict_oldest st).1
                                            (buffer_count (evict_oldest st).1)));
                   f_mapped_data := Map fd; f_data_size := size |}]>
               (frame_buffer (evict_oldest st).1))
  ∧ (stores env = false →
     buffer_count (store_frame env b size st).1 = buffer_count (evict_oldest st).1
     ∧ frame_buffer (store_frame env b size st).1
       = frame_buffer (evict_oldest st).1).
Proof.
  intros Hinv0. unfold store_frame, stores.
  destruct (store_inv_evict st hist Hinv0) as [Hinv Hroom].
  destruct (evict_oldest st) as [st1 ev]. simpl in Hinv, Hroom. simpl.
  assert (Hidx : Z.rem (buffer_head st1 + buffer_count st1) MAX_FRAMES
                 = ring_index st1 (buffer_count st1)).
  { apply rem_MAX_FRAMES. destruct Hinv. lia. }
  rewrite Hidx.
  set (name := frame_shm_name (ring_index st1 (buffer_count st1))).
  destruct (ring_open_ok env) eqn:Hopen.
  2:{ rewrite shm_open_fail. simpl. split_and!; try done. apply shm_ext_refl. }
  destruct (shm_open_ok name (shm st1)) as (fd & Heq & Hfd). rewrite Heq.
  pose proof (shm_open_ext name true (shm st1)) as Hext1.
  set (s1 := (shm_open name true (shm st1)).2) in *.
  assert (Hext2 : shm_ext name (shm st1) (ftruncate fd size true s1)).
  { eapply shm_ext_trans; [exact Hext1|]. by apply ftruncate_ext. }
  assert (Hext3 : shm_ext name (shm st1)
                    (memcpy (Map fd) (framebuf b) size (ftruncate fd size true s1))).
  { eapply shm_ext_trans; [exact Hext2|]. by apply memcpy_ext. }
  destruct (ring_trunc_ok env) eqn:Htr.
  2:{ simpl. split_and!; try done; intros _; by exists fd. }
  destruct (ring_map_ok env) eqn:Hmap; simpl.
  - split_and!; try done; intros _; try (by exists fd).
    split; [done|]. by exists fd.
  - split_and!; try done; intros _; by exists fd.
Qed.

Local Transparent shm_open ftruncate memcpy.

Lemma evict_oldest_shm (st : State) (hist : list camera_buffer_t) :
  store_inv st hist →
  shm (evict_oldest st).1
  = (if buffer_count st =? MAX_FRAMES
     then shm_unlink (Some (frame_shm_name (buffer_head st))) (shm st)
     else shm st)
  ∧ frame_buffer (evict_oldest st).1 = frame_buffer st
  ∧ buffer_head (evict_oldest st).1
    = (if buffer_count st =? MAX_FRAMES
       then (buffer_head st + 1) mod MAX_FRAMES else buffer_head st)
  ∧ buffer_count (evict_oldest st).1
    = (if buffer_count st =? MAX_FRAMES then buffer_count st - 1 else buffer_count st)
  ∧ latest_mapped (evict_oldest st).1 = latest_mapped st
  ∧ latest_shm_name (evict_oldest st).1 = latest_shm_name st.
Proof.
  intros Hinv.
  destruct (Z.eqb_spec (buffer_count st) MAX_FRAMES) as [Hfull | Hnot].
  - rewrite (evict_oldest_full st (inv_head _ _ Hinv) Hfull). simpl.
    destruct (inv_slot _ _ Hinv 0 ltac:(destruct Hinv; lia))
      as (o & b & _ & _ & _ & Hname & _).
    rewrite Hname, (ring_index_0 st (inv_head _ _ Hinv)).
    rewrite rem_MAX_FRAMES by (destruct Hinv; lia). done.
  - by rewrite evict_oldest_not_full.
Qed.

Lemma known_ring_name (i : Z) : 0 ≤ i < MAX_FRAMES → known_name (frame_shm_name i).
Proof. intros Hi. right; right. by exists i. Qed.

Lemma store_frame_latest (env : Env) (b : camera_buffer_t) (size : Z) (st : State) :
  latest_mapped (store_frame env b size st).1 = latest_mapped st
  ∧ latest_shm_name (store_frame env b size st).1 = latest_shm_name st
  ∧ latest_size (store_frame env b size st).1 = latest_size st
  ∧ metadata_mapped (store_frame env b size st).1 = metadata_mapped st.
Proof.
  unfold store_frame.
  assert (He : latest_mapped (evict_oldest st).1 = latest_mapped st
               ∧ latest_shm_name (evict_oldest st).1 = latest_shm_name st
               ∧ latest_size (evict_oldest st).1 = latest_size st
               ∧ metadata_mapped (evict_oldest st).1 = metadata_mapped st).
  { unfold evict_oldest. by destruct (buffer_count st =? MAX_FRAMES). }
  destruct (evict_oldest st) as [st1 ev]. simpl in He.
  destruct He as (<- & <- & <- & <-).
  destruct (shm_open _ _ _) as [[fd|] s1]; [|done].
  destruct (ring_trunc_ok env); [|done].
  by destruct (decide _).
Qed.

(** A block that leaves the ring's fields alone and touches shared memory
    only under one of the known names, which no live slot carries. *)
Lemma site_inv_frame (st st' : State) (hist : list camera_buffer_t) (name : string) :
  site_inv st hist →
  frame_buffer st' = frame_buffer st →
  buffer_head st' = buffer_head st →
  buffer_count st' = buffer_count st →
  shm_ext name (shm st) (shm st') → known_name name →
  (∀ k, 0 ≤ k < buffer_count st → frame_shm_name (ring_index st k) ≠ name) →
  (latest_mapped st' ≠ NULL → latest_shm_name st' = Some "/camera_latest"%string) →
  site_inv st' hist.
Proof.
  intros [Hlive Hknown Hlat Hnext] Hfb Hh Hc [EL EN EO EB] Hname Hfree Hlat'.
  split; auto.
  - intros k Hk. rewrite Hc in Hk. destruct (Hlive k Hk) as (o & Hmap & Hres).
    exists o. unfold slot, ring_index in *. rewrite Hfb, Hh.
    split; [done|]. rewrite EN; [done|]. by apply Hfree.
  - intros n o Hn. destruct (decide (n = name)) as [-> | Hne]; [done|].
    rewrite EN in Hn by done. eauto.
  - by rewrite Hh, Hc.
Qed.

Lemma site_inv_evict (st : State) (hist : list camera_buffer_t) :
  store_inv st hist → site_inv st hist → site_inv (evict_oldest st).1 hist.
Proof.
  intros Hinv [Hlive Hknown Hlat Hnext].
  destruct (evict_oldest_shm st hist Hinv) as (Hs & Hfb & Hh & Hc & Hlm & Hln).
  pose proof (inv_head _ _ Hinv) as Hhead.
  pose proof (inv_count _ _ Hinv) as Hcount.
  destruct (Z.eqb_spec (buffer_count st) MAX_FRAMES) as [Hfull | Hnot].
  - assert (Hidx : ∀ k, ring_index (evict_oldest st).1 k = ring_index st (k + 1)).
    { intros k. unfold ring_index. rewrite Hh.
      rewrite Z.add_mod_idemp_l by done. f_equal. lia. }
    split.
    + intros k Hk. rewrite Hc in Hk.
      destruct (Hlive (k + 1) ltac:(lia)) as (o & Hmap & Hres).
      exists o. unfold slot. rewrite Hidx, Hfb. split; [done|].
      rewrite Hs. simpl. rewrite lookup_delete_ne; [done|].
      intros Heq. apply frame_shm_name_inj in Heq; try apply ring_index_range;
        [|unfold MAX_FRAMES in *; lia].
      rewrite <- (ring_index_0 st Hhead) in Heq.
      apply ring_index_inj in Heq; unfold MAX_FRAMES in *; lia.
    + intros n o Hn. rewrite Hs in Hn. simpl in Hn.
      apply lookup_delete_Some in Hn as [_ Hn]. eauto.
    + by rewrite Hlm, Hln.
    + rewrite Hh, Hc, <- Hnext. rewrite Z.add_mod_idemp_l by done. f_equal. lia.
  - split.
    + intros k Hk. rewrite Hc in Hk. destruct (Hlive k Hk) as (o & Hmap & Hres).
      exists o. unfold slot, ring_index in *. by rewrite Hfb, Hh, Hs.
    + intros n o Hn. rewrite Hs in Hn. eauto.
    + by rewrite Hlm, Hln.
    + by rewrite Hh, Hc.
Qed.

Lemma site_inv_store (env : Env) (b : camera_buffer_t) (st : State)
    (hist : list camera_buffer_t) :
  store_inv st hist → site_inv st hist →
  site_inv (store_frame env b (get_frame_size b) st).1
           (if stores env then hist ++ [b] else hist).
Proof.
  intros Hinv0 Hsite0.
  destruct (store_frame_spec env b (get_frame_size b) st hist Hinv0)
    as (Hext & Hh & _ & Hok & Hfail).
  destruct (store_frame_latest env b (get_frame_size b) st) as (Hlm & Hln & _).
  destruct (store_inv_evict st hist Hinv0) as [Hinv Hroom].
  pose proof (site_inv_evict st hist Hinv0 Hsite0) as Hsite.
  destruct (evict_oldest_shm st hist Hinv0) as (_ & _ & _ & _ & Hlm1 & Hln1).
  set (st1 := (evict_oldest st).1) in *.
  set (st' := (store_frame env b (get_frame_size b) st).1) in *.
  set (idx := ring_index st1 (buffer_count st1)) in *.
  pose proof (ring_index_range st1 (buffer_count st1)) as Hidx. fold idx in Hidx.
  assert (Hfree : ∀ k, 0 ≤ k < buffer_count st1 →
                    frame_shm_name (ring_index st1 k) ≠ frame_shm_name idx).
  { intros k Hk Heq. apply frame_shm_name_inj in Heq; try apply ring_index_range.
    apply ring_index_inj in Heq; destruct Hinv; unfold MAX_FRAMES in *; lia. }
  assert (Hlat' : latest_mapped st' ≠ NULL →
                  latest_shm_name st' = Some "/camera_latest"%string).
  { rewrite Hlm, Hln, <- Hlm1, <- Hln1. apply Hsite. }
  destruct (stores env) eqn:Hst.
  - destruct (Hok eq_refl) as (Hc & fd & Hfd & Hfb).
    destruct Hsite as [Hlive Hknown Hlat Hnext]. destruct Hext as [EL EN EO EB].
    split; auto.
    + intros k Hk. rewrite Hc in Hk. unfold slot, ring_index. rewrite Hfb, Hh.
      fold (ring_index st1 k).
      destruct (decide (k = buffer_count st1)) as [-> | Hne].
      * exists fd. fold idx.
        rewrite list_lookup_total_insert_eq
          by (rewrite (inv_len _ _ Hinv); lia).
        done.
      * destruct (Hlive k ltac:(lia)) as (o & Hmap & Hres). exists o.
        rewrite list_lookup_total_insert_ne.
        2:{ intros Heq. apply Z2Nat.inj in Heq; try lia;
              [|pose proof (ring_index_range st1 k); lia].
            apply ring_index_inj in Heq; destruct Hinv; unfold MAX_FRAMES in *; lia. }
        split; [done|]. rewrite EN; [done|]. apply Hfree. lia.
    + intros n o Hn.
      destruct (decide (n = frame_shm_name idx)) as [-> | Hne].
      * apply known_ring_name. unfold MAX_FRAMES. lia.
      * rewrite EN in Hn by done. eauto.
    + rewrite Hh, Hc, length_app. simpl.
      replace (buffer_head st1 + (buffer_count st1 + 1))
        with (buffer_head st1 + buffer_count st1 + 1) by lia.
      rewrite <- Z.add_mod_idemp_l, Hnext, Z.add_mod_idemp_l by done.
      f_equal. lia.
  - destruct (Hfail eq_refl) as (Hc & Hfb).
    apply (site_inv_frame st1 st' hist (frame_shm_name idx)); auto.
    apply known_ring_name. unfold MAX_FRAMES. lia.
Qed.

(** One callback keeps what readers rely on. *)
Lemma processCameraData_site (env : Env) (b : camera_buffer_t) (st : State)
    (hist : list camera_buffer_t) :
  store_inv st hist → site_inv st hist →
  site_inv (processCameraData env b st).1
           (if stores env then hist ++ [b] else hist).
Proof.
  intros Hinv Hsite. unfold processCameraData.
  pose proof (store_frame_inv env b st hist Hinv) as H1.
  pose proof (site_inv_store env b st hist Hinv Hsite) as S1.
  destruct (store_frame env b (get_frame_size b) st) as [st1 ev1].
  simpl in H1, S1.
  destruct (update_latest_frame env b st1) as (F1 & F2 & F3 & _ & F5 & F6).
  destruct (update_latest env b st1) as [st2 ev2]. simpl in *.
  destruct (update_latest_name_frame env (update_metadata b (get_frame_size b) st2))
    as (G1 & G2 & G3 & _ & G5 & G6 & G7).
  destruct (update_latest_name env _) as [st4 ev4]. simpl in *.
  assert (Hmd : ∀ st0, update_metadata b (get_frame_size b) st0
                       = set_metadata (metadata_mapped
                                         (update_metadata b (get_frame_size b) st0)) st0).
  { intros st0. unfold update_metadata. by destruct (frametype b). }
  rewrite Hmd in G1, G2, G3, G5, G6, G7. simpl in *.
  assert (S2 : site_inv st2 (if stores env then hist ++ [b] else hist)).
  { apply (site_inv_frame st1 st2 _ "/camera_latest").
    - exact S1.
    - exact F1.
    - exact F2.
    - exact F3.
    - apply F6, (inv_latest _ _ H1).
    - by left.
    - intros k _. apply frame_shm_name_not_latest, ring_index_range.
    - intros _. exact F5. }
  apply (site_inv_frame st2 st4 _ "/camera_latest_name").
  - exact S2.
  - exact G1.
  - exact G2.
  - exact G3.
  - exact G7.
  - right. by left.
  - intros k _. apply frame_shm_name_not_latest, ring_index_range.
  - intros _. by rewrite G5.
Qed.

Lemma initial_state_site : site_inv initial_state [].
Proof.
  split; simpl;
    [intros k Hk; lia | intros n o Hn; by rewrite lookup_empty in Hn | done | done].
Qed.

Lemma run_site (ds : list (Env * camera_buffer_t)) (st : State)
    (hist : list camera_buffer_t) :
  store_inv st hist → site_inv st hist →
  site_inv (run ds st).1 (hist ++ pushed ds).
Proof.
  revert st hist. induction ds as [|[env b] ds IH]; intros st hist Hinv Hsite; simpl.
  - by rewrite app_nil_r.
  - pose proof (processCameraData_inv env b st hist Hinv) as H1.
    pose proof (processCameraData_site env b st hist Hinv Hsite) as S1.
    destruct (processCameraData env b st) as [st1 ev1]. simpl in H1, S1.
    specialize (IH st1 _ H1 S1).
    destruct (run ds st1) as [st2 ev2]. simpl in *.
    destruct (stores env); [|done].
    by rewrite <- app_assoc in IH.
Qed.

Lemma reachable_site (ds : list (Env * camera_buffer_t)) :
  site_inv (run ds initial_state).1 (pushed ds).
Proof.
  apply (run_site ds initial_state []);
    [apply initial_state_inv | apply initial_state_site].
Qed.

(** * The start-up check and the callback's switch *)

Lemma unsupportedFrametype_spec (ft : camera_frametype_t) :
  unsupportedFrametype ft = false ↔ ft ∈ cSupportedFrametypes.
Proof.
  rewrite supported_cases.
  destruct ft; vm_compute; split; try done; try tauto;
    intros [? | [? | [? | ?]]]; done.
Qed.

Lemma channel_averages_none {D : Type} `{DoubleOps D} (b : camera_buffer_t) :
  channel_averages (D := D) b = None ↔ frametype b ∉ cSupportedFrametypes.
Proof.
  rewrite supported_cases. unfold channel_averages.
  destruct (dimensions b) as [[w h] s].
  destruct (frametype b); split; intros Hn; try done;
    try (exfalso; apply Hn; tauto); intuition congruence.
Qed.

(** X1.  The layout check of [main] (lines 240-246), the table
    [cSupportedFrametypes] and the [switch] statements of the callback agree:
    the check lets through exactly the layouts of the table, and a layout it
    would refuse is one for which the callback computes no averages, prints
    the unsupported-layout report, and uses size 0 and dimensions 0. *)
Theorem startup_check_matches_callback (b : camera_buffer_t) :
  (unsupportedFrametype (frametype b) = false ↔ frametype b ∈ cSupportedFrametypes)
  ∧ (unsupportedFrametype (frametype b) = true
     ↔ channel_averages (D := float) b = None)
  ∧ (unsupportedFrametype (frametype b) = true
     ↔ statistics b = [EvPrintUnsupported (frametype b)])
  ∧ (unsupportedFrametype (frametype b) = true
     → get_frame_size b = 0 ∧ dimensions b = (0, 0, 0)).
Proof.
  pose proof (unsupportedFrametype_spec (frametype b)) as Hs.
  assert (Hu : unsupportedFrametype (frametype b) = true
               ↔ frametype b ∉ cSupportedFrametypes).
  { rewrite <- Hs. destruct (unsupportedFrametype (frametype b)); split; congruence. }
  split_and!.
  - exact Hs.
  - by rewrite Hu, channel_averages_none.
  - rewrite Hu, <- (channel_averages_none (D := float)). unfold statistics.
    destruct (channel_averages b); split; congruence.
  - intros Ht. apply Hu in Ht. split.
    + by apply unsupported_frame_size.
    + by apply unsupported_dimensions.
Qed.

(** * Runs, one delivery at a time *)

Lemma run_app (ds1 ds2 : list (Env * camera_buffer_t)) (st : State) :
  run (ds1 ++ ds2) st
  = ((run ds2 (run ds1 st).1).1, (run ds1 st).2 ++ (run ds2 (run ds1 st).1).2).
Proof.
  revert st. induction ds1 as [|[env b] ds1 IH]; intros st; simpl.
  - by destruct (run ds2 st).
  - destruct (processCameraData env b st) as [st1 ev1]. rewrite IH.
    destruct (run ds1 st1) as [st2 ev2]. simpl. by rewrite app_assoc.
Qed.

Lemma run_snoc (ds : list (Env * camera_buffer_t)) (env : Env)
    (b : camera_buffer_t) (st : State) :
  (run (ds ++ [(env, b)]) st).1 = (processCameraData env b (run ds st).1).1.
Proof.
  rewrite run_app. simpl. by destruct (processCameraData env b _).
Qed.

(** X2.  Whatever the earlier deliveries were and whichever system calls
    fail, after a delivery the metadata record describes that delivery: its
    tag, the width and height the later stages use for it, and its byte
    size. *)
Theorem metadata_describes_last_delivery (ds : list (Env * camera_buffer_t))
    (env : Env) (b : camera_buffer_t) (st : State) :
  metadata_mapped (run (ds ++ [(env, b)]) st).1
  = {| md_frametype := frametype b;
       md_width := (dimensions b).1.1;
       md_height := (dimensions b).1.2;
       md_size := get_frame_size b |}.
Proof.
  rewrite run_snoc, processCameraData_metadata.
  unfold update_metadata, dimensions. by destruct (frametype b).
Qed.

(** * The stages after shared memory *)

Lemma later_stages_app (ev1 ev2 : list event) :
  later_stages (ev1 ++ ev2) = later_stages ev1 ++ later_stages ev2.
Proof. apply filter_app. Qed.

Lemma later_stages_shm (ev : list event) :
  Forall (λ e, is_shm_event e = true) ev → later_stages ev = [].
Proof.
  unfold later_stages. induction 1 as [|e ev He _ IH]; [done|].
  rewrite filter_cons, IH. destruct (decide _); congruence.
Qed.

Lemma later_stages_other (ev : list event) :
  Forall (λ e, is_shm_event e = false) ev → later_stages ev = ev.
Proof.
  unfold later_stages. induction 1 as [|e ev He _ IH]; [done|].
  rewrite filter_cons, IH. destruct (decide _); congruence.
Qed.

Lemma encode_and_send_not_shm (env : Env) (b : camera_buffer_t) :
  Forall (λ e, is_shm_event e = false) (encode_and_send env b).
Proof.
  unfold encode_and_send. destruct (dimensions b) as [[w h] s].
  destruct (_ && _); [|constructor].
  destruct (malloc_ok env); [|by repeat constructor].
  destruct (compress_to_jpeg _ _ _ _) as [[data|] size]; by repeat constructor.
Qed.

Lemma statistics_not_shm (b : camera_buffer_t) :
  Forall (λ e, is_shm_event e = false) (statistics b).
Proof.
  unfold statistics. destruct (channel_averages b); by repeat constructor.
Qed.

(** X3.  What a run does after its shared-memory calls depends on the
    deliveries alone: for each delivery, in order, the encode-and-send steps
    followed by the statistics report, whatever the state of the ring and
    whichever shared-memory calls fail. *)
Theorem later_stages_of_run (ds : list (Env * camera_buffer_t)) (st : State) :
  later_stages (run ds st).2
  = mjoin ((λ d, encode_and_send d.1 d.2 ++ statistics d.2) <$> ds).
Proof.
  revert st. induction ds as [|[env b] ds IH]; intros st; simpl; [done|].
  destruct (processCameraData_trace env b st) as (ev & Hshm & Heq).
  destruct (processCameraData env b st) as [st1 ev1]. simpl in Heq. subst ev1.
  specialize (IH st1). destruct (run ds st1) as [st2 ev2]. simpl in *.
  rewrite !later_stages_app, IH, (later_stages_shm ev Hshm).
  rewrite (later_stages_other _ (encode_and_send_not_shm env b)).
  rewrite (later_stages_other _ (statistics_not_shm b)).
  simpl. by rewrite <- ?app_assoc.
Qed.

(** * Stored bytes and the stride *)



(** * What a reader of the shared segments finds *)

(** X5.  The slot [get_latest_frame] designates is a function of the number
    of frames stored so far: after [n] successful stores it is slot
    [(n - 1) mod MAX_FRAMES], whatever failures lie in between. *)
Theorem newest_slot_counts_stores (ds : list (Env * camera_buffer_t)) :
  pushed ds ≠ [] →
  get_latest_frame (run ds initial_state).1
  = Some ((Z.of_nat (length (pushed ds)) - 1) mod MAX_FRAMES).
Proof.
  intros Hne.
  pose proof (reachable_inv ds) as Hinv. pose proof (reachable_site ds) as Hsite.
  pose proof (run_count_lower ds initial_state []) as Hlow. simpl in Hlow.
  specialize (Hlow ltac:(lia)).
  assert (0 < length (pushed ds))%nat by (destruct (pushed ds); [done | simpl; lia]).
  destruct Hinv as [_ Hhead Hcount _ _ _ _ _]. destruct Hsite as [_ _ _ Hnext].
  set (st := (run ds initial_state).1) in *.
  unfold get_latest_frame.
  destruct (Z.eqb_spec (buffer_count st) 0) as [H0 | H0]; [lia|].
  f_equal. rewrite rem_MAX_FRAMES by lia.
  replace (buffer_head st + buffer_count st - 1)
    with (buffer_head st + buffer_count st + (-1)) by lia.
  rewrite <- Z.add_mod_idemp_l, Hnext, Z.add_mod_idemp_l by done.
  f_equal; lia.
Qed.

Lemma newest_slot_counts_stores_witness :
  get_latest_frame (run seven_deliveries initial_state).1
  = Some ((Z.of_nat (length (pushed seven_deliveries)) - 1) mod MAX_FRAMES).
Proof. apply newest_slot_counts_stores. vm_compute. congruence. Defined.



(** X7.  The callback populates a closed name space: along any run a name
    that resolves is [/camera_latest], [/camera_latest_name] or one of the
    [MAX_FRAMES] ring names, it resolves to an object that exists, and no
    two names share an object. *)
Theorem shared_names_closed (ds : list (Env * camera_buffer_t)) (n : string) (o : nat) :
  shm_names (shm (run ds initial_state).1) !! n = Some o →
  known_name n
  ∧ (o < length (shm_objs (shm (run ds initial_state).1)))%nat
  ∧ ∀ n', shm_names (shm (run ds initial_state).1) !! n' = Some o → n' = n.
Proof.
  intros Hn. split_and!.
  - exact (site_known _ _ (reachable_site ds) n o Hn).
  - exact (inv_bound _ _ (reachable_inv ds) n o Hn).
  - intros n' Hn'. exact (inv_inj _ _ (reachable_inv ds) n' n o Hn' Hn).
Qed.

Lemma shared_names_closed_witness :
  known_name "/camera_latest"
  ∧ (14 < length (shm_objs (shm (run seven_deliveries initial_state).1)))%nat
  ∧ ∀ n', shm_names (shm (run seven_deliveries initial_state).1) !! n' = Some 14%nat →
          n' = "/camera_latest"%string.
Proof.
  apply (shared_names_closed seven_deliveries "/camera_latest" 14). reflexivity.
Defined.

(** * Publication of the latest frame and of its name *)

Lemma ftruncate_names (fd : nat) (len : Z) (ok : bool) (s : Shm) :
  shm_names (ftruncate fd len ok s) = shm_names s.
Proof. unfold ftruncate. by destruct ok. Qed.

Lemma memcpy_names (p : ptr) (src : list Z) (n : Z) (s : Shm) :
  shm_names (memcpy p src n s) = shm_names s.
Proof. unfold memcpy. by destruct p. Qed.

Lemma processCameraData_unfold (env : Env) (b : camera_buffer_t) (st : State) :
  (processCameraData env b st).1
  = (update_latest_name env
       (update_metadata b (get_frame_size b)
          (update_latest env b (store_frame env b (get_frame_size b) st).1).1)).1.
Proof.
  unfold processCameraData.
  destruct (store_frame env b (get_frame_size b) st) as [st1 ev1]. simpl.
  destruct (update_latest env b st1) as [st2 ev2]. simpl.
  by destruct (update_latest_name env _).
Qed.

Lemma update_metadata_fields (b : camera_buffer_t) (size : Z) (st : State) :
  frame_buffer (update_metadata b size st) = frame_buffer st
  ∧ buffer_head (update_metadata b size st) = buffer_head st
  ∧ buffer_count (update_metadata b size st) = buffer_count st
  ∧ latest_shm_name (update_metadata b size st) = latest_shm_name st
  ∧ latest_mapped (update_metadata b size st) = latest_mapped st
  ∧ latest_size (update_metadata b size st) = latest_size st
  ∧ shm (update_metadata b size st) = shm st.
Proof. unfold update_metadata. by destruct (frametype b). Qed.

Lemma update_latest_inv (env : Env) (b : camera_buffer_t) (st : State)
    (hist : list camera_buffer_t) :
  store_inv st hist → store_inv (update_latest env b st).1 hist.
Proof.
  intros Hinv.
  destruct (update_latest_frame env b st) as (F1 & F2 & F3 & _ & F5 & F6).
  apply (store_inv_frame st _ hist "/camera_latest").
  - exact Hinv.
  - exact F1.
  - exact F2.
  - exact F3.
  - by right.
  - apply F6, (inv_latest _ _ Hinv).
  - intros i Hi. by apply frame_shm_name_not_latest.
Qed.

Lemma update_metadata_inv (b : camera_buffer_t) (size : Z) (st : State)
    (hist : list camera_buffer_t) :
  store_inv st hist → store_inv (update_metadata b size st) hist.
Proof.
  intros Hinv.
  destruct (update_metadata_fields b size st) as (M1 & M2 & M3 & M4 & _ & _ & M7).
  apply (store_inv_frame st _ hist "/camera_latest").
  - exact Hinv.
  - exact M1.
  - exact M2.
  - exact M3.
  - rewrite M4. apply (inv_latest _ _ Hinv).
  - rewrite M7. apply shm_ext_refl.
  - intros i Hi. by apply frame_shm_name_not_latest.
Qed.

(** A segment opened under a name of its own, cut to [n] bytes and filled
    from [src], in a state where no live slot carries that name. *)
Lemma open_truncate_copy (st : State) (hist : list camera_buffer_t)
    (name : string) (src : list Z) (n : Z) :
  store_inv st hist →
  (∀ i, 0 ≤ i < 5 → frame_shm_name i ≠ name) →
  ∃ fd, shm_open name true (shm st) = (Some fd, (shm_open name true (shm st)).2)
        ∧ shm_names (memcpy (Map fd) src n
                       (ftruncate fd n true (shm_open name true (shm st)).2))
            !! name = Some fd
        ∧ shm_objs (memcpy (Map fd) src n
                      (ftruncate fd n true (shm_open name true (shm st)).2))
            !! fd = Some (resize (Z.to_nat n) 0 src).
Proof.
  intros Hinv Hfree.
  destruct (shm_open_ok name (shm st)) as (fd & Heq & Hfd).
  exists fd. split; [exact Heq|].
  rewrite memcpy_names, ftruncate_names. split; [exact Hfd|].
  apply truncate_copy_bytes.
  assert (Hinv1 : store_inv (set_shm (shm_open name true (shm st)).2 st) hist).
  { apply (store_inv_shm_ext st hist name); [done | apply shm_open_ext |].
    intros k _. apply Hfree, ring_index_range. }
  exact (inv_bound _ _ Hinv1 name fd Hfd).
Qed.

Local Opaque shm_open ftruncate memcpy.

Lemma update_latest_success (env : Env) (b : camera_buffer_t) (st : State)
    (hist : list camera_buffer_t) :
  store_inv st hist →
  latest_open_ok env = true → latest_trunc_ok env = true → latest_map_ok env = true →
  ∃ o, latest_mapped (update_latest env b st).1 = Map o
       ∧ shm_names (shm (update_latest env b st).1) !! "/camera_latest"%string = Some o
       ∧ shm_objs (shm (update_latest env b st).1) !! o = Some (frame_bytes b)
       ∧ latest_size (update_latest env b st).1 = get_frame_size b.
Proof.
  intros Hinv Hopen Htr Hmap. unfold update_latest.
  set (s0 := if decide (latest_mapped st = NULL) then (shm st, [])
             else (shm_unlink (latest_shm_name st) (shm st),
                   [EvMunmap (latest_mapped st) (latest_size st);
                    EvShmUnlink (latest_shm_name st)])).
  assert (Hs0 : shm_ext "/camera_latest" (shm st) s0.1).
  { unfold s0. destruct (decide (latest_mapped st = NULL)); simpl.
    - apply shm_ext_refl.
    - destruct (inv_latest _ _ Hinv) as [-> | ->];
        [apply shm_ext_refl | apply shm_unlink_ext]. }
  assert (Hinv0 : store_inv (set_shm s0.1 st) hist).
  { apply (store_inv_shm_ext st hist "/camera_latest"); [done | done |].
    intros k _. apply frame_shm_name_not_latest, ring_index_range. }
  destruct s0 as [s0 ev]. simpl in Hinv0.
  destruct (open_truncate_copy (set_shm s0 st) hist "/camera_latest"
              (framebuf b) (get_frame_size b) Hinv0) as (fd & Heq & Hn & Ho).
  { intros i Hi. by apply frame_shm_name_not_latest. }
  simpl in Heq, Hn, Ho. rewrite Hopen, Heq, Htr, Hmap. simpl.
  exists fd. by split_and!.
Qed.

Lemma update_latest_name_success (env : Env) (st : State)
    (hist : list camera_buffer_t) :
  store_inv st hist →
  name_open_ok env = true → name_trunc_ok env = true → name_map_ok env = true →
  ∃ o, shm_names (shm (update_latest_name env st).1)
         !! "/camera_latest_name"%string = Some o
       ∧ shm_objs (shm (update_latest_name env st).1) !! o
         = Some (resize 256 0 (string_bytes "/camera_latest")).
Proof.
  intros Hinv Hopen Htr Hmap. unfold update_latest_name.
  destruct (open_truncate_copy st hist "/camera_latest_name"
              (string_bytes "/camera_latest") 256 Hinv) as (fd & Heq & Hn & Ho).
  { intros i Hi. by apply frame_shm_name_not_latest. }
  rewrite Hopen, Heq, Htr, Hmap. simpl.
  exists fd. by split.
Qed.

Local Transparent shm_open ftruncate memcpy.

Lemma update_latest_name_size (env : Env) (st : State) :
  latest_size (update_latest_name env st).1 = latest_size st.
Proof.
  unfold update_latest_name.
  destruct (shm_open _ _ _) as [[fd|] s1]; [|done].
  destruct (name_trunc_ok env); [|done].
  by destruct (decide _).
Qed.

(** One callback whose three latest-frame calls succeed, from a state that
    satisfies the store invariant. *)
Lemma processCameraData_publishes (env : Env) (b : camera_buffer_t) (st : State)
    (hist : list camera_buffer_t) :
  store_inv st hist →
  latest_open_ok env = true → latest_trunc_ok env = true → latest_map_ok env = true →
  ∃ o, latest_published (processCameraData env b st).1 o
       ∧ shm_objs (shm (processCameraData env b st).1) !! o = Some (frame_bytes b)
       ∧ latest_size (processCameraData env b st).1 = get_frame_size b
       ∧ latest_shm_name (processCameraData env b st).1
         = Some "/camera_latest"%string.
Proof.
  intros Hinv Hopen Htr Hmap. rewrite processCameraData_unfold.
  pose proof (store_frame_inv env b _ _ Hinv) as H1.
  set (st1 := (store_frame env b (get_frame_size b) st).1) in *.
  pose proof (update_latest_inv env b st1 _ H1) as H2.
  destruct (update_latest_success env b st1 _ H1 Hopen Htr Hmap)
    as (o & Hp & Hn & Ho & Hsz).
  destruct (update_latest_frame env b st1) as (_ & _ & _ & _ & F5 & _).
  set (st2 := (update_latest env b st1).1) in *.
  destruct (update_metadata_fields b (get_frame_size b) st2)
    as (_ & _ & _ & M4 & M5 & M6 & M7).
  set (st3 := update_metadata b (get_frame_size b) st2) in *.
  destruct (update_latest_name_frame env st3) as (_ & _ & _ & _ & G5 & G6 & G7).
  pose proof (update_latest_name_size env st3) as G8.
  destruct G7 as [_ EN EO _].
  exists o. unfold latest_published. split_and!.
  - by rewrite G6, M5.
  - rewrite EN by done. by rewrite M7.
  - rewrite EO; rewrite M7; [done | |].
    + exact (inv_bound _ _ H2 _ _ Hn).
    + intros Hc. by pose proof (inv_inj _ _ H2 _ _ _ Hn Hc).
  - by rewrite G8, M6.
  - by rewrite G5, M4.
Qed.

(** X8.  When the three calls that publish the latest frame succeed, a
    reader finds the delivered frame: after the callback [/camera_latest]
    resolves to the segment the global maps, the segment holds the frame's
    stored bytes, and the recorded size and name are the frame's size and
    [/camera_latest].  This holds after any earlier deliveries, whatever
    happens to the ring store and the name record in the same callback. *)
Theorem latest_publication_round_trip (ds : list (Env * camera_buffer_t))
    (env : Env) (b : camera_buffer_t) :
  latest_open_ok env = true → latest_trunc_ok env = true → latest_map_ok env = true →
  ∃ o, latest_published (run (ds ++ [(env, b)]) initial_state).1 o
       ∧ shm_objs (shm (run (ds ++ [(env, b)]) initial_state).1) !! o
         = Some (frame_bytes b)
       ∧ latest_size (run (ds ++ [(env, b)]) initial_state).1 = get_frame_size b
       ∧ latest_shm_name (run (ds ++ [(env, b)]) initial_state).1
         = Some "/camera_latest"%string.
Proof.
  intros Hopen Htr Hmap. rewrite run_snoc.
  by apply (processCameraData_publishes env b _ _ (reachable_inv ds)).
Qed.

Lemma latest_publication_round_trip_witness :
  ∃ o, latest_published
         (run (five_deliveries ++ [(env_ok, sample_frame 6)]) initial_state).1 o
       ∧ shm_objs (shm (run (five_deliveries ++ [(env_ok, sample_frame 6)])
                          initial_state).1) !! o
         = Some (frame_bytes (sample_frame 6))
       ∧ latest_size (run (five_deliveries ++ [(env_ok, sample_frame 6)])
                        initial_state).1 = get_frame_size (sample_frame 6)
       ∧ latest_shm_name (run (five_deliveries ++ [(env_ok, sample_frame 6)])
                            initial_state).1
         = Some "/camera_latest"%string.
Proof.
  apply (latest_publication_round_trip five_deliveries env_ok (sample_frame 6));
    reflexivity.
Defined.

(** X9.  When the three calls that write the name record succeed, a reader
    of [/camera_latest_name] finds a 256-byte record whose C string is the
    name the callback keeps for the latest segment, whatever happened to the
    latest segment itself. *)
Theorem name_record_round_trip (ds : list (Env * camera_buffer_t))
    (env : Env) (b : camera_buffer_t) :
  name_open_ok env = true → name_trunc_ok env = true → name_map_ok env = true →
  ∃ o record,
    shm_names (shm (run (ds ++ [(env, b)]) initial_state).1)
      !! "/camera_latest_name"%string = Some o
    ∧ shm_objs (shm (run (ds ++ [(env, b)]) initial_state).1) !! o = Some record
    ∧ length record = 256%nat
    ∧ Some (c_string record)
      = string_bytes <$> latest_shm_name (run (ds ++ [(env, b)]) initial_state).1.
Proof.
  intros Hopen Htr Hmap. rewrite run_snoc, processCameraData_unfold.
  pose proof (store_frame_inv env b _ _ (reachable_inv ds)) as H1.
  set (st1 := (store_frame env b (get_frame_size b) (run ds initial_state).1).1) in *.
  pose proof (update_latest_inv env b st1 _ H1) as H2.
  destruct (update_latest_frame env b st1) as (_ & _ & _ & _ & F5 & _).
  set (st2 := (update_latest env b st1).1) in *.
  pose proof (update_metadata_inv b (get_frame_size b) st2 _ H2) as H3.
  destruct (update_metadata_fields b (get_frame_size b) st2)
    as (_ & _ & _ & M4 & _).
  set (st3 := update_metadata b (get_frame_size b) st2) in *.
  destruct (update_latest_name_success env st3 _ H3 Hopen Htr Hmap) as (o & Hn & Ho).
  destruct (update_latest_name_frame env st3) as (_ & _ & _ & _ & G5 & _).
  exists o, (resize 256 0 (string_bytes "/camera_latest")). split_and!.
  - exact Hn.
  - exact Ho.
  - by rewrite length_resize.
  - rewrite G5, M4, F5. reflexivity.
Qed.

Lemma name_record_round_trip_witness :
  ∃ o record,
    shm_names (shm (run (five_deliveries ++ [(env_ok, sample_frame 6)])
                      initial_state).1)
      !! "/camera_latest_name"%string = Some o
    ∧ shm_objs (shm (run (five_deliveries ++ [(env_ok, sample_frame 6)])
                       initial_state).1) !! o = Some record
    ∧ length record = 256%nat
    ∧ Some (c_string record)
      = string_bytes <$> latest_shm_name
                           (run (five_deliveries ++ [(env_ok, sample_frame 6)])
                              initial_state).1.
Proof.
  apply (name_record_round_trip five_deliveries env_ok (sample_frame 6));
    reflexivity.
Defined.

(** * Segments that lose their name *)

Lemma unresolvable_ext (name : string) (s s' : Shm) (o : nat) :
  shm_ext name s s' → (o < length (shm_objs s))%nat →
  unresolvable s o → unresolvable s' o.
Proof.
  intros [EL EN EO EB] Ho Hun n Hn.
  destruct (decide (n = name)) as [-> | Hne].
  - destruct EB as [EB | [EB | (o' & EB & Hr)]]; rewrite EB in Hn.
    + done.
    + by apply (Hun name).
    + injection Hn as ->. lia.
  - rewrite EN in Hn by done. by apply (Hun n).
Qed.

Lemma unresolvable_unlink (name : option string) (s : Shm) (o : nat) :
  unresolvable s o → unresolvable (shm_unlink name s) o.
Proof.
  intros Hun n Hn. destruct name as [nm|]; simpl in Hn.
  - apply lookup_delete_Some in Hn as [_ Hn]. by apply (Hun n).
  - by apply (Hun n).
Qed.

(** The shared-memory steps of one callback, after the eviction. *)
Lemma processCameraData_steps (env : Env) (b : camera_buffer_t) (st : State)
    (hist : list camera_buffer_t) :
  store_inv st hist →
  shm_ext (frame_shm_name (ring_index (evict_oldest st).1
                             (buffer_count (evict_oldest st).1)))
          (shm (evict_oldest st).1)
          (shm (store_frame env b (get_frame_size b) st).1)
  ∧ shm_ext "/camera_latest"
            (shm (store_frame env b (get_frame_size b) st).1)
            (shm (update_latest env b
                    (store_frame env b (get_frame_size b) st).1).1)
  ∧ shm_ext "/camera_latest_name"
            (shm (update_latest env b
                    (store_frame env b (get_frame_size b) st).1).1)
            (shm (processCameraData env b st).1).
Proof.
  intros Hinv. rewrite processCameraData_unfold.
  destruct (store_frame_spec env b (get_frame_size b) st hist Hinv) as (Hext & _).
  pose proof (store_frame_inv env b st hist Hinv) as H1.
  set (st1 := (store_frame env b (get_frame_size b) st).1) in *.
  destruct (update_latest_frame env b st1) as (_ & _ & _ & _ & _ & F6).
  set (st2 := (update_latest env b st1).1) in *.
  destruct (update_metadata_fields b (get_frame_size b) st2)
    as (_ & _ & _ & _ & _ & _ & M7).
  destruct (update_latest_name_frame env (update_metadata b (get_frame_size b) st2))
    as (_ & _ & _ & _ & _ & _ & G7).
  rewrite M7 in G7. split_and!.
  - exact Hext.
  - apply F6, (inv_latest _ _ H1).
  - exact G7.
Qed.

Lemma evict_oldest_objs (st : State) :
  shm_objs (shm (evict_oldest st).1) = shm_objs (shm st).
Proof.
  unfold evict_oldest. destruct (buffer_count st =? MAX_FRAMES); [|done].
  simpl. by destruct (f_shm_name _).
Qed.

Lemma evict_oldest_unresolvable (st : State) (o : nat) :
  unresolvable (shm st) o → unresolvable (shm (evict_oldest st).1) o.
Proof.
  intros Hun. unfold evict_oldest.
  destruct (buffer_count st =? MAX_FRAMES); [|done].
  simpl. by apply unresolvable_unlink.
Qed.

Lemma after_evict_unresolvable (env : Env) (b : camera_buffer_t) (st : State)
    (hist : list camera_buffer_t) (o : nat) :
  store_inv st hist → (o < length (shm_objs (shm st)))%nat →
  unresolvable (shm (evict_oldest st).1) o →
  unresolvable (shm (processCameraData env b st).1) o
  ∧ (o < length (shm_objs (shm (processCameraData env b st).1)))%nat.
Proof.
  intros Hinv Ho Hun.
  destruct (processCameraData_steps env b st hist Hinv) as (E1 & E2 & E3).
  rewrite <- evict_oldest_objs in Ho.
  pose proof (ext_len _ _ _ E1). pose proof (ext_len _ _ _ E2).
  pose proof (ext_len _ _ _ E3).
  split; [|lia].
  eapply unresolvable_ext; [exact E3 | lia |].
  eapply unresolvable_ext; [exact E2 | lia |].
  eapply unresolvable_ext; [exact E1 | lia | exact Hun].
Qed.

Lemma run_unresolvable (ds : list (Env * camera_buffer_t)) (st : State)
    (hist : list camera_buffer_t) (o : nat) :
  store_inv st hist → (o < length (shm_objs (shm st)))%nat →
  unresolvable (shm st) o → unresolvable (shm (run ds st).1) o.
Proof.
  revert st hist. induction ds as [|[env b] ds IH]; intros st hist Hinv Ho Hun;
    simpl; [done|].
  pose proof (processCameraData_inv env b st hist Hinv) as H1.
  destruct (after_evict_unresolvable env b st hist o Hinv Ho) as [Hun1 Ho1].
  { by apply evict_oldest_unresolvable. }
  destruct (processCameraData env b st) as [st1 ev1]. simpl in *.
  specialize (IH st1 _ H1 Ho1 Hun1).
  by destruct (run ds st1).
Qed.

(** X10.  Once the ring is full, the next delivery takes the name away from
    the segment of the oldest frame, whether or not the new frame is stored,
    and nothing later gives that segment a name again: a reader that has not
    opened it by then cannot reach it. *)
Theorem evicted_segment_gone (ds ds' : list (Env * camera_buffer_t))
    (env : Env) (b : camera_buffer_t) (o : nat) :
  buffer_count (run ds initial_state).1 = MAX_FRAMES →
  f_mapped_data (slot (run ds initial_state).1 0) = Map o →
  unresolvable (shm (run (ds ++ (env, b) :: ds') initial_state).1) o.
Proof.
  intros Hfull Hmap.
  pose proof (reachable_inv ds) as Hinv. pose proof (reachable_site ds) as Hsite.
  rewrite run_app. simpl.
  set (st := (run ds initial_state).1) in *.
  assert (Hk : 0 ≤ 0 < buffer_count st) by (rewrite Hfull; done).
  destruct (inv_slot _ _ Hinv 0 Hk) as (o' & _ & _ & _ & Hmap' & _ & Hown).
  rewrite Hmap in Hmap'. injection Hmap' as <-.
  destruct (site_live _ _ Hsite 0 Hk) as (o' & Hmap' & Hres).
  rewrite Hmap in Hmap'. injection Hmap' as <-.
  rewrite (ring_index_0 st (inv_head _ _ Hinv)) in Hown, Hres.
  assert (Ho : (o < length (shm_objs (shm st)))%nat)
    by exact (inv_bound _ _ Hinv _ _ Hres).
  assert (Hun : unresolvable (shm (evict_oldest st).1) o).
  { destruct (evict_oldest_shm st _ Hinv) as (Hs & _). rewrite Hs.
    rewrite (proj2 (Z.eqb_eq _ _) Hfull). intros n Hn. simpl in Hn.
    apply lookup_delete_Some in Hn as [Hne Hn]. by apply Hne, eq_sym, Hown. }
  pose proof (processCameraData_inv env b st _ Hinv) as H1.
  destruct (after_evict_unresolvable env b st _ o Hinv Ho Hun) as [Hun1 Ho1].
  pose proof (run_unresolvable ds' _ _ o H1 Ho1 Hun1) as Hfin.
  destruct (processCameraData env b st) as [st1 ev1]. simpl in *.
  by destruct (run ds' st1).
Qed.

Lemma evicted_segment_gone_witness :
  unresolvable
    (shm (run (five_deliveries
               ++ (env_ring_open_fails, sample_frame 6) :: [(env_ok, sample_frame 7)])
            initial_state).1) 0.
Proof.
  apply (evicted_segment_gone five_deliveries [(env_ok, sample_frame 7)]
           env_ring_open_fails (sample_frame 6) 0); reflexivity.
Defined.

(** * Releasing shared memory at exit *)

Lemma frame_shm_name_not_metadata (i : Z) :
  0 ≤ i < 5 → frame_shm_name i ≠ "/camera_metadata"%string.
Proof.
  intros Hi.
  destruct (small_index_cases i Hi) as [-> | [-> | [-> | [-> | ->]]]];
    vm_compute; congruence.
Qed.

(** The loop of lines 281-286 unlinks the names of the live slots and
    nothing else. *)
Lemma free_frame_buffer_names (st : State) (hist : list camera_buffer_t) :
  store_inv st hist →
  (∀ k, 0 ≤ k < buffer_count st →
     shm_names (free_frame_buffer st).1 !! frame_shm_name (ring_index st k) = None)
  ∧ (∀ n, (∀ k, 0 ≤ k < buffer_count st → n ≠ frame_shm_name (ring_index st k)) →
       shm_names (free_frame_buffer st).1 !! n = shm_names (shm st) !! n)
  ∧ (∀ n o, shm_names (free_frame_buffer st).1 !! n = Some o →
       shm_names (shm st) !! n = Some o)
  ∧ shm_objs (free_frame_buffer st).1 = shm_objs (shm st).
Proof.
  intros Hinv. unfold free_frame_buffer.
  pose proof (inv_head _ _ Hinv) as Hhead.
  pose proof (inv_count _ _ Hinv) as Hcount.
  set (body := λ (i : Z) (acc : Shm * list event), _).
  assert (Hloop : ∀ m, 0 ≤ m ≤ buffer_count st →
    (∀ k, 0 ≤ k < m →
       shm_names (for_loop m body (shm st, [])).1
         !! frame_shm_name (ring_index st k) = None)
    ∧ (∀ n, (∀ k, 0 ≤ k < m → n ≠ frame_shm_name (ring_index st k)) →
         shm_names (for_loop m body (shm st, [])).1 !! n = shm_names (shm st) !! n)
    ∧ (∀ n o, shm_names (for_loop m body (shm st, [])).1 !! n = Some o →
         shm_names (shm st) !! n = Some o)
    ∧ shm_objs (for_loop m body (shm st, [])).1 = shm_objs (shm st)).
  { intros m Hm.
    apply (for_loop_ind (λ i acc,
      i ≤ buffer_count st →
      (∀ k, 0 ≤ k < i →
         shm_names acc.1 !! frame_shm_name (ring_index st k) = None)
      ∧ (∀ n, (∀ k, 0 ≤ k < i → n ≠ frame_shm_name (ring_index st k)) →
           shm_names acc.1 !! n = shm_names (shm st) !! n)
      ∧ (∀ n o, shm_names acc.1 !! n = Some o → shm_names (shm st) !! n = Some o)
      ∧ shm_objs acc.1 = shm_objs (shm st))); [lia | | | lia].
    - intros _. simpl. split_and!; [intros k Hk; lia | done | done | done].
    - intros k acc Hk IH Hle. destruct (IH ltac:(lia)) as (Pa & Pb & Pc & Po).
      unfold body. cbv zeta.
      rewrite rem_MAX_FRAMES by lia. fold (ring_index st k). fold (slot st k).
      destruct (inv_slot _ _ Hinv k ltac:(lia)) as (o & b & _ & _ & _ & Hname & _).
      rewrite Hname. simpl. split_and!.
      + intros k' Hk'. apply lookup_delete_None.
        destruct (decide (k' = k)) as [-> | Hne]; [by left | right].
        apply Pa. lia.
      + intros n Hn. rewrite lookup_delete_ne by (apply not_eq_sym, Hn; lia).
        apply Pb. intros k' Hk'. apply Hn. lia.
      + intros n o' Hn. apply lookup_delete_Some in Hn as [_ Hn]. by apply Pc.
      + exact Po. }
  apply Hloop. lia.
Qed.

(** What [main] leaves of the name space when it exits. *)
Lemma release_names (st : State) (hist : list camera_buffer_t) :
  store_inv st hist → site_inv st hist →
  (∀ n o, shm_names (release_shared_memory st).1 !! n = Some o →
     shm_names (shm st) !! n = Some o
     ∧ n ≠ "/camera_latest_name"%string
     ∧ (latest_mapped st ≠ NULL → n ≠ "/camera_latest"%string)
     ∧ ∀ k, 0 ≤ k < buffer_count st → n ≠ frame_shm_name (ring_index st k))
  ∧ (∀ n, (∀ k, 0 ≤ k < buffer_count st → n ≠ frame_shm_name (ring_index st k)) →
       n ≠ "/camera_metadata"%string → n ≠ "/camera_latest_name"%string →
       n ≠ "/camera_latest"%string →
       shm_names (release_shared_memory st).1 !! n = shm_names (shm st) !! n).
Proof.
  intros Hinv Hsite. unfold release_shared_memory.
  destruct (free_frame_buffer_names st hist Hinv) as (Pa & Pb & Pc & _).
  destruct (free_frame_buffer st) as [s ev]. simpl in Pa, Pb, Pc.
  assert (Hlive : ∀ n o, shm_names s !! n = Some o →
            ∀ k, 0 ≤ k < buffer_count st → n ≠ frame_shm_name (ring_index st k)).
  { intros n o Hn k Hk ->. rewrite Pa in Hn by done. done. }
  destruct (decide (latest_mapped st = NULL)) as [Hnull | Hnn]; simpl.
  - split.
    + intros n o Hn.
      apply lookup_delete_Some in Hn as [Hn1 Hn].
      apply lookup_delete_Some in Hn as [Hn2 Hn].
      split_and!; [by apply Pc | done | done | by apply (Hlive n o)].
    + intros n Hn Hmd Hnm Hl.
      rewrite !lookup_delete_ne by done. by apply Pb.
  - rewrite (site_latest _ _ Hsite Hnn). simpl. split.
    + intros n o Hn.
      apply lookup_delete_Some in Hn as [Hn1 Hn].
      apply lookup_delete_Some in Hn as [Hn2 Hn].
      apply lookup_delete_Some in Hn as [Hn3 Hn].
      split_and!; [by apply Pc | done | done | by apply (Hlive n o)].
    + intros n Hn Hmd Hnm Hl.
      rewrite !lookup_delete_ne by done. by apply Pb.
Qed.

(** X11.  At exit [main] takes the name away from every segment the
    callback still uses: after the release no live slot's name resolves, nor
    does [/camera_latest_name], nor, when the latest-frame pointer is not
    [NULL], [/camera_latest]; and no name resolves that did not before. *)
Theorem release_unlinks_segments_in_use (ds : list (Env * camera_buffer_t)) :
  (∀ k, 0 ≤ k < buffer_count (run ds initial_state).1 →
     shm_names (release_shared_memory (run ds initial_state).1).1
       !! frame_shm_name (ring_index (run ds initial_state).1 k) = None)
  ∧ shm_names (release_shared_memory (run ds initial_state).1).1
      !! "/camera_latest_name"%string = None
  ∧ (latest_mapped (run ds initial_state).1 ≠ NULL →
     shm_names (release_shared_memory (run ds initial_state).1).1
       !! "/camera_latest"%string = None)
  ∧ (∀ n o, shm_names (release_shared_memory (run ds initial_state).1).1 !! n = Some o →
       shm_names (shm (run ds initial_state).1) !! n = Some o).
Proof.
  destruct (release_names _ _ (reachable_inv ds) (reachable_site ds)) as [HA _].
  set (st := (run ds initial_state).1) in *.
  split_and!.
  - intros k Hk. apply eq_None_not_Some. intros [o Ho].
    destruct (HA _ _ Ho) as (_ & _ & _ & Hl). by apply (Hl k Hk).
  - apply eq_None_not_Some. intros [o Ho].
    by destruct (HA _ _ Ho) as (_ & Hn & _).
  - intros Hnn. apply eq_None_not_Some. intros [o Ho].
    destruct (HA _ _ Ho) as (_ & _ & Hl & _). by apply Hl.
  - intros n o Ho. by destruct (HA _ _ Ho) as (Hn & _).
Qed.

(** * Segments left behind *)

Lemma tight_evict (st : State) (hist : list camera_buffer_t) :
  store_inv st hist → tight st → tight (evict_oldest st).1.
Proof.
  intros Hinv [Tr Tl].
  destruct (evict_oldest_shm st hist Hinv) as (Hs & _ & Hh & Hc & Hlm & _).
  pose proof (inv_head _ _ Hinv) as Hhead.
  destruct (Z.eqb_spec (buffer_count st) MAX_FRAMES) as [Hfull | Hnot].
  - split.
    + intros i Hi [o Ho]. rewrite Hs in Ho. simpl in Ho.
      apply lookup_delete_Some in Ho as [Hne Ho].
      destruct (Tr i Hi (mk_is_Some _ _ Ho)) as (k & Hk & ->).
      assert (k ≠ 0).
      { intros ->. by rewrite (ring_index_0 st Hhead) in Hne. }
      exists (k - 1). split; [lia|].
      unfold ring_index. rewrite Hh, Z.add_mod_idemp_l by done. f_equal. lia.
    + intros [o Ho]. rewrite Hs in Ho. simpl in Ho.
      apply lookup_delete_Some in Ho as [_ Ho]. rewrite Hlm. eauto.
  - split.
    + intros i Hi Ho. rewrite Hs in Ho.
      destruct (Tr i Hi Ho) as (k & Hk & ->). exists k.
      unfold ring_index. by rewrite Hh, Hc.
    + rewrite Hs, Hlm. exact Tl.
Qed.

Lemma tight_store (env : Env) (b : camera_buffer_t) (st : State)
    (hist : list camera_buffer_t) :
  stores env = true → store_inv st hist → tight st →
  tight (store_frame env b (get_frame_size b) st).1.
Proof.
  intros Hst Hinv0 T0.
  destruct (store_frame_spec env b (get_frame_size b) st hist Hinv0)
    as ([_ EN _ _] & Hh & _ & Hok & _).
  destruct (Hok Hst) as (Hc & fd & Hfd & _).
  destruct (store_frame_latest env b (get_frame_size b) st) as (Hlm & _).
  destruct (evict_oldest_shm st hist Hinv0) as (_ & _ & _ & _ & Hlm1 & _).
  destruct (store_inv_evict st hist Hinv0) as [Hinv Hroom].
  destruct (tight_evict st hist Hinv0 T0) as [Tr Tl].
  pose proof (inv_count _ _ Hinv) as Hcount.
  set (st1 := (evict_oldest st).1) in *.
  set (idx := ring_index st1 (buffer_count st1)) in *.
  pose proof (ring_index_range st1 (buffer_count st1)) as Hidx. fold idx in Hidx.
  split.
  - intros i Hi Ho. destruct (decide (i = idx)) as [-> | Hne].
    + exists (buffer_count st1). split; [lia|].
      unfold idx, ring_index. by rewrite Hh.
    + rewrite EN in Ho.
      2:{ intros Heq. apply frame_shm_name_inj in Heq; done. }
      destruct (Tr i Hi Ho) as (k & Hk & ->). exists k. split; [lia|].
      unfold ring_index. by rewrite Hh.
  - intros Ho. rewrite EN in Ho.
    2:{ apply not_eq_sym, frame_shm_name_not_latest. done. }
    rewrite Hlm, <- Hlm1. by apply Tl.
Qed.

Lemma tight_update_latest (env : Env) (b : camera_buffer_t) (st : State)
    (hist : list camera_buffer_t) :
  latest_open_ok env = true → latest_trunc_ok env = true → latest_map_ok env = true →
  store_inv st hist → tight st → tight (update_latest env b st).1.
Proof.
  intros Hopen Htr Hmap Hinv [Tr Tl].
  destruct (update_latest_frame env b st) as (_ & F2 & F3 & _ & _ & F6).
  destruct (F6 (inv_latest _ _ Hinv)) as [_ EN _ _].
  destruct (update_latest_success env b st hist Hinv Hopen Htr Hmap) as (o & Hp & _).
  split.
  - intros i Hi Ho. rewrite EN in Ho by (by apply frame_shm_name_not_latest).
    destruct (Tr i Hi Ho) as (k & Hk & ->). exists k.
    unfold ring_index. by rewrite F2, F3.
  - intros _. by rewrite Hp.
Qed.

Lemma tight_later (env : Env) (b : camera_buffer_t) (size : Z) (st : State) :
  tight st → tight (update_latest_name env (update_metadata b size st)).1.
Proof.
  intros [Tr Tl].
  destruct (update_metadata_fields b size st) as (_ & M2 & M3 & _ & M5 & _ & M7).
  destruct (update_latest_name_frame env (update_metadata b size st))
    as (_ & G2 & G3 & _ & _ & G6 & [_ EN _ _]).
  split.
  - intros i Hi Ho. rewrite EN, M7 in Ho by (by apply frame_shm_name_not_latest).
    destruct (Tr i Hi Ho) as (k & Hk & ->). exists k.
    unfold ring_index. by rewrite G2, G3, M2, M3.
  - intros Ho. rewrite EN, M7 in Ho by done. rewrite G6, M5. by apply Tl.
Qed.

Lemma all_ok_parts (env : Env) :
  all_ok env = true →
  stores env = true ∧ latest_open_ok env = true ∧ latest_trunc_ok env = true
  ∧ latest_map_ok env = true.
Proof.
  unfold all_ok, stores. rewrite !andb_true_iff. tauto.
Qed.

Lemma processCameraData_tight (env : Env) (b : camera_buffer_t) (st : State)
    (hist : list camera_buffer_t) :
  all_ok env = true → store_inv st hist → tight st →
  tight (processCameraData env b st).1.
Proof.
  intros Hok Hinv T. destruct (all_ok_parts env Hok) as (Hst & Hopen & Htr & Hmap).
  rewrite processCameraData_unfold. apply tight_later.
  apply (tight_update_latest env b _ _ Hopen Htr Hmap
           (store_frame_inv env b st hist Hinv)).
  by apply (tight_store env b st hist).
Qed.

Lemma run_tight (ds : list (Env * camera_buffer_t)) (st : State)
    (hist : list camera_buffer_t) :
  Forall (λ d, all_ok d.1 = true) ds → store_inv st hist → tight st →
  tight (run ds st).1.
Proof.
  intros Hds. revert st hist.
  induction Hds as [|[env b] ds Hok _ IH]; intros st hist Hinv T; simpl; [done|].
  pose proof (processCameraData_inv env b st hist Hinv) as H1.
  pose proof (processCameraData_tight env b st hist Hok Hinv T) as T1.
  destruct (processCameraData env b st) as [st1 ev1]. simpl in *.
  specialize (IH st1 _ H1 T1). by destruct (run ds st1).
Qed.

Lemma initial_state_tight : tight initial_state.
Proof.
  split; simpl.
  - intros i _ [o Ho]. by rewrite lookup_empty in Ho.
  - intros [o Ho]. by rewrite lookup_empty in Ho.
Qed.

Lemma release_names_empty (st : State) (hist : list camera_buffer_t) :
  store_inv st hist → site_inv st hist → tight st →
  shm_names (release_shared_memory st).1 = ∅.
Proof.
  intros Hinv Hsite [Tr Tl].
  destruct (release_names _ _ Hinv Hsite) as [HA _].
  apply map_empty. intros n. apply eq_None_not_Some. intros [o Ho].
  destruct (HA _ _ Ho) as (Hn & Hname & Hlat & Hlive).
  destruct (site_known _ _ Hsite n o Hn) as [-> | [-> | (i & Hi & ->)]].
  - apply Hlat; [|done]. apply Tl. eauto.
  - done.
  - destruct (Tr i Hi (mk_is_Some _ _ Hn)) as (k & Hk & ->). by apply (Hlive k).
Qed.

(** X12.  When every shared-memory call of every delivery succeeded, the
    release at exit is complete: none of the segments the callback created
    keeps its name. *)
Theorem release_after_success_leaves_nothing (ds : list (Env * camera_buffer_t)) :
  Forall (λ d, all_ok d.1 = true) ds →
  shm_names (release_shared_memory (run ds initial_state).1).1 = ∅.
Proof.
  intros Hds.
  apply (release_names_empty _ (pushed ds)).
  - apply reachable_inv.
  - apply reachable_site.
  - exact (run_tight ds _ _ Hds initial_state_inv initial_state_tight).
Qed.

Lemma release_after_success_leaves_nothing_witness :
  shm_names (release_shared_memory (run seven_deliveries initial_state).1).1 = ∅.
Proof.
  apply release_after_success_leaves_nothing.
  unfold seven_deliveries. simpl. repeat constructor.
Defined.

(** X13.  A store that opens its segment and then fails leaves that segment
    behind for good: the segment of the slot the frame was meant for, which
    is the number of frames stored so far modulo [MAX_FRAMES], still
    resolves after [main] has released everything it keeps track of. *)
Theorem failed_store_leaks_segment (ds : list (Env * camera_buffer_t))
    (env : Env) (b : camera_buffer_t) :
  ring_open_ok env = true → stores env = false →
  is_Some (shm_names (release_shared_memory
                        (run (ds ++ [(env, b)]) initial_state).1).1
             !! frame_shm_name (Z.of_nat (length (pushed ds)) mod MAX_FRAMES)).
Proof.
  intros Hopen Hfail.
  assert (Hinv' : store_inv (run (ds ++ [(env, b)]) initial_state).1 (pushed ds)).
  { pose proof (reachable_inv (ds ++ [(env, b)])) as Hr.
    rewrite pushed_app in Hr. simpl in Hr. rewrite Hfail, app_nil_r in Hr. done. }
  assert (Hsite' : site_inv (run (ds ++ [(env, b)]) initial_state).1 (pushed ds)).
  { pose proof (reachable_site (ds ++ [(env, b)])) as Hr.
    rewrite pushed_app in Hr. simpl in Hr. rewrite Hfail, app_nil_r in Hr. done. }
  destruct (release_names _ _ Hinv' Hsite') as [_ HB].
  pose proof (reachable_inv ds) as Hinv. pose proof (reachable_site ds) as Hsite.
  revert Hinv' Hsite' HB. rewrite run_snoc.
  set (st := (run ds initial_state).1) in *. intros Hinv' Hsite' HB.
  destruct (store_frame_spec env b (get_frame_size b) st _ Hinv)
    as (_ & Hh & Hres & _ & Hsame).
  destruct (Hsame Hfail) as [Hc _]. specialize (Hres Hopen).
  destruct (processCameraData_steps env b st _ Hinv) as (_ & [_ EN2 _ _] & [_ EN3 _ _]).
  destruct (processCameraData_ring env b st) as (Rh & Rc & _).
  destruct (store_inv_evict st _ Hinv) as [Hinv1 Hroom].
  pose proof (site_next _ _ (site_inv_evict st _ Hinv Hsite)) as Hnext.
  pose proof (inv_count _ _ Hinv1) as Hcount.
  set (st1 := (evict_oldest st).1) in *.
  assert (Hidx : ring_index st1 (buffer_count st1)
                 = Z.of_nat (length (pushed ds)) mod MAX_FRAMES) by exact Hnext.
  rewrite Hidx in Hres.
  assert (Hr : 0 ≤ Z.of_nat (length (pushed ds)) mod MAX_FRAMES < 5)
    by (apply Z.mod_pos_bound; done).
  rewrite HB.
  - rewrite EN3, EN2; [done | |]; by apply frame_shm_name_not_latest.
  - intros k Hk Heq. rewrite Rc, Hc in Hk.
    apply frame_shm_name_inj in Heq; [|done|apply ring_index_range].
    rewrite <- Hidx in Heq. unfold ring_index in Heq. rewrite Rh, Hh in Heq.
    apply (ring_index_inj st1) in Heq; unfold MAX_FRAMES in *; lia.
  - by apply frame_shm_name_not_metadata.
  - by apply frame_shm_name_not_latest.
  - by apply frame_shm_name_not_latest.
Qed.

Lemma failed_store_leaks_segment_witness :
  is_Some (shm_names (release_shared_memory
                        (run (five_deliveries ++ [(env_no_map, sample_frame 6)])
                           initial_state).1).1
             !! frame_shm_name (Z.of_nat (length (pushed five_deliveries))
                                mod MAX_FRAMES)).
Proof.
  apply (failed_store_leaks_segment five_deliveries env_no_map (sample_frame 6));
    reflexivity.
Defined.

(** * The scanlines handed to the encoder *)

Lemma jpeg_scanlines_rows (rgb : list Z) (w h : Z) :
  0 ≤ w → 0 ≤ h → w * h * 3 < 2 ^ 32 →
  length (jpeg_scanlines rgb w h) = Z.to_nat h
  ∧ (∀ y, 0 ≤ y < h →
       jpeg_scanlines rgb w h !! Z.to_nat y
       = Some (take (Z.to_nat (w * 3)) (drop (Z.to_nat (y * w * 3)) rgb)))
  ∧ mjoin (jpeg_scanlines rgb w h) = take (Z.to_nat (h * w * 3)) rgb.
Proof.
  intros Hw Hh Hfit. unfold jpeg_scanlines.
  apply (for_loop_ind (λ m rows,
    length rows = Z.to_nat m
    ∧ (∀ y, 0 ≤ y < m →
         rows !! Z.to_nat y
         = Some (take (Z.to_nat (w * 3)) (drop (Z.to_nat (y * w * 3)) rgb)))
    ∧ mjoin rows = take (Z.to_nat (m * w * 3)) rgb)); [done | |].
  - split_and!; [done | intros y Hy; lia | done].
  - intros k rows Hk (Hlen & Hrows & Hjoin).
    rewrite (u32_small (k * w)) by nia. rewrite u32_small by nia.
    split_and!.
    + rewrite length_app, Hlen. simpl. lia.
    + intros y Hy. destruct (decide (y = k)) as [-> | Hne].
      * by apply list_lookup_middle.
      * rewrite lookup_app_l by lia. apply Hrows. lia.
    + rewrite join_app, Hjoin. simpl. rewrite app_nil_r, take_take_drop.
      f_equal. rewrite <- Z2Nat.inj_add by nia. f_equal. lia.
Qed.

(** X14.  The rows [compress_to_jpeg] hands to the encoder are the image
    rows of the frame without their fourth bytes and without row padding:
    there are [height] of them, each of [3 * width] bytes, together they are
    the packed buffer, and byte [3 * x + c] of row [y] is byte
    [y * stride + 4 * x + c] of the frame. *)
Theorem scanlines_are_image_rows (fb : list Z) (w h s : Z) :
  0 ≤ w → 0 ≤ h → 0 ≤ s → w * h * 3 < 2 ^ 32 → (h - 1) * s + 4 * w ≤ 2 ^ 32 →
  length (jpeg_scanlines
            (pack_rgb fb w h s (replicate (Z.to_nat (w * h * 3)) 0)) w h)
  = Z.to_nat h
  ∧ mjoin (jpeg_scanlines
             (pack_rgb fb w h s (replicate (Z.to_nat (w * h * 3)) 0)) w h)
    = pack_rgb fb w h s (replicate (Z.to_nat (w * h * 3)) 0)
  ∧ ∀ y x c, 0 ≤ y < h → 0 ≤ x < w → 0 ≤ c < 3 →
      ∃ row,
        jpeg_scanlines
          (pack_rgb fb w h s (replicate (Z.to_nat (w * h * 3)) 0)) w h
          !! Z.to_nat y = Some row
        ∧ length row = Z.to_nat (3 * w)
        ∧ row !! Z.to_nat (3 * x + c) = Some (rd fb (y * s + x * 4 + c)).
Proof.
  intros Hw Hh Hs Hdst Hsrc.
  pose proof (pack_rgb_length fb w h s Hw Hh Hs Hdst Hsrc) as Hlen.
  set (rgb := pack_rgb fb w h s (replicate (Z.to_nat (w * h * 3)) 0)) in *.
  destruct (jpeg_scanlines_rows rgb w h Hw Hh Hdst) as (Hn & Hrows & Hjoin).
  split_and!.
  - exact Hn.
  - rewrite Hjoin. apply take_ge. rewrite Hlen. apply Z2Nat.inj_le; lia.
  - intros y x c Hy Hx Hc. eexists. split; [by apply Hrows|]. split.
    + rewrite length_take_le; [f_equal; lia|].
      rewrite length_drop, Hlen, <- Z2Nat.inj_sub by nia.
      apply Z2Nat.inj_le; nia.
    + rewrite lookup_take_lt by (apply Z2Nat.inj_lt; lia).
      rewrite lookup_drop, <- Z2Nat.inj_add by nia.
      replace (y * w * 3 + (3 * x + c)) with ((y * w + x) * 3 + c) by lia.
      by apply pack_rgb_correct.
Qed.

Lemma scanlines_are_image_rows_witness :
  length (jpeg_scanlines
            (pack_rgb (framebuf example_rgb) 2 1 8
               (replicate (Z.to_nat (2 * 1 * 3)) 0)) 2 1)
  = Z.to_nat 1
  ∧ mjoin (jpeg_scanlines
             (pack_rgb (framebuf example_rgb) 2 1 8
                (replicate (Z.to_nat (2 * 1 * 3)) 0)) 2 1)
    = pack_rgb (framebuf example_rgb) 2 1 8 (replicate (Z.to_nat (2 * 1 * 3)) 0)
  ∧ ∀ y x c, 0 ≤ y < 1 → 0 ≤ x < 2 → 0 ≤ c < 3 →
      ∃ row,
        jpeg_scanlines
          (pack_rgb (framebuf example_rgb) 2 1 8
             (replicate (Z.to_nat (2 * 1 * 3)) 0)) 2 1
          !! Z.to_nat y = Some row
        ∧ length row = Z.to_nat (3 * 2)
        ∧ row !! Z.to_nat (3 * x + c)
          = Some (rd (framebuf example_rgb) (y * 8 + x * 4 + c)).
Proof. apply (scanlines_are_image_rows (framebuf example_rgb) 2 1 8); lia. Defined.

(** * Bytes that never reach the sink *)

Lemma pack_rgb_agree (fb fb' : list Z) (w h s : Z) :
  0 ≤ w → 0 ≤ h → 0 ≤ s → w * h * 3 < 2 ^ 32 → (h - 1) * s + 4 * w ≤ 2 ^ 32 →
  (∀ y x c, 0 ≤ y < h → 0 ≤ x < w → 0 ≤ c < 3 →
     rd fb (y * s + x * 4 + c) = rd fb' (y * s + x * 4 + c)) →
  pack_rgb fb w h s (replicate (Z.to_nat (w * h * 3)) 0)
  = pack_rgb fb' w h s (replicate (Z.to_nat (w * h * 3)) 0).
Proof.
  intros Hw Hh Hs Hdst Hsrc Hsame. apply list_eq. intros i.
  destruct (decide (i < Z.to_nat (w * h * 3))%nat) as [Hi | Hi].
  - assert (Hz : 0 ≤ Z.of_nat i < w * h * 3) by lia.
    assert (Hwpos : 0 < w) by nia.
    set (p := Z.of_nat i / 3). set (c := Z.of_nat i mod 3).
    assert (Hp : Z.of_nat i = 3 * p + c) by (apply Z.div_mod; lia).
    assert (Hc : 0 ≤ c < 3) by (apply Z.mod_pos_bound; lia).
    set (y := p / w). set (x := p mod w).
    assert (Hy : p = w * y + x) by (apply Z.div_mod; lia).
    assert (Hx : 0 ≤ x < w) by (apply Z.mod_pos_bound; lia).
    assert (Hp0 : 0 ≤ p) by (apply Z.div_pos; lia).
    assert (Hy0 : 0 ≤ y) by (apply Z.div_pos; lia).
    assert (Hyh : y < h) by (apply Z.div_lt_upper_bound; nia).
    replace i with (Z.to_nat ((y * w + x) * 3 + c)) by lia.
    rewrite !pack_rgb_correct by lia. f_equal. apply Hsame; lia.
  - rewrite !(proj2 (lookup_ge_None _ _)); [done | |];
      rewrite pack_rgb_length by done; lia.
Qed.

(** X15.  The fourth byte of every pixel, the padding after each row and
    whatever follows the image never reach the encoder or the socket: two
    frames with the same tag and descriptor that agree on the three colour
    bytes of every pixel produce the same encode-and-send steps. *)
Theorem stream_ignores_fourth_byte (env : Env) (b b' : camera_buffer_t) :
  wf_buffer b → frametype b' = frametype b → framedesc b' = framedesc b →
  width (framedesc b) * height (framedesc b) * 3 < 2 ^ 32 →
  (height (framedesc b) - 1) * stride (framedesc b) + 4 * width (framedesc b)
    ≤ 2 ^ 32 →
  (∀ y x c, 0 ≤ y < height (framedesc b) → 0 ≤ x < width (framedesc b) →
     0 ≤ c < 3 →
     rd (framebuf b) (y * stride (framedesc b) + x * 4 + c)
     = rd (framebuf b') (y * stride (framedesc b) + x * 4 + c)) →
  encode_and_send env b = encode_and_send env b'.
Proof.
  intros (Hw & Hh & Hs) Hft Hdesc Hdst Hsrc Hsame.
  unfold encode_and_send, dimensions. rewrite Hft, Hdesc.
  destruct (frametype b); try reflexivity.
  cbv beta iota zeta.
  destruct (_ && _); [|reflexivity].
  rewrite (u32_small (width (framedesc b) * height (framedesc b))) by nia.
  rewrite u32_small by nia.
  by rewrite (pack_rgb_agree (framebuf b) (framebuf b') _ _ _
                (proj1 Hw) (proj1 Hh) (proj1 Hs) Hdst Hsrc Hsame).
Qed.

Lemma stream_ignores_fourth_byte_witness :
  encode_and_send env_ok example_rgb
  = encode_and_send env_ok
      {| frametype := CAMERA_FRAMETYPE_RGB8888;
         framedesc := {| width := 2; height := 1; stride := 8 |};
         framebuf := [10; 20; 30; 0; 40; 50; 60; 0; 7; 7] |}.
Proof.
  apply stream_ignores_fourth_byte.
  - unfold wf_buffer. simpl. lia.
  - reflexivity.
  - reflexivity.
  - simpl. lia.
  - simpl. lia.
  - simpl. intros y x c Hy Hx Hc.
    assert (y = 0) as -> by lia.
    assert (x = 0 ∨ x = 1) as [-> | ->] by lia;
      assert (c = 0 ∨ c = 1 ∨ c = 2) as [-> | [-> | ->]] by lia; reflexivity.
Defined.

(** * The two views of the newest frame *)



(** * [main] from start to exit *)

(** Walk [main] down to each of its exits. *)
Ltac main_exits su ds :=
  unfold main;
  repeat match goal with
    | |- context [if negb ?b then _ else _] => destruct b eqn:?; cbn [negb]
    | |- context [if unsupportedFrametype ?f then _ else _] =>
        destruct (unsupportedFrametype f) eqn:?
    | |- context [run ds initial_state] =>
        destruct (run ds initial_state) as [? ?] eqn:?
    | |- context [release_shared_memory ?st] =>
        destruct (release_shared_memory st) as [? ?] eqn:?
    end;
  cbn [status metadata_linked segments calls].


(** X18.  Once [camera_open] has succeeded, every path through [main] calls
    [camera_close] exactly once before it exits, on failure exits as well. *)
Theorem main_closes_camera_once (su : Startup) (ds : list (Env * camera_buffer_t)) :
  unit_valid su = true → camera_open_ok su = true →
  length (filter (λ c, is_camera_close c = true) (calls (main su ds))) = 1%nat.
Proof.
  intros Hu Ho. main_exits su ds; try done; reflexivity.
Qed.

Lemma main_closes_camera_once_witness :
  length (filter (λ c, is_camera_close c = true)
            (calls (main startup_stop_fails five_deliveries))) = 1%nat.
Proof.
  apply (main_closes_camera_once startup_stop_fails five_deliveries); reflexivity.
Defined.

(** X19.  Shared memory is released on the successful exit only.  An
    execution that ends in [EXIT_FAILURE] never runs the release: once
    [/camera_metadata] has been created it stays linked, and when the
    failure comes after the callbacks ran ([camera_stop_viewfinder] or
    [camera_close] failed) every segment the callbacks left is still there.
    An execution that streamed and ends in [EXIT_SUCCESS] leaves what the
    release leaves. *)
Theorem main_releases_only_on_success (su : Startup)
    (ds : list (Env * camera_buffer_t)) :
  (status (main su ds) = EXIT_FAILURE →
   forallb (λ c, negb (is_release c)) (calls (main su ds)) = true
   ∧ metadata_linked (main su ds)
     = unit_valid su && camera_open_ok su && metadata_open_ok su
   ∧ (existsb is_callbacks (calls (main su ds)) = true →
      segments (main su ds) = shm (run ds initial_state).1))
  ∧ (status (main su ds) = EXIT_SUCCESS → unit_valid su = true →
     metadata_linked (main su ds) = false
     ∧ existsb is_release (calls (main su ds)) = true
     ∧ segments (main su ds) = (release_shared_memory (run ds initial_state).1).1).
Proof.
  main_exits su ds; (split; [intros Hs | intros Hs Hu]); try done;
    split_and!; try done; try reflexivity;
    repeat match goal with
      | H : run ds initial_state = _ |- _ => rewrite H in *
      | H : release_shared_memory _ = _ |- _ => rewrite H in *
      end; try done; simpl in *; congruence.
Qed.

(** X20.  The callback runs only in a fully prepared process: if any
    delivery is processed, the metadata record has been created, sized and
    mapped, the socket is connected, and the camera's default layout is one
    of the supported ones. *)
Theorem callbacks_run_after_setup (su : Startup) (ds : list (Env * camera_buffer_t)) :
  existsb is_callbacks (calls (main su ds)) = true →
  metadata_open_ok su = true ∧ metadata_trunc_ok su = true
  ∧ metadata_map_ok su = true ∧ socket_ok su = true ∧ connect_ok su = true
  ∧ default_frametype su ∈ cSupportedFrametypes.
Proof.
  rewrite <- unsupportedFrametype_spec.
  main_exits su ds; intros H; try done.
Qed.

Lemma callbacks_run_after_setup_witness :
  metadata_open_ok startup_ok = true ∧ metadata_trunc_ok startup_ok = true
  ∧ metadata_map_ok startup_ok = true ∧ socket_ok startup_ok = true
  ∧ connect_ok startup_ok = true
  ∧ default_frametype startup_ok ∈ cSupportedFrametypes.
Proof.
  apply (callbacks_run_after_setup startup_ok five_deliveries). reflexivity.
Defined.


